(** * solid-validation: a shallow embedding of the form-validation helper

    The development follows the sources of the package at version 1.5.0:
    - [main.ts] (the [useForm] context: [checkValid], [validate],
      [validateField], [submit], [clearErrors], [formSubmit]), in module
      [Form];
    - [pocketbase.ts] ([prepareFormDataForPocketbase],
      [isPocketbaseFieldError], [parsePocketbaseError]), in module
      [Pocketbase].
    Module [Legacy] holds [checkValid] as the first [main.ts] had it, for
    inputs only, and module [LegacyPocketbase] holds [parsePocketbaseError] as
    the first [pocketbase.ts] had it.

    JavaScript objects that the code shares by reference (DOM elements, the
    [FormData] object) live in an explicit store and are named by references.
    Awaiting a promise is sequential composition: no other event is interleaved
    with a handler.  Validators and the submit callback are user code: they
    are taken to read what they are given and to return.  Calls that leave the
    library (validators, the submit callback, [checkValidity], [focus],
    [scrollIntoView], the signal setters) are recorded, in order, in a
    trace.

    Two calls of the library can throw inside the browser, and where they do
    is marked at the definitions: reading a name that [Object.prototype]
    defines ([Js.inherited]) from the registry, which [validateField] and the
    loop over a callback result do, is modelled, the result being [None];
    [classList.toggle] of an error class with white space in it
    ([Dom.class_token]) is not, and statements about a validation that fails
    take an error class the browser accepts.  A field called [__proto__]
    cannot be registered ([fields[name] = config] would set the prototype of
    the registry), and the error store takes no entry of that name:
    statements about registration and about recorded messages leave that
    name out. *)

From Stdlib Require Import Ascii NArith Sorted.
From stdpp Require Import gmap strings list fin_maps pretty.

Local Open Scope string_scope.
Local Open Scope list_scope.
Local Open Scope nat_scope.

(** ** JavaScript values and plain objects *)

Module Js.

(** A string-or-undefined value, as read from [element.validationMessage] or
    returned by a validator ([string | Falsy]): [None] stands for the falsy
    values that are not strings. *)
Abbreviation value := (option string).

(** [if (v)]: a string is truthy when it is not empty. *)
Definition truthy (v : value) : bool :=
  match v with
  | Some s => negb (bool_decide (s = ""))
  | None => false
  end.

(** An ordinary object with string keys: its own properties in creation
    order.  What it inherits from [Object.prototype] is the same for every
    object: see [inherited]. *)
Abbreviation obj V := (list (string * V)).

Fixpoint get {V} (k : string) (o : obj V) : option V :=
  match o with
  | [] => None
  | (k', v) :: o' => if decide (k = k') then Some v else get k o'
  end.

(** [Object.hasOwn(o, k)]. *)
Definition has {V} (k : string) (o : obj V) : bool :=
  bool_decide (is_Some (get k o)).

(** The names every ordinary object inherits from [Object.prototype].  Each
    holds a function there, except [__proto__], an accessor that reads the
    prototype itself: read through an object without an own property of that
    name, all of them are truthy, and [k in o] holds. *)
Definition prototype_names : list string :=
  ["constructor"; "__defineGetter__"; "__defineSetter__"; "hasOwnProperty";
   "__lookupGetter__"; "__lookupSetter__"; "isPrototypeOf";
   "propertyIsEnumerable"; "toString"; "valueOf"; "__proto__";
   "toLocaleString"].

Definition inherited (k : string) : bool :=
  bool_decide (k ∈ prototype_names).

(** The definition of an own property (in an object literal, by
    [Object.fromEntries], by a spread), and [o[k] = v] for every [k] but
    [__proto__]: an existing property keeps its place, a new one is created
    last.  ([o["__proto__"] = v] on an object without such an own property
    calls the accessor of [Object.prototype] and creates nothing.) *)
Fixpoint set {V} (k : string) (v : V) (o : obj V) : obj V :=
  match o with
  | [] => [(k, v)]
  | (k', v') :: o' =>
      if decide (k = k') then (k, v) :: o' else (k', v') :: set k v o'
  end.

(** [delete o[k]]. *)
Definition del {V} (k : string) (o : obj V) : obj V :=
  filter (λ p, p.1 ≠ k) o.

Definition digit (a : ascii) : option N :=
  let n := N_of_ascii a in
  if ((48 <=? n) && (n <=? 57))%N then Some (n - 48)%N else None.

Fixpoint digits (acc : N) (s : string) : option N :=
  match s with
  | EmptyString => Some acc
  | String a s' =>
      match digit a with
      | Some d => digits (10 * acc + d)%N s'
      | None => None
      end
  end.

(** An array index is the canonical decimal form of an integer below
    [2^32 - 1]: digits only, no leading zero except for ["0"] itself. *)
Definition array_index (s : string) : option N :=
  match s with
  | EmptyString => None
  | String "0" (String _ _) => None
  | _ =>
      match digits 0 s with
      | Some n => if (n <? 4294967295)%N then Some n else None
      | None => None
      end
  end.

Fixpoint insert_index (p : N * string) (l : list (N * string)) :
    list (N * string) :=
  match l with
  | [] => [p]
  | q :: l' => if (p.1 <=? q.1)%N then p :: l else q :: insert_index p l'
  end.

Definition sort_index (l : list (N * string)) : list (N * string) :=
  foldr insert_index [] l.

Definition index_keys (ks : list string) : list (N * string) :=
  omap (λ k, (λ n, (n, k)) <$> array_index k) ks.

Definition name_keys (ks : list string) : list string :=
  filter (λ k, array_index k = None) ks.

(** The order in which [for (const k in o)] and [Object.entries(o)] visit the
    own string keys of an ordinary object: array indices in ascending numeric
    order, then the other keys in creation order. *)
Definition own_keys {V} (o : obj V) : list string :=
  (sort_index (index_keys o.*1)).*2 ++ name_keys o.*1.

End Js.

(** ** The part of the DOM the library touches *)

Module Dom.

(** Elements are shared JavaScript objects: the registry, the handlers and the
    document all hold the same one.  They are named by references into the
    document's store. *)
Abbreviation ref := nat.

Record Element := {
  (** [el.name]; [None] when the element has no such property (a [div]). *)
  name : option string;
  (** The content attributes, among them [data-name], [aria-invalid] and
      [novalidate]. *)
  attributes : gmap string string;
  value : string;
  (** Whether the element implements the constraint-validation API
      ([setCustomValidity], [checkValidity], [validationMessage]). *)
  validity_api : bool;
  (** [el.willValidate]: the element is a candidate for constraint
      validation (not disabled, not read-only, ...). *)
  will_validate : bool;
  (** The localized message of the browser for the built-in constraints the
      element violates ([required], [pattern], ...); empty when it satisfies
      them. *)
  native_message : string;
  (** The custom validity error message. *)
  custom_validity : string;
  class_list : list string;
  (** [document.contains(el)]. *)
  mounted : bool;
}.

#[export] Instance element_inhabited : Inhabited Element :=
  populate {| name := None; attributes := ∅; value := "";
              validity_api := false; will_validate := false;
              native_message := ""; custom_validity := "";
              class_list := []; mounted := false |}.

Definition with_custom_validity (text : string) (e : Element) : Element :=
  {| name := name e; attributes := attributes e; value := value e;
     validity_api := validity_api e; will_validate := will_validate e;
     native_message := native_message e; custom_validity := text;
     class_list := class_list e; mounted := mounted e |}.

Definition with_attributes (a : gmap string string) (e : Element) : Element :=
  {| name := name e; attributes := a; value := value e;
     validity_api := validity_api e; will_validate := will_validate e;
     native_message := native_message e; custom_validity := custom_validity e;
     class_list := class_list e; mounted := mounted e |}.

Definition with_class_list (l : list string) (e : Element) : Element :=
  {| name := name e; attributes := attributes e; value := value e;
     validity_api := validity_api e; will_validate := will_validate e;
     native_message := native_message e; custom_validity := custom_validity e;
     class_list := l; mounted := mounted e |}.

Definition with_mounted (b : bool) (e : Element) : Element :=
  {| name := name e; attributes := attributes e; value := value e;
     validity_api := validity_api e; will_validate := will_validate e;
     native_message := native_message e; custom_validity := custom_validity e;
     class_list := class_list e; mounted := b |}.

(** The user edits the control: a new value, and the browser's verdict on
    it. *)
Definition with_value (v msg : string) (e : Element) : Element :=
  {| name := name e; attributes := attributes e; value := v;
     validity_api := validity_api e; will_validate := will_validate e;
     native_message := msg; custom_validity := custom_validity e;
     class_list := class_list e; mounted := mounted e |}.

(** [el.setAttribute(k, v)] and [el.getAttribute(k)]. *)
Definition setAttribute (k v : string) (e : Element) : Element :=
  with_attributes (<[k := v]> (attributes e)) e.

Definition getAttribute (k : string) (e : Element) : option string :=
  attributes e !! k.

(** [el.dataset.name]. *)
Definition dataset_name (e : Element) : option string :=
  getAttribute "data-name" e.

(** [el.validationMessage]: [undefined] without the API; empty when the
    element is barred from constraint validation; otherwise the custom error
    when there is one, the browser's message if not. *)
Definition validationMessage (e : Element) : Js.value :=
  if validity_api e then
    Some (if will_validate e then
            if bool_decide (custom_validity e = "") then native_message e
            else custom_validity e
          else "")
  else None.

(** [el.setCustomValidity?.(text)]: skipped when the method is missing. *)
Definition setCustomValidity (text : string) (e : Element) : Element :=
  if validity_api e then with_custom_validity text e else e.

(** ASCII white space: tab, line feed, form feed, carriage return, space. *)
Definition ascii_whitespace (a : ascii) : bool :=
  bool_decide (N_of_ascii a ∈ [9; 10; 12; 13; 32]%N).

(** The error classes the browser accepts: [classList.toggle(c, force)]
    throws an [InvalidCharacterError] when [c] contains ASCII white space.
    (It also throws on the empty string, which the library never passes:
    [errorClass && ...].) *)
Definition class_token (c : string) : bool :=
  forallb (λ a, negb (ascii_whitespace a)) (String.list_ascii_of_string c).

(** [el.classList.toggle(c, force)], for a [c] that is a [class_token] and
    not empty. *)
Definition classList_toggle (c : string) (force : bool) (e : Element) :
    Element :=
  if force then
    if bool_decide (c ∈ class_list e) then e
    else with_class_list (class_list e ++ [c]) e
  else with_class_list (filter (λ c', c' ≠ c) (class_list e)) e.

(** The property key computed by [el.name ?? el.dataset.name]. *)
Definition key (e : Element) : string :=
  match name e with
  | Some n => n
  | None =>
      match dataset_name e with
      | Some d => d
      | None => "undefined"
      end
  end.

End Dom.

(** ** The [useForm] context of main.ts *)

Module Form.
Import Dom.

(** [Validator<Element> = Falsy | ((el: Element) => ValidatorResponse)]:
    [None] is a falsy entry of the list.  A validator reads the element it is
    given and answers with a message or a falsy value. *)
Definition Validator := option (Element → Js.value).

(** An entry of the registry: [{ element: ref, validators }]. *)
Record FieldConfig := {
  element : ref;
  validators : list Validator;
}.

(** What the awaited submit callback gives back: an object of messages
    ([instanceof Object], with its enumerable properties; one may hold
    [undefined]) or anything else. *)
Inductive CallbackResult :=
  | CbObject (o : Js.obj Js.value)
  | CbOther.

(** Calls that leave the library, in program order. *)
Inductive Event :=
  | EvCheckValidity (r : ref)
  | EvValidator (r : ref) (i : nat)
  | EvFocus (r : ref)
  | EvScrollIntoView (r : ref)
  | EvSetIsSubmitting (b : bool)
  | EvSetIsSubmitted (b : bool)
  | EvCallback.

#[export] Instance event_eq_dec : EqDecision Event.
Proof. solve_decision. Defined.

(** The variables closed over by the functions [useForm] returns, the
    document, and the handlers the library installed on elements. *)
Record State := {
  dom : gmap ref Element;
  (** [const fields = {}]. *)
  fields : Js.obj FieldConfig;
  (** [ref.onblur] and [ref.oninput]: the [name] and [config] they captured. *)
  handlers : gmap ref (string * FieldConfig);
  (** [form.onsubmit] and [form.onreset]: the callback they captured. *)
  form_handlers : gmap ref (ref → CallbackResult);
  (** The store behind [errors]: its own entries. *)
  errors : gmap string string;
  isSubmitting : bool;
  isSubmitted : bool;
  trace : list Event;
}.

Definition set_dom (d : gmap ref Element) (st : State) : State :=
  {| dom := d; fields := fields st; handlers := handlers st;
     form_handlers := form_handlers st; errors := errors st;
     isSubmitting := isSubmitting st; isSubmitted := isSubmitted st;
     trace := trace st |}.

Definition set_fields (f : Js.obj FieldConfig) (st : State) : State :=
  {| dom := dom st; fields := f; handlers := handlers st;
     form_handlers := form_handlers st; errors := errors st;
     isSubmitting := isSubmitting st; isSubmitted := isSubmitted st;
     trace := trace st |}.

Definition set_handlers (h : gmap ref (string * FieldConfig)) (st : State) :
    State :=
  {| dom := dom st; fields := fields st; handlers := h;
     form_handlers := form_handlers st; errors := errors st;
     isSubmitting := isSubmitting st; isSubmitted := isSubmitted st;
     trace := trace st |}.

Definition set_form_handlers (h : gmap ref (ref → CallbackResult))
    (st : State) : State :=
  {| dom := dom st; fields := fields st; handlers := handlers st;
     form_handlers := h; errors := errors st;
     isSubmitting := isSubmitting st; isSubmitted := isSubmitted st;
     trace := trace st |}.

Definition set_errors (e : gmap string string) (st : State) : State :=
  {| dom := dom st; fields := fields st; handlers := handlers st;
     form_handlers := form_handlers st; errors := e;
     isSubmitting := isSubmitting st; isSubmitted := isSubmitted st;
     trace := trace st |}.

Definition set_isSubmitting (b : bool) (st : State) : State :=
  {| dom := dom st; fields := fields st; handlers := handlers st;
     form_handlers := form_handlers st; errors := errors st;
     isSubmitting := b; isSubmitted := isSubmitted st;
     trace := trace st |}.

Definition set_isSubmitted (b : bool) (st : State) : State :=
  {| dom := dom st; fields := fields st; handlers := handlers st;
     form_handlers := form_handlers st; errors := errors st;
     isSubmitting := isSubmitting st; isSubmitted := b;
     trace := trace st |}.

Definition set_trace (t : list Event) (st : State) : State :=
  {| dom := dom st; fields := fields st; handlers := handlers st;
     form_handlers := form_handlers st; errors := errors st;
     isSubmitting := isSubmitting st; isSubmitted := isSubmitted st;
     trace := t |}.

(** *** Statements as state transformers *)

Definition M (A : Type) : Type := State → A * State.

Definition ret {A} (a : A) : M A := λ st, (a, st).

Definition bind {A B} (c : M A) (k : A → M B) : M B :=
  λ st, k (c st).1 (c st).2.

Notation "x <- c ;; k" := (bind c (λ x, k))
  (at level 100, c at next level, right associativity).
Notation "c ;; k" := (bind c (λ _, k))
  (at level 100, right associativity).

Definition gets {A} (f : State → A) : M A := λ st, (f st, st).

Definition modify (f : State → State) : M unit := λ st, (tt, f st).

Definition emit (ev : Event) : M unit :=
  modify (λ st, set_trace (trace st ++ [ev]) st).

(** Reading and updating the element behind a reference. *)
Definition read (r : ref) : M Element := gets (λ st, dom st !!! r).

Definition update (r : ref) (f : Element → Element) : M unit :=
  modify (λ st, set_dom (<[r := f (dom st !!! r)]> (dom st)) st).

Definition when (b : bool) (c : M unit) : M unit := if b then c else ret tt.

(** [setErrors(o)] of a Solid store merges [o] into the store key by key; a
    property set to [undefined] is deleted. *)
Definition setProperty (k : string) (v : Js.value) (e : gmap string string) :
    gmap string string :=
  match v with
  | Some s => <[k := s]> e
  | None => delete k e
  end.

Definition merge_store (o : Js.obj Js.value) (e : gmap string string) :
    gmap string string :=
  foldl (λ e k, setProperty k (default None (Js.get k o)) e) e (Js.own_keys o).

Definition setErrors (o : Js.obj Js.value) : M unit :=
  modify (λ st, set_errors (merge_store o (errors st)) st).

Definition setIsSubmitting (b : bool) : M unit :=
  modify (set_isSubmitting b) ;; emit (EvSetIsSubmitting b).

Definition setIsSubmitted (b : bool) : M unit :=
  modify (set_isSubmitted b) ;; emit (EvSetIsSubmitted b).

(** [errors[k]], used as a condition.  An own entry of the store decides; a
    name without one reads what [Object.prototype] holds under it, which is
    truthy. *)
Definition reads_error (st : State) (k : string) : bool :=
  match errors st !! k with
  | Some s => Js.truthy (Some s)
  | None => Js.inherited k
  end.

Definition has_error (k : string) : M bool := gets (λ st, reads_error st k).

(** [el.checkValidity?.()]: when the method exists the browser evaluates the
    constraints (and fires [invalid] on a failing element); the element itself
    is not changed. *)
Definition checkValidity (r : ref) : M unit :=
  e <- read r ;;
  when (validity_api e) (emit (EvCheckValidity r)).

(** [el.focus()].  The blur this may make the browser deliver to the element
    that had the focus is an event of its own ([Blur] below); its handler only
    resets [isSubmitted]. *)
Definition focus (r : ref) : M unit := emit (EvFocus r).

Definition scrollIntoView (r : ref) : M unit := emit (EvScrollIntoView r).

Section UseForm.

(** [useForm({ errorClass = '' } = {})]. *)
Variable errorClass : string.

(** The loop of [checkValid] over [validators], entered with [message] falsy:
    falsy entries are skipped, each validator is awaited in turn, and the
    first truthy text becomes the message and the custom validity. *)
Fixpoint await_validators (el : ref) (i : nat) (vs : list Validator)
    (message : Js.value) : M Js.value :=
  match vs with
  | [] => ret message
  | None :: vs' => await_validators el (S i) vs' message
  | Some validator :: vs' =>
      e <- read el ;;
      emit (EvValidator el i) ;;
      let text := validator e in
      if Js.truthy text then
        update el (setCustomValidity (default "" text)) ;;
        ret text
      else await_validators el (S i) vs' message
  end.

(** [checkValid(config, setErrors, errorClass)] returns an async function;
    this is that function. *)
Definition checkValid (config : FieldConfig) : M Js.value :=
  let el := element config in
  update el (setCustomValidity "") ;;
  checkValidity el ;;
  e <- read el ;;
  let message := validationMessage e in
  message <- (if Js.truthy message then ret message
              else await_validators el 0 (validators config) message) ;;
  when (Js.truthy message)
    (when (negb (bool_decide (errorClass = "")))
       (update el (classList_toggle errorClass true)) ;;
     update el (setAttribute "aria-invalid" "true") ;;
     e <- read el ;;
     setErrors [(key e, message)]) ;;
  ret message.

(** [validate(ref, accessor)]; the body is queued as a microtask, which runs
    before any later event.  [accessor] is [Some vs] when [accessor()] is the
    array [vs], and [None] when it is anything else. *)
Definition validate (r : ref) (accessor : option (list Validator)) : M unit :=
  e <- read r ;;
  let name := key e in
  let validators := default [] accessor in
  let config := {| element := r; validators := validators |} in
  modify (λ st, set_fields (Js.set name config (fields st)) st) ;;
  modify (λ st, set_handlers (<[r := (name, config)]> (handlers st)) st).

(** [validateRef(...args)(ref)] is [validate(ref, () => args)]. *)
Definition validateRef (args : list Validator) (r : ref) : M unit :=
  validate r (Some args).

(** [ref.onblur]: the handler resets [isSubmitted] and returns the function
    made by [checkValid]; it does not call it. *)
Definition onblur (r : ref) : M (option (M Js.value)) :=
  h <- gets (λ st, handlers st !! r) ;;
  match h with
  | None => ret None
  | Some (_, config) =>
      setIsSubmitted false ;;
      ret (Some (checkValid config))
  end.

(** [ref.oninput]. *)
Definition oninput (r : ref) : M unit :=
  h <- gets (λ st, handlers st !! r) ;;
  match h with
  | None => ret tt
  | Some (name, _) =>
      setIsSubmitted false ;;
      err <- has_error name ;;
      if negb err then ret tt
      else
        setErrors [(name, None)] ;;
        update r (setAttribute "aria-invalid" "false") ;;
        when (negb (bool_decide (errorClass = "")))
          (update r (classList_toggle errorClass false))
  end.

(** [validateField(fieldName)]; [None] when the promise it returns is
    rejected.  [fields[fieldName]] also finds what the registry inherits: for
    a name that is not registered but is [Js.inherited] it is a function (or
    the prototype), which is truthy and has no [element], and validating it
    throws at [element.setCustomValidity] before anything is changed. *)
Definition validateField (fieldName : string) : M (option bool) :=
  f <- gets (λ st, Js.get fieldName (fields st)) ;;
  match f with
  | None => if Js.inherited fieldName then ret None else ret (Some false)
  | Some field =>
      error <- checkValid field ;;
      e <- read (element field) ;;
      when (Js.truthy (validationMessage e) || Js.truthy error)
        (focus (element field) ;; scrollIntoView (element field)) ;;
      err <- has_error fieldName ;;
      ret (Some (negb err))
  end.

(** One turn of the loop of [submit] over the keys of [fields]. *)
Definition submit_field (k : string) (errored : bool) : M bool :=
  f <- gets (λ st, Js.get k (fields st)) ;;
  match f with
  | None => ret errored
  | Some field =>
      error <- checkValid field ;;
      e <- read (element field) ;;
      if negb errored && (Js.truthy (validationMessage e) || Js.truthy error)
      then
        focus (element field) ;;
        scrollIntoView (element field) ;;
        if mounted e then ret true
        else
          modify (λ st, set_fields (Js.del k (fields st)) st) ;;
          ret errored
      else ret errored
  end.

(** [for (const k in fields)]: the keys are those the object has when the
    loop starts, in enumeration order. *)
Fixpoint submit_fields (ks : list string) (errored : bool) : M bool :=
  match ks with
  | [] => ret errored
  | k :: ks' =>
      errored <- submit_field k errored ;;
      submit_fields ks' errored
  end.

(** [for (const name in callbackResult)]; the result is [false] when the
    loop throws.  [name in fields] also holds for a name the registry
    inherits; [fields[name]] is then a function, its [element] is
    [undefined], and [setAttribute] throws. *)
Fixpoint mark_invalid (names : list string) : M bool :=
  match names with
  | [] => ret true
  | name :: names' =>
      f <- gets (λ st, Js.get name (fields st)) ;;
      match f with
      | None => if Js.inherited name then ret false else mark_invalid names'
      | Some field =>
          update (element field) (setAttribute "aria-invalid" "true") ;;
          mark_invalid names'
      end
  end.


(** [clearErrors()]: every entry of the store is mapped to [undefined] and the
    result merged back. *)
Definition clearErrors : M unit :=
  es <- gets (λ st, map_to_list (errors st)) ;;
  setErrors ((λ kv, (kv.1, None)) <$> es).

(** [submit(callback, ref)]; [None] when the promise it returns is rejected,
    which leaves the callback's result out of the store. *)
Definition submit {Payload} (callback : Payload → CallbackResult)
    (payload : Payload) : M (option unit) :=
  ks <- gets (λ st, Js.own_keys (fields st)) ;;
  errored <- submit_fields ks false ;;
  if errored then ret (Some tt)
  else
    setIsSubmitting true ;;
    emit EvCallback ;;
    let callbackResult := callback payload in
    setIsSubmitting false ;;
    match callbackResult with
    | CbObject o =>
        marked <- mark_invalid (Js.own_keys o) ;;
        if marked then (setErrors o ;; ret (Some tt)) else ret None
    | CbOther =>
        clearErrors ;;
        setIsSubmitted true ;;
        ret (Some tt)
    end.

(** [formSubmit(ref, accessor)]: [accessor() || (() => {})] is the callback
    the handlers keep. *)
Definition formSubmit (form : ref) (accessor : option (ref → CallbackResult)) :
    M unit :=
  let callback := default (λ _, CbOther) accessor in
  setIsSubmitted false ;;
  update form (setAttribute "novalidate" "") ;;
  modify (λ st, set_form_handlers (<[form := callback]> (form_handlers st)) st).

(** [form.onsubmit]. *)
Definition onsubmit (form : ref) : M (option unit) :=
  h <- gets (λ st, form_handlers st !! form) ;;
  match h with
  | None => ret (Some tt)
  | Some callback => submit callback form
  end.

(** [form.onreset]. *)
Definition onreset (form : ref) : M unit :=
  h <- gets (λ st, form_handlers st !! form) ;;
  match h with
  | None => ret tt
  | Some _ => clearErrors
  end.

(** *** Histories of a context *)

(** What can happen to a context: calls of the functions [useForm] returned,
    events delivered to the handlers it installed, and changes the page makes
    to elements.  These are the histories the statements about [run] and
    [reachable] speak of: the page does not rename an element, and a submit
    callback returns. *)
Inductive Action :=
  | Validate (r : ref) (accessor : option (list Validator))
  | Blur (r : ref)
  | Input (r : ref)
  | ValidateField (fieldName : string)
  | Submit (callback : unit → CallbackResult)
  | FormSubmit (form : ref) (accessor : option (ref → CallbackResult))
  | SubmitEvent (form : ref)
  | ResetEvent (form : ref)
  | Mount (r : ref)
  | Unmount (r : ref)
  | Edit (r : ref) (v : string) (native : string).

Definition step (a : Action) (st : State) : State :=
  match a with
  | Validate r accessor => (validate r accessor st).2
  | Blur r => (onblur r st).2
  | Input r => (oninput r st).2
  | ValidateField fieldName => (validateField fieldName st).2
  | Submit callback => (submit callback tt st).2
  | FormSubmit form accessor => (formSubmit form accessor st).2
  | SubmitEvent form => (onsubmit form st).2
  | ResetEvent form => (onreset form st).2
  | Mount r => (update r (with_mounted true) st).2
  | Unmount r => (update r (with_mounted false) st).2
  | Edit r v native => (update r (with_value v native) st).2
  end.

Definition run (acts : list Action) (st : State) : State :=
  foldl (λ st a, step a st) st acts.

End UseForm.

(** The context right after [useForm()], in a page whose elements are [d]. *)
Definition init (d : gmap ref Element) : State :=
  {| dom := d; fields := []; handlers := ∅; form_handlers := ∅;
     errors := ∅; isSubmitting := false; isSubmitted := false;
     trace := [] |}.

Definition reachable (errorClass : string) (d : gmap ref Element)
    (st : State) : Prop :=
  ∃ acts, st = run errorClass acts (init d).

End Form.

(** ** [checkValid] in the first main.ts *)

Module Legacy.
Import Dom Form.

Section UseForm.
Variable errorClass : string.

(** [type Validator = (el: HTMLInputElement) => ValidatorResponse]: every
    entry is a function. *)
Fixpoint await_validators (el : ref) (i : nat)
    (vs : list (Element → Js.value)) : M unit :=
  match vs with
  | [] => ret tt
  | validator :: vs' =>
      e <- read el ;;
      emit (EvValidator el i) ;;
      let text := validator e in
      if Js.truthy text then update el (setCustomValidity (default "" text))
      else await_validators el (S i) vs'
  end.

(** The async function returned by [checkValid({ element, validators },
    setErrors, errorClass)]: the message is read back from
    [element.validationMessage] after the loop, and recorded under
    [element.name].  The element is an [HTMLInputElement]. *)
Definition checkValid (element : ref) (validators : list (Element → Js.value)) :
    M unit :=
  update element (setCustomValidity "") ;;
  checkValidity element ;;
  e <- read element ;;
  let message := validationMessage e in
  message <- (if Js.truthy message then ret message
              else
                await_validators element 0 validators ;;
                e <- read element ;;
                ret (validationMessage e)) ;;
  when (Js.truthy message)
    (when (negb (bool_decide (errorClass = "")))
       (update element (classList_toggle errorClass true)) ;;
     update element (setAttribute "aria-invalid" "true") ;;
     e <- read element ;;
     setErrors [(default "undefined" (name e), message)]).

End UseForm.

End Legacy.

(** ** The helpers of pocketbase.ts *)

Module Pocketbase.

(** A [FormData] entry value is a string or a file. *)
Inductive FormDataEntryValue :=
  | FString (s : string)
  | FFile (filename : string).

#[export] Instance entry_value_eq_dec : EqDecision FormDataEntryValue.
Proof. solve_decision. Defined.

(** The entry list of a [FormData] object. *)
Abbreviation FormData := (list (string * FormDataEntryValue)).

(** [formData.has(name)]. *)
Definition has (name : string) (fd : FormData) : bool :=
  bool_decide (name ∈ fd.*1).

(** [formData.getAll(name)]. *)
Definition getAll (name : string) (fd : FormData) : list FormDataEntryValue :=
  (filter (λ p, p.1 = name) fd).*2.

(** [formData.set(name, value)]: the first entry called [name] is replaced
    and the others removed; without one the entry is appended. *)
Fixpoint set (name : string) (v : FormDataEntryValue) (fd : FormData) :
    FormData :=
  match fd with
  | [] => [(name, v)]
  | (n, v') :: fd' =>
      if decide (n = name) then (name, v) :: filter (λ p, p.1 ≠ name) fd'
      else (n, v') :: set name v fd'
  end.

(** The descendants of a form that matter to the selector: tag name and
    [type] attribute (both in lower case, as the selector compares them) and
    [name]. *)
Record Control := {
  tag : string;
  type : string;
  control_name : string;
}.

(** A form, as the list of its descendant elements in tree order. *)
Abbreviation HTMLFormElement := (list Control).

(** [form.querySelectorAll('input[type="checkbox"]')]. *)
Definition querySelectorAll_checkbox (form : HTMLFormElement) : list Control :=
  filter (λ c, tag c = "input" ∧ type c = "checkbox") form.

(** [FormData] objects are passed by reference: [formData] names an object of
    the store, which the function updates in place and hands back. *)
Definition prepareFormDataForPocketbase (formData : nat)
    (form : HTMLFormElement) (heap : gmap nat FormData) :
    nat * gmap nat FormData :=
  (formData,
   foldl (λ h input,
            if negb (has (control_name input) (h !!! formData)) then
              <[formData := set (control_name input) (FString "false")
                                (h !!! formData)]> h
            else h)
         heap (querySelectorAll_checkbox form)).

(** The values an error thrown by a client can carry. *)
#[warnings="-register-all"]
Inductive JVal :=
  | JUndefined
  | JNull
  | JBool (b : bool)
  | JNum (n : Z)
  | JStr (s : string)
  | JObj (o : Js.obj JVal).

(** [e: Error]: its [message], and what [e.data] reads. *)
Record Error := {
  message : string;
  data : JVal;
}.

Definition truthy (v : JVal) : bool :=
  match v with
  | JUndefined | JNull => false
  | JBool b => b
  | JNum n => negb (bool_decide (n = 0%Z))
  | JStr s => negb (bool_decide (s = ""))
  | JObj _ => true
  end.

(** [typeof v === 'object']. *)
Definition typeof_object (v : JVal) : bool :=
  match v with
  | JNull | JObj _ => true
  | _ => false
  end.

(** [v.k] for the properties read here ([data], [message]), which primitive
    values do not have; [None] is the [TypeError] of reading a property of
    [null] or [undefined]. *)
Definition prop (k : string) (v : JVal) : option JVal :=
  match v with
  | JUndefined | JNull => None
  | JObj o => Some (default JUndefined (Js.get k o))
  | _ => Some JUndefined
  end.

(** [v?.k]. *)
Definition opt_prop (k : string) (v : JVal) : JVal :=
  default JUndefined (prop k v).

(** [isPocketbaseFieldError(e)]; the result is used as a condition. *)
Definition isPocketbaseFieldError (e : Error) : bool :=
  truthy (opt_prop "data" (data e)) && typeof_object (opt_prop "data" (data e)).

(** [Object.entries(v)]. *)
Definition entries (v : JVal) : list (string * JVal) :=
  match v with
  | JObj o => (λ k, (k, default JUndefined (Js.get k o))) <$> Js.own_keys o
  | _ => []
  end.

(** [.map(([key, value]) => [key, value.message])]. *)
Fixpoint map_messages (es : list (string * JVal)) :
    option (list (string * JVal)) :=
  match es with
  | [] => Some []
  | (k, v) :: es' =>
      m ← prop "message" v;
      ms ← map_messages es';
      Some ((k, m) :: ms)
  end.

(** [Object.fromEntries(es)], which defines the properties. *)
Definition fromEntries (es : list (string * JVal)) : Js.obj JVal :=
  foldl (λ o kv, Js.set kv.1 kv.2 o) [] es.

(** [Object.assign(target, source)], which assigns them: [target[k] =
    source[k]].  For [k = "__proto__"] and a target without such an own
    property that calls the accessor of [Object.prototype]: no property is
    created.  (The accessor makes an object it is given the prototype of the
    target; the model keeps own properties only.) *)
Definition assign (target source : Js.obj JVal) : Js.obj JVal :=
  foldl (λ o k, if bool_decide (k = "__proto__") && negb (Js.has k o) then o
                else Js.set k (default JUndefined (Js.get k source)) o)
        target (Js.own_keys source).

(** [parsePocketbaseError(e, rootErrorKey = 'form')]; [None] when evaluation
    throws. *)
Definition parsePocketbaseError (e : Error) (rootErrorKey : option string) :
    option (Js.obj JVal) :=
  let rootErrorKey := default "form" rootErrorKey in
  let result := [(rootErrorKey, JStr (message e))] in
  if isPocketbaseFieldError e then
    dd ← prop "data" (data e);
    ms ← map_messages (entries dd);
    Some (assign result (fromEntries ms))
  else Some result.

End Pocketbase.


(** ** Vocabulary of the statements *)

Module Summary.
Import Dom Form.

(** The calls recorded between two states of one run. *)
Definition new_events (st st' : State) : list Event :=
  drop (length (trace st)) (trace st').

(** The validators called, as (element, position in its list). *)
Definition validator_calls (t : list Event) : list (nat * nat) :=
  omap (λ ev, match ev with EvValidator r i => Some (r, i) | _ => None end) t.

Definition callback_calls (t : list Event) : nat :=
  length (filter (λ ev, ev = EvCallback) t).

(** Events a validation may record: it never calls the submit callback nor a
    signal setter. *)
Definition validation_event (ev : Event) : bool :=
  match ev with
  | EvCheckValidity _ | EvValidator _ _ | EvFocus _ | EvScrollIntoView _ => true
  | _ => false
  end.

(** The loop of [checkValid] on an element that stays [e] while it runs: the
    positions awaited, and the truthy text that stopped it. *)
Fixpoint awaited (e : Element) (i : nat) (vs : list Validator) :
    list nat * Js.value :=
  match vs with
  | [] => ([], None)
  | None :: vs' => awaited e (S i) vs'
  | Some validator :: vs' =>
      if Js.truthy (validator e) then ([i], validator e)
      else (i :: (awaited e (S i) vs').1, (awaited e (S i) vs').2)
  end.

(** An element once a failure has been shown on it. *)
Definition flagged (errorClass : string) (e : Element) : Element :=
  setAttribute "aria-invalid" "true"
    (if bool_decide (errorClass = "") then e
     else classList_toggle errorClass true e).

(** What one run of [checkValid] does to the element it validates, as a
    function of that element alone: the message returned, the element
    afterwards and the calls recorded. *)
Definition checked (errorClass : string) (config : FieldConfig) (e : Element) :
    Js.value * Element * list Event :=
  let el := element config in
  let e0 := setCustomValidity "" e in
  let native := validationMessage e0 in
  let loop := if Js.truthy native then ([], None)
              else awaited e0 0 (validators config) in
  let message := if Js.truthy loop.2 then loop.2 else native in
  let e1 := if Js.truthy loop.2 then setCustomValidity (default "" loop.2) e0
            else e0 in
  let e2 := if Js.truthy message then flagged errorClass e1 else e1 in
  (message, e2,
   (if validity_api e0 then [EvCheckValidity el] else [])
   ++ (EvValidator el <$> loop.1)).

(** Well-formed contexts: the registry has one entry per key, filed under the
    key of its element. *)
Definition wf (st : State) : Prop :=
  NoDup (fields st).*1 ∧
  ∀ k config, Js.get k (fields st) = Some config →
    key (dom st !!! element config) = k.

(** The actions that run a submit pass. *)
Definition is_submit (a : Action) : Prop :=
  match a with
  | Submit _ | SubmitEvent _ => True
  | _ => False
  end.

(** A registered field seen from a state: what validating it would yield,
    whether it fails, whether its element is in the document, and which
    validators it would call. *)
Definition outcome (errorClass : string) (st : State) (k : string) :
    option (Js.value * Element * list Event) :=
  (λ config, checked errorClass config (dom st !!! element config))
    <$> Js.get k (fields st).

Definition fails (errorClass : string) (st : State) (k : string) : bool :=
  match outcome errorClass st k with
  | Some r => Js.truthy r.1.1
  | None => false
  end.

Definition is_mounted (st : State) (k : string) : bool :=
  match Js.get k (fields st) with
  | Some config => mounted (dom st !!! element config)
  | None => false
  end.

Definition calls (errorClass : string) (st : State) (k : string) :
    list (nat * nat) :=
  match outcome errorClass st k with
  | Some r => validator_calls r.2
  | None => []
  end.

(** The entry of the error store for field [k] once it has been validated
    from state [st]. *)
Definition expected_error (errorClass : string) (st : State) (k : string) :
    option string :=
  match outcome errorClass st k with
  | Some r => if Js.truthy r.1.1 then r.1.1 else errors st !! k
  | None => errors st !! k
  end.

(** The loop of [submit], about to visit the keys [ks]: each is filed under
    the key of its element. *)
Definition loop_pre (ks : list string) (s : State) : Prop :=
  NoDup ks ∧
  ∀ k config, k ∈ ks → Js.get k (fields s) = Some config →
    key (dom s !!! element config) = k.

(** The invariant of that loop: [s0] is the state it started from with the
    keys [ks0] and the flag [b0]; [ks] are the keys left, [b] is [errored] and
    [s] the current state. *)
Record loop_inv (errorClass : string) (s0 : State) (ks0 : list string)
    (b0 : bool) (ks : list string) (b : bool) (s : State) : Prop := {
  inv_sub : ∀ k, k ∈ ks → k ∈ ks0;
  inv_stable : ∀ k, k ∈ ks →
    outcome errorClass s k = outcome errorClass s0 k ∧
    is_mounted s k = is_mounted s0 k;
  inv_errored :
    b || existsb (λ k, fails errorClass s0 k && is_mounted s0 k) ks =
    b0 || existsb (λ k, fails errorClass s0 k && is_mounted s0 k) ks0;
  inv_trace : ∃ evs,
    trace s = trace s0 ++ evs ∧
    Forall (λ ev, validation_event ev = true) evs ∧
    validator_calls evs ++ concat (calls errorClass s0 <$> ks) =
      concat (calls errorClass s0 <$> ks0);
  inv_flags :
    isSubmitting s = isSubmitting s0 ∧ isSubmitted s = isSubmitted s0 ∧
    handlers s = handlers s0 ∧ form_handlers s = form_handlers s0;
  inv_key : ∀ r, key (dom s !!! r) = key (dom s0 !!! r);
  inv_fields : ∀ k,
    Js.get k (fields s) = Js.get k (fields s0) ∨
    (Js.get k (fields s) = None ∧ k ∈ ks0 ∧ (k ∉ ks) ∧
     fails errorClass s0 k = true ∧ is_mounted s0 k = false);
  inv_nodup : NoDup (fields s0).*1 → NoDup (fields s).*1;
  inv_errors_todo : ∀ k, k ∈ ks ∨ k ∉ ks0 → errors s !! k = errors s0 !! k;
  inv_errors_done : ∀ k, k ∈ ks0 → k ∉ ks →
    errors s !! k = expected_error errorClass s0 k;
}.

End Summary.

(** ** Concrete pages *)

Module Scenes.
Import Dom Form.

(** [<input name=n value=v>] in the document; [msg] is what the browser has
    to say about its built-in constraints. *)
Definition input (n v msg : string) : Element :=
  {| name := Some n; attributes := ∅; value := v; validity_api := true;
     will_validate := true; native_message := msg; custom_validity := "";
     class_list := []; mounted := true |}.

(** [<div data-name=n>] in the document. *)
Definition div (n : string) : Element :=
  {| name := None; attributes := {["data-name" := n]}; value := "";
     validity_api := false; will_validate := false; native_message := "";
     custom_validity := ""; class_list := []; mounted := true |}.

(** The registry entry of an input, element 0, registered without
    validators. *)
Definition username_config : FieldConfig :=
  {| element := 0; validators := [] |}.

(** The validator of the README. *)
Definition min5Characters : Validator :=
  Some (λ el, if String.length (value el) <? 5
              then Some "must be at least 5 characters long" else None).

Definition alwaysBad : Validator := Some (λ _, Some "bad").

Definition required_message : string := "Please fill out this field.".

(** A form with a required, empty [username] and a [message] checked by
    [min5Characters], both registered. *)
Definition signup_page : gmap nat Element :=
  <[0 := input "username" "" required_message]>
    (<[1 := input "message" "hey" ""]> ∅).

Definition signup : State :=
  run "invalid" [Validate 0 None; Validate 1 (Some [None; min5Characters])]
    (init signup_page).



(** A [div] registered with a validator that rejects it. *)
Definition custom_page : gmap nat Element := <[0 := div "customField"]> ∅.

Definition custom : State :=
  run "" [Validate 0 (Some [alwaysBad])] (init custom_page).

(** A valid input that is registered, then leaves the document. *)
Definition departed_page : gmap nat Element := <[0 := input "username" "ada" ""]> ∅.

Definition departed_history : list Action :=
  [Validate 0 None; Unmount 0; Submit (λ _, CbOther)].

Definition departed : State := run "" departed_history (init departed_page).

(** A required, empty input that is registered and then leaves the
    document. *)
Definition gone_page : gmap nat Element :=
  <[0 := input "username" "" required_message]> ∅.

Definition gone : State := run "" [Validate 0 None; Unmount 0] (init gone_page).

(** A registered input whose value satisfies everything. *)
Definition ready : State := run "" [Validate 0 None] (init departed_page).

(** The [signup] form after its [username] was validated by name. *)
Definition signup_checked : State :=
  (validateField "invalid" "username" signup).2.

(** A form with two checkboxes and a text input; only the first checkbox is
    ticked. *)
Definition settings_form : list Pocketbase.Control :=
  [ {| Pocketbase.tag := "input"; Pocketbase.type := "checkbox";
       Pocketbase.control_name := "newsletter" |};
    {| Pocketbase.tag := "input"; Pocketbase.type := "text";
       Pocketbase.control_name := "email" |};
    {| Pocketbase.tag := "input"; Pocketbase.type := "checkbox";
       Pocketbase.control_name := "terms" |} ].

Definition settings_data : gmap nat (list (string * Pocketbase.FormDataEntryValue)) :=
  <[7 := [("newsletter", Pocketbase.FString "on");
          ("email", Pocketbase.FString "ada@example.org")]]> ∅.

(** A PocketBase error about a collection that has a field called [form]. *)
Definition form_field_error : Pocketbase.Error :=
  {| Pocketbase.message := "Failed to create record.";
     Pocketbase.data :=
       Pocketbase.JObj
         [("code", Pocketbase.JNum 400);
          ("data", Pocketbase.JObj
             [("form", Pocketbase.JObj
                 [("code", Pocketbase.JStr "validation_required");
                  ("message", Pocketbase.JStr "Cannot be blank.")])])] |}.

(** The usual shape: errors about [email] and [password]. *)
Definition field_errors : Pocketbase.Error :=
  {| Pocketbase.message := "Something went wrong";
     Pocketbase.data :=
       Pocketbase.JObj
         [("data", Pocketbase.JObj
             [("email", Pocketbase.JObj
                 [("message", Pocketbase.JStr "Invalid email")]);
              ("password", Pocketbase.JObj
                 [("message", Pocketbase.JStr "Too short")])])] |}.

End Scenes.

(** ** What a pass shows to the user *)

Module Observations.
Import Dom Form Summary.

(** The elements [focus()] and [scrollIntoView()] were called on, in order. *)
Definition focus_calls (t : list Event) : list ref :=
  omap (λ ev, match ev with EvFocus r => Some r | _ => None end) t.

Definition scroll_calls (t : list Event) : list ref :=
  omap (λ ev, match ev with EvScrollIntoView r => Some r | _ => None end) t.


(** What the handlers of an element closed over: the key of that element, and
    a registry entry for it. *)
Definition captured (st : State) : Prop :=
  ∀ r name config, handlers st !! r = Some (name, config) →
    name = key (dom st !!! r) ∧ element config = r.

(** The actions by which the page, not the library, changes an element. *)
Definition is_page_change (a : Action) : Prop :=
  match a with
  | Mount _ | Unmount _ | Edit _ _ _ => True
  | _ => False
  end.

End Observations.

(** ** [parsePocketbaseError] in the first pocketbase.ts *)

Module LegacyPocketbase.
Import Pocketbase.

(** [Object.entries(v)] for any value; [None] is the [TypeError] for
    [undefined] and [null].  A string enumerates its code units under their
    indices (a string of the model stands for the JavaScript string with the
    same code units); numbers and booleans have no own properties. *)
Definition entries (v : JVal) : option (list (string * JVal)) :=
  match v with
  | JUndefined | JNull => None
  | JBool _ | JNum _ => Some []
  | JStr s =>
      Some (imap (λ i a, (pretty i, JStr (String a EmptyString)))
                 (String.list_ascii_of_string s))
  | JObj _ => Some (Pocketbase.entries v)
  end.

(** [{ ...source }]: the own properties of [source], copied in enumeration
    order into a new object. *)
Definition spread (source : Js.obj JVal) : Js.obj JVal :=
  fromEntries (Pocketbase.entries (JObj source)).

(** [parsePocketbaseError(e)]: the field messages, then [form: e.message].
    There is no guard: [e.data.data] is read and enumerated as it is, and
    [None] is returned when that throws. *)
Definition parsePocketbaseError (e : Error) : option (Js.obj JVal) :=
  dd ← prop "data" (data e);
  es ← entries dd;
  ms ← map_messages es;
  Some (Js.set "form" (JStr (message e)) (spread (fromEntries ms))).

(** [interface PocketbaseError extends Error { message: string; data: { data:
    Record<string, { message: string }> } }]: the errors the functions are
    written for. *)
Record FieldError := {
  field_message : string;
}.

Record PocketbaseError := {
  error_message : string;
  data_data : Js.obj FieldError;
}.

(** A well-typed error, as a value. *)
Definition to_error (e : PocketbaseError) : Error :=
  {| message := error_message e;
     data :=
       JObj [("data",
              JObj ((λ kv, (kv.1, JObj [("message",
                                         JStr (field_message kv.2))]))
                      <$> data_data e))] |}.

End LegacyPocketbase.

(** ** More pages *)

Module Cases.
Import Dom Form Scenes.

(** The server rejected a user name that passes every check of the page. *)
Definition rejected : State :=
  (submit "" (λ _ : unit, CbObject [("username", Some "taken")]) tt ready).2.

(** The README page with its [form] element, which has no name. *)
Definition form_element : Element :=
  {| name := None; attributes := ∅; value := ""; validity_api := false;
     will_validate := false; native_message := ""; custom_validity := "";
     class_list := []; mounted := true |}.

Definition form_page : gmap nat Element := <[2 := form_element]> signup_page.

(** Both fields and the form are registered; then [username] was validated by
    name and failed. *)
Definition signup_form_history : list Action :=
  [Validate 0 None; Validate 1 (Some [None; min5Characters]);
   FormSubmit 2 None; ValidateField "username"].

Definition signup_form : State :=
  run "invalid" signup_form_history (init form_page).

(** A disabled input, which the browser bars from constraint validation,
    with a validator that rejects it. *)
Definition disabled_input : Element :=
  {| name := Some "code"; attributes := ∅; value := ""; validity_api := true;
     will_validate := false; native_message := ""; custom_validity := "";
     class_list := []; mounted := true |}.

Definition disabled_page : gmap nat Element := <[0 := disabled_input]> ∅.

Definition rejects_all (e : Element) : Js.value := Some "bad".

(** The fields of the README form, as registrations. *)
Definition signup_fields : list (nat * option (list Validator)) :=
  [(0, None); (1, Some [None; min5Characters])].

(** An error with a field whose record is [null]. *)
Definition null_field_error : Pocketbase.Error :=
  {| Pocketbase.message := "Something went wrong";
     Pocketbase.data :=
       Pocketbase.JObj
         [("data", Pocketbase.JObj [("email", Pocketbase.JNull)])] |}.

(** A well-typed error whose field list has a field called [form]. *)
Definition typed_form_error : LegacyPocketbase.PocketbaseError :=
  {| LegacyPocketbase.error_message := "Failed to create record.";
     LegacyPocketbase.data_data :=
       [("form", {| LegacyPocketbase.field_message := "Cannot be blank." |});
        ("email", {| LegacyPocketbase.field_message := "Invalid email" |})] |}.

(** What a failed [fetch] throws: an error without [data]. *)
Definition network_error : Pocketbase.Error :=
  {| Pocketbase.message := "Failed to fetch";
     Pocketbase.data := Pocketbase.JUndefined |}.

End Cases.

(** * Properties *)

(** ** Plain objects *)

Module JsFacts.
Import Js.

Section Objects.
Context {V : Type}.
Implicit Types (o : obj V) (k : string) (v : V).

Lemma get_None o k : get k o = None ↔ k ∉ o.*1.
Proof.
  induction o as [|[k' v'] o IH]; simpl.
  - split; [intros _; apply not_elem_of_nil | done].
  - case_decide as Hk.
    + subst k'. split; [done | intros Hn; destruct Hn; left].
    + rewrite IH, not_elem_of_cons. intuition congruence.
Qed.

Lemma get_is_Some o k : is_Some (get k o) ↔ k ∈ o.*1.
Proof.
  rewrite <-not_eq_None_Some, get_None.
  destruct (decide (k ∈ o.*1)); naive_solver.
Qed.

Lemma has_true o k : has k o = true ↔ k ∈ o.*1.
Proof. unfold has. rewrite bool_decide_eq_true. apply get_is_Some. Qed.

Lemma get_set_eq o k v : get k (set k v o) = Some v.
Proof.
  induction o as [|[k' v'] o IH]; simpl.
  - by rewrite decide_True.
  - case_decide; simpl; [by rewrite decide_True | by rewrite decide_False].
Qed.

Lemma get_set_ne o k k' v : k ≠ k' → get k' (set k v o) = get k' o.
Proof.
  intros Hne. induction o as [|[k'' v''] o IH]; simpl.
  - by rewrite decide_False.
  - case_decide; subst; simpl.
    + by rewrite !decide_False.
    + case_decide; [done | apply IH].
Qed.

Lemma get_set o k k' v :
  get k' (set k v o) = if decide (k = k') then Some v else get k' o.
Proof.
  case_decide; subst; [apply get_set_eq | by apply get_set_ne].
Qed.

Lemma keys_set o k v :
  (set k v o).*1 = if decide (k ∈ o.*1) then o.*1 else o.*1 ++ [k].
Proof.
  induction o as [|[k' v'] o IH].
  - destruct (decide (k ∈ ([] : obj V).*1)) as [Hin|Hin]; [|done].
    by apply elem_of_nil in Hin.
  - cbn [set]. destruct (decide (k = k')) as [->|Hk].
    + rewrite decide_True by (simpl; left). done.
    + rewrite fmap_cons, IH. cbn [fst fmap list_fmap].
      destruct (decide (k ∈ o.*1)) as [Hin|Hin].
      * rewrite decide_True by (by right). done.
      * rewrite decide_False; [done |].
        rewrite not_elem_of_cons. done.
Qed.

Lemma keys_del o k : (del k o).*1 = filter (λ k', k' ≠ k) o.*1.
Proof.
  unfold del. induction o as [|[k' v'] o IH]; [done |].
  rewrite fmap_cons, !filter_cons. cbn [fst].
  destruct (decide (k' ≠ k)); [| done].
  rewrite fmap_cons. cbn [fst]. by rewrite IH.
Qed.

Lemma get_del_eq o k : get k (del k o) = None.
Proof.
  apply get_None. rewrite keys_del, list_elem_of_filter. intros [Hk _]. done.
Qed.

Lemma get_del_ne o k k' : k ≠ k' → get k' (del k o) = get k' o.
Proof.
  intros Hne. unfold del. induction o as [|[k'' v''] o IH]; [done |].
  rewrite filter_cons. simpl. destruct (decide (k'' ≠ k)) as [Hk|Hk]; simpl.
  - by rewrite IH.
  - apply dec_stable in Hk. subst. by rewrite decide_False.
Qed.

Lemma NoDup_keys_set o k v : NoDup o.*1 → NoDup (set k v o).*1.
Proof.
  intros Hnd. rewrite keys_set. case_decide as Hk; [done |].
  apply NoDup_app. split; [done |]. split; [| apply NoDup_singleton].
  intros x Hx Hx'. apply list_elem_of_singleton in Hx'. by subst x.
Qed.

Lemma NoDup_keys_del o k : NoDup o.*1 → NoDup (del k o).*1.
Proof. intros Hnd. rewrite keys_del. by apply NoDup_filter. Qed.

End Objects.

(** *** Enumeration order *)

Lemma insert_index_perm p l : insert_index p l ≡ₚ p :: l.
Proof.
  induction l as [|q l IH]; simpl; [done |].
  case_match; [done |]. rewrite IH. apply Permutation_swap.
Qed.

Lemma sort_index_perm l : sort_index l ≡ₚ l.
Proof.
  induction l as [|p l IH]; simpl; [done |].
  by rewrite insert_index_perm, IH.
Qed.




Lemma index_keys_snd ks :
  (index_keys ks).*2 = filter (λ k, ¬ array_index k = None) ks.
Proof.
  unfold index_keys. induction ks as [|k ks IH]; [done |].
  rewrite filter_cons. cbn [omap list_omap].
  destruct (array_index k) eqn:Hk.
  - rewrite decide_True by done. simpl. f_equal. exact IH.
  - rewrite decide_False by (intros Hn; by apply Hn). exact IH.
Qed.

Lemma own_keys_perm {V} (o : obj V) : own_keys o ≡ₚ o.*1.
Proof.
  unfold own_keys, name_keys. rewrite sort_index_perm, index_keys_snd.
  rewrite (comm (++)). apply filter_app_complement.
Qed.

Lemma elem_of_own_keys {V} (o : obj V) k : k ∈ own_keys o ↔ k ∈ o.*1.
Proof. by rewrite own_keys_perm. Qed.

Lemma NoDup_own_keys {V} (o : obj V) : NoDup o.*1 → NoDup (own_keys o).
Proof. by rewrite own_keys_perm. Qed.

(** Without array-index names the enumeration order is the creation
    order. *)
Lemma index_keys_names ks :
  (∀ k, k ∈ ks → array_index k = None) → index_keys ks = [].
Proof.
  unfold index_keys. induction ks as [|k ks IH]; intros Hn; [done |].
  cbn [omap list_omap]. rewrite (Hn k) by left.
  apply IH. intros k' Hk'. apply Hn. by right.
Qed.

Lemma name_keys_names ks :
  (∀ k, k ∈ ks → array_index k = None) → name_keys ks = ks.
Proof.
  unfold name_keys. induction ks as [|k ks IH]; intros Hn; [done |].
  rewrite filter_cons, decide_True by (apply Hn; left).
  f_equal. apply IH. intros k' Hk'. apply Hn. by right.
Qed.

(** Without array-index names the enumeration order is the creation
    order. *)
Lemma own_keys_names {V} (o : obj V) :
  (∀ k, k ∈ o.*1 → array_index k = None) → own_keys o = o.*1.
Proof.
  intros Hn. unfold own_keys.
  by rewrite index_keys_names, name_keys_names.
Qed.

End JsFacts.

(** ** The [useForm] context *)

Module FormFacts.
Import Dom Form Summary.

(** *** Elements *)

Lemma key_setCustomValidity text e : key (setCustomValidity text e) = key e.
Proof. unfold setCustomValidity. by destruct (validity_api e). Qed.

Lemma key_classList_toggle c b e : key (classList_toggle c b e) = key e.
Proof. unfold classList_toggle. destruct b; [case_bool_decide |]; done. Qed.

Lemma key_setAttribute k v e :
  k ≠ "data-name" → key (setAttribute k v e) = key e.
Proof.
  intros Hk. unfold key, dataset_name, getAttribute, setAttribute. simpl.
  by rewrite lookup_insert_ne.
Qed.

Lemma mounted_setCustomValidity text e :
  mounted (setCustomValidity text e) = mounted e.
Proof. unfold setCustomValidity. by destruct (validity_api e). Qed.

Lemma validity_api_setCustomValidity text e :
  validity_api (setCustomValidity text e) = validity_api e.
Proof. unfold setCustomValidity. by destruct (validity_api e) eqn:He. Qed.

(** *** States *)

Lemma set_trace_id st : set_trace (trace st) st = st.
Proof. by destruct st. Qed.

Lemma new_events_app st st' evs :
  trace st' = trace st ++ evs → new_events st st' = evs.
Proof. unfold new_events. intros ->. by rewrite drop_app_length. Qed.

Lemma validator_calls_app t1 t2 :
  validator_calls (t1 ++ t2) = validator_calls t1 ++ validator_calls t2.
Proof. apply omap_app. Qed.


(** *** Stepping through statements *)

Lemma bind_eq {A B} (c : M A) (k : A → M B) st a st' :
  c st = (a, st') → bind c k st = k a st'.
Proof. unfold bind. by intros ->. Qed.

Lemma update_eq r f st :
  update r f st = (tt, set_dom (<[r := f (dom st !!! r)]> (dom st)) st).
Proof. done. Qed.

Lemma read_eq r st : read r st = (dom st !!! r, st).
Proof. done. Qed.

Lemma emit_eq ev st : emit ev st = (tt, set_trace (trace st ++ [ev]) st).
Proof. done. Qed.

Lemma checkValidity_eq r st :
  checkValidity r st =
    (tt, set_trace (trace st ++ if validity_api (dom st !!! r)
                                then [EvCheckValidity r] else []) st).
Proof.
  unfold checkValidity, bind, read, gets, when. simpl.
  destruct (validity_api (dom st !!! r)); [done |].
  by rewrite app_nil_r, set_trace_id.
Qed.

Lemma setErrors_eq o st :
  setErrors o st = (tt, set_errors (merge_store o (errors st)) st).
Proof. done. Qed.

Lemma ret_eq {A} (a : A) st : ret a st = (a, st).
Proof. done. Qed.

Ltac mstep :=
  erewrite bind_eq by
    first [ apply update_eq | apply read_eq | apply emit_eq
          | apply checkValidity_eq | apply setErrors_eq | apply ret_eq ].

(** Unfolds a straight-line block down to the state it builds. *)
Ltac mrun :=
  cbv [bind update read gets modify emit setErrors ret when negb];
  cbn [fst snd dom fields handlers form_handlers errors isSubmitting
       isSubmitted trace set_dom set_fields set_handlers set_form_handlers
       set_errors set_isSubmitting set_isSubmitted set_trace];
  rewrite ?lookup_total_insert_eq, ?insert_insert_eq.

Lemma gets_eq {A} (f : State → A) st : gets f st = (f st, st).
Proof. done. Qed.

Section Facts.
Variable errorClass : string.

(** *** The loop over the validators *)

Lemma awaited_found e i vs :
  (awaited e i vs).2 = None ∨ Js.truthy (awaited e i vs).2 = true.
Proof.
  revert i. induction vs as [|[v|] vs IH]; intros i; simpl; [by left | | done].
  destruct (Js.truthy (v e)) eqn:Hv; simpl; [by right | done].
Qed.

Lemma await_validators_spec el i vs message st :
  await_validators el i vs message st =
    let e := dom st !!! el in
    let loop := awaited e i vs in
    (if Js.truthy loop.2 then loop.2 else message,
     set_trace (trace st ++ (EvValidator el <$> loop.1))
       (if Js.truthy loop.2 then
          set_dom (<[el := setCustomValidity (default "" loop.2) e]> (dom st)) st
        else st)).
Proof.
  revert i st. induction vs as [|[v|] vs IH]; intros i st; simpl.
  - by rewrite app_nil_r, set_trace_id.
  - unfold bind, read, gets, emit, modify, update, ret. simpl.
    destruct (Js.truthy (v (dom st !!! el))) eqn:Hv; simpl.
    + by rewrite Hv.
    + rewrite IH. simpl.
      destruct (Js.truthy (awaited (dom st !!! el) (S i) vs).2);
        by rewrite <-app_assoc.
  - apply IH.
Qed.

(** *** [checkValid], summarised *)

Lemma own_keys_singleton {V} k (v : V) : Js.own_keys [(k, v)] = [k].
Proof.
  unfold Js.own_keys, Js.index_keys, Js.name_keys.
  cbn [fmap list_fmap fst omap list_omap].
  rewrite filter_cons, filter_nil.
  destruct (Js.array_index k) eqn:Hk.
  - by rewrite decide_False.
  - by rewrite decide_True.
Qed.

Lemma merge_store_singleton k v e :
  merge_store [(k, v)] e = setProperty k v e.
Proof.
  unfold merge_store. rewrite own_keys_singleton. simpl.
  by rewrite decide_True.
Qed.

Lemma checkValid_spec config st :
  checkValid errorClass config st =
    let r := checked errorClass config (dom st !!! element config) in
    (r.1.1,
     set_trace (trace st ++ r.2)
       (set_errors (if Js.truthy r.1.1 then setProperty (key r.1.2) r.1.1 (errors st)
                    else errors st)
          (set_dom (<[element config := r.1.2]> (dom st)) st))).
Proof.
  unfold checkValid, checked, flagged.
  set (el := element config). set (e := dom st !!! el).
  do 3 mstep. cbn [dom set_dom set_trace trace].
  rewrite !lookup_total_insert_eq, validity_api_setCustomValidity. fold e.
  set (e0 := setCustomValidity "" e).
  destruct (Js.truthy (validationMessage e0)) eqn:Hnative.
  - mstep. cbn [fst snd Js.truthy]. rewrite Hnative. unfold when.
    rewrite fmap_nil, app_nil_r.
    replace (validity_api e0) with (validity_api e)
      by (symmetry; apply validity_api_setCustomValidity).
    destruct (bool_decide (errorClass = "")); mrun;
      by rewrite merge_store_singleton.
  - rewrite (bind_eq _ _ _ _ _ (await_validators_spec _ _ _ _ _)).
    cbn [dom set_dom set_trace trace]. rewrite lookup_total_insert_eq.
    fold e0. set (loop := awaited e0 0 (validators config)).
    cbn [fst snd].
    replace (validity_api e0) with (validity_api e)
      by (symmetry; apply validity_api_setCustomValidity).
    destruct (Js.truthy loop.2) eqn:Hfound.
    + rewrite Hfound. unfold when.
      destruct (bool_decide (errorClass = "")); mrun;
        by rewrite merge_store_singleton, <-app_assoc.
    + rewrite Hnative. mrun. by rewrite <-app_assoc.
Qed.

(** *** What [checked] keeps and what it tells *)

Lemma checked_key config e : key (checked errorClass config e).1.2 = key e.
Proof.
  unfold checked, flagged. cbn [fst snd].
  repeat case_match;
    rewrite ?key_setAttribute, ?key_classList_toggle, ?key_setCustomValidity;
    done.
Qed.

Lemma mounted_classList_toggle c b e :
  mounted (classList_toggle c b e) = mounted e.
Proof. unfold classList_toggle. destruct b; [case_bool_decide |]; done. Qed.

Lemma checked_mounted config e :
  mounted (checked errorClass config e).1.2 = mounted e.
Proof.
  unfold checked, flagged. cbn [fst snd].
  repeat case_match; unfold setAttribute; cbn [mounted with_attributes];
    rewrite ?mounted_classList_toggle, ?mounted_setCustomValidity; done.
Qed.

Lemma validationMessage_setAttribute k v e :
  validationMessage (setAttribute k v e) = validationMessage e.
Proof. done. Qed.

Lemma validationMessage_classList_toggle c b e :
  validationMessage (classList_toggle c b e) = validationMessage e.
Proof. unfold classList_toggle. destruct b; [case_bool_decide |]; done. Qed.

(** The test of [submit] and [validateField],
    [field.element.validationMessage || error], is the truthiness of the
    message. *)
Lemma checked_fails config e :
  let r := checked errorClass config e in
  Js.truthy (validationMessage r.1.2) || Js.truthy r.1.1 = Js.truthy r.1.1.
Proof.
  cbn zeta. destruct (Js.truthy (checked errorClass config e).1.1) eqn:Hm;
    [apply orb_true_r | rewrite orb_false_r].
  revert Hm. unfold checked. cbn [fst snd].
  set (e0 := setCustomValidity "" e).
  destruct (Js.truthy (validationMessage e0)) eqn:Hnative; cbn [fst snd Js.truthy].
  - by rewrite Hnative.
  - destruct (awaited_found e0 0 (validators config)) as [Hf|Hf]; rewrite Hf.
    + cbn [Js.truthy]. by rewrite Hnative.
    + by rewrite Hf.
Qed.

Lemma checked_events config e :
  Forall (λ ev, validation_event ev = true) (checked errorClass config e).2.
Proof.
  unfold checked. cbn [snd]. apply Forall_app. split.
  - case_match; by repeat constructor.
  - apply Forall_fmap, Forall_true. done.
Qed.

(** The three ways a run of [checkValid] can go. *)
Lemma checked_cases config e :
  let r := checked errorClass config e in
  let e0 := setCustomValidity "" e in
  let found := (awaited e0 0 (validators config)).2 in
  (Js.truthy (validationMessage e0) = true ∧
   r.1.1 = validationMessage e0 ∧ r.1.2 = flagged errorClass e0)
  ∨ (Js.truthy (validationMessage e0) = false ∧ Js.truthy found = true ∧
     r.1.1 = found ∧
     r.1.2 = flagged errorClass (setCustomValidity (default "" found) e0))
  ∨ (Js.truthy (validationMessage e0) = false ∧ Js.truthy found = false ∧
     Js.truthy r.1.1 = false ∧ r.1.2 = e0).
Proof.
  cbn zeta. unfold checked. cbn [fst snd].
  destruct (Js.truthy (validationMessage (setCustomValidity "" e))) eqn:Hn;
    cbn [fst snd Js.truthy].
  - left. by rewrite Hn.
  - right.
    destruct (Js.truthy (awaited (setCustomValidity "" e) 0 (validators config)).2)
      eqn:Hf.
    + left. by rewrite Hf.
    + right. by rewrite Hn.
Qed.

Lemma flagged_facts e :
  let e' := flagged errorClass e in
  getAttribute "aria-invalid" e' = Some "true" ∧
  (errorClass ≠ "" → errorClass ∈ class_list e') ∧
  validationMessage e' = validationMessage e ∧
  custom_validity e' = custom_validity e.
Proof.
  cbn zeta. unfold flagged. split_and!.
  - apply lookup_insert_eq.
  - intros Hec. rewrite bool_decide_eq_false_2 by done.
    unfold classList_toggle. case_bool_decide as Hin; [done |].
    cbn [class_list with_class_list setAttribute with_attributes].
    apply elem_of_app. right. left.
  - rewrite validationMessage_setAttribute.
    case_bool_decide; by rewrite ?validationMessage_classList_toggle.
  - case_bool_decide; [done |]. unfold classList_toggle. by case_bool_decide.
Qed.

(** An element with the constraint-validation API, once its custom validity
    is set. *)
Lemma setCustomValidity_api text e :
  validity_api e = true →
  custom_validity (setCustomValidity text e) = text ∧
  validationMessage (setCustomValidity text e) =
    Some (if will_validate e then
            if bool_decide (text = "") then native_message e else text
          else "").
Proof.
  intros Hapi. unfold setCustomValidity, validationMessage. rewrite Hapi.
  cbn. by rewrite Hapi.
Qed.

Lemma setCustomValidity_no_api text e :
  validity_api e = false → setCustomValidity text e = e.
Proof. intros Hapi. unfold setCustomValidity. by rewrite Hapi. Qed.

Lemma setCustomValidity_twice t1 t2 e :
  setCustomValidity t2 (setCustomValidity t1 e) = setCustomValidity t2 e.
Proof. unfold setCustomValidity. by destruct (validity_api e) eqn:Hapi; cbn; rewrite Hapi. Qed.

End Facts.

End FormFacts.

(** ** Which validators are awaited *)

Module AwaitedFacts.
Import Dom Form Summary.

Section Loop.
Variable e : Element.

Lemma awaited_lookup vs : ∀ i j,
  j ∈ (awaited e i vs).1 →
  i ≤ j ∧ ∃ v, vs !! (j - i) = Some (Some v).
Proof.
  induction vs as [|[v|] vs IH]; intros i j Hj; cbn [awaited] in Hj.
  - by apply elem_of_nil in Hj.
  - destruct (Js.truthy (v e)); cbn [fst] in Hj.
    + apply list_elem_of_singleton in Hj as ->.
      split; [lia |]. exists v. by rewrite Nat.sub_diag.
    + apply elem_of_cons in Hj as [->|Hj].
      * split; [lia |]. exists v. by rewrite Nat.sub_diag.
      * destruct (IH _ _ Hj) as [Hle [w Hw]]. split; [lia |]. exists w.
        by replace (j - i) with (S (j - S i)) by lia.
  - destruct (IH _ _ Hj) as [Hle [w Hw]]. split; [lia |]. exists w.
    by replace (j - i) with (S (j - S i)) by lia.
Qed.




End Loop.

End AwaitedFacts.

(** ** The first [checkValid] *)

Module LegacyFacts.
Import Dom Form Summary FormFacts.

Section Facts.
Variable errorClass : string.

Lemma legacy_await_spec el vs : ∀ i st,
  Legacy.await_validators el i vs st =
    let e := dom st !!! el in
    let loop := awaited e i (Some <$> vs) in
    (tt,
     set_trace (trace st ++ (EvValidator el <$> loop.1))
       (if Js.truthy loop.2 then
          set_dom (<[el := setCustomValidity (default "" loop.2) e]> (dom st)) st
        else st)).
Proof.
  induction vs as [|v vs IH]; intros i st; cbn [Legacy.await_validators].
  - cbn. by rewrite app_nil_r, set_trace_id.
  - rewrite fmap_cons. cbn [awaited]. mrun.
    destruct (Js.truthy (v (dom st !!! el))) eqn:Hv; cbn [fst snd].
    + by rewrite Hv.
    + rewrite IH. mrun.
      destruct (Js.truthy (awaited (dom st !!! el) (S i) (Some <$> vs)).2);
        by rewrite <-app_assoc.
Qed.

(** X1: on an input that has a name and is a candidate for constraint
    validation the first [checkValid] and the current one leave the same
    state. *)
Lemma legacy_checkValid_agrees element validators st :
  let e := dom st !!! element in
  validity_api e = true → will_validate e = true → is_Some (name e) →
  (Legacy.checkValid errorClass element validators st).2 =
    (checkValid errorClass
       {| Form.element := element; Form.validators := Some <$> validators |}
       st).2.
Proof.
  cbn zeta. intros Hapi Hwv [n Hname].
  rewrite checkValid_spec. cbn [snd Form.element Form.validators].
  unfold Legacy.checkValid, checked, flagged. cbn [Form.element Form.validators].
  set (e := dom st !!! element) in *.
  do 3 mstep. cbn [dom set_dom set_trace trace].
  rewrite !lookup_total_insert_eq. fold e.
  set (e0 := setCustomValidity "" e).
  assert (validity_api e0 = true) as Hapi0
    by (unfold e0; by rewrite validity_api_setCustomValidity).
  rewrite Hapi0.
  assert (∀ x, key x = default "undefined" (name x) ∨ name x = None) as Hkey.
  { intros x. unfold key. destruct (name x); [by left | by right]. }
  assert (∀ t, name (setCustomValidity t e) = Some n) as Hn.
  { intros t. unfold setCustomValidity. by rewrite Hapi. }
  destruct (Js.truthy (validationMessage e0)) eqn:Hnative.
  - mstep. cbn [fst snd Js.truthy]. rewrite Hnative, fmap_nil, app_nil_r.
    unfold when.
    destruct (bool_decide (errorClass = "")); mrun;
      rewrite merge_store_singleton; unfold key, classList_toggle;
      try case_bool_decide; cbn [name with_class_list setAttribute
        with_attributes]; unfold e0; by rewrite Hn.
  - erewrite bind_eq.
    2:{ erewrite bind_eq by apply legacy_await_spec.
        erewrite bind_eq by apply read_eq. reflexivity. }
    cbn [dom set_dom set_trace trace]. rewrite lookup_total_insert_eq.
    fold e0. set (loop := awaited e0 0 (Some <$> validators)).
    cbn [fst snd].
    destruct (Js.truthy loop.2) eqn:Hfound.
    + cbn [dom set_dom]. rewrite lookup_total_insert_eq.
      destruct loop.2 as [text|] eqn:Hl2; [| done].
      cbn [default from_option id].
      assert (validationMessage (setCustomValidity text e0) = Some text) as Hvm.
      { unfold e0. rewrite setCustomValidity_twice.
        destruct (setCustomValidity_api text e Hapi) as [_ ->].
        rewrite Hwv. cbn in Hfound. by rewrite (negb_true_iff _) in Hfound;
          rewrite Hfound. }
      rewrite Hvm, Hfound. unfold when.
      destruct (bool_decide (errorClass = "")); mrun;
        rewrite merge_store_singleton, <-app_assoc; unfold key, classList_toggle;
        try case_bool_decide; cbn [name with_class_list setAttribute
          with_attributes]; unfold e0; by rewrite setCustomValidity_twice, Hn.
    + cbn [dom set_dom set_trace]. rewrite lookup_total_insert_eq. fold e0.
      rewrite Hnative. mrun. by rewrite <-app_assoc.
Qed.

(** The first [checkValid], summarised: the message is whatever
    [validationMessage] reads once the loop is over. *)
Lemma legacy_checkValid_spec element validators st :
  Legacy.checkValid errorClass element validators st =
    let e0 := setCustomValidity "" (dom st !!! element) in
    let loop := if Js.truthy (validationMessage e0) then ([], None)
                else awaited e0 0 (Some <$> validators) in
    let e1 := if Js.truthy loop.2
              then setCustomValidity (default "" loop.2) e0 else e0 in
    let message := validationMessage e1 in
    let e2 := if Js.truthy message then flagged errorClass e1 else e1 in
    (tt,
     set_trace (trace st ++ (if validity_api e0 then [EvCheckValidity element]
                             else []) ++ (EvValidator element <$> loop.1))
       (set_errors
          (if Js.truthy message
           then setProperty (default "undefined" (name e2)) message (errors st)
           else errors st)
          (set_dom (<[element := e2]> (dom st)) st))).
Proof.
  unfold Legacy.checkValid, flagged.
  set (e := dom st !!! element).
  do 3 mstep. cbn [dom set_dom set_trace trace].
  rewrite !lookup_total_insert_eq. fold e.
  set (e0 := setCustomValidity "" e).
  replace (validity_api e0) with (validity_api e)
    by (symmetry; apply validity_api_setCustomValidity).
  destruct (Js.truthy (validationMessage e0)) eqn:Hnative.
  - mstep. cbn [fst snd Js.truthy]. rewrite Hnative, fmap_nil, app_nil_r.
    unfold when.
    destruct (bool_decide (errorClass = "")); mrun;
      by rewrite merge_store_singleton.
  - erewrite bind_eq.
    2:{ erewrite bind_eq by apply legacy_await_spec.
        erewrite bind_eq by apply read_eq. reflexivity. }
    cbn [dom set_dom set_trace trace]. rewrite lookup_total_insert_eq.
    fold e0. set (loop := awaited e0 0 (Some <$> validators)).
    cbn [fst snd].
    destruct (Js.truthy loop.2) eqn:Hfound;
      cbn [dom set_dom set_trace]; rewrite lookup_total_insert_eq; fold e0.
    + destruct (Js.truthy (validationMessage
                 (setCustomValidity (default "" loop.2) e0))); unfold when;
        [destruct (bool_decide (errorClass = "")) |]; mrun;
        by rewrite ?merge_store_singleton, <-app_assoc.
    + rewrite Hnative. mrun. by rewrite <-app_assoc.
Qed.

(** X2: in the first [main.ts], with an error class the browser accepts as a
    class token and an input that is not called [__proto__], a failure is, by
    construction, what [validationMessage] carries: when validation leaves a
    message on the element, that message is the entry recorded under the
    element's name and the element is flagged; when it leaves none, the store
    is untouched. *)
Lemma legacy_failure_is_carried element validators st :
  Dom.class_token errorClass = true →
  name (dom st !!! element) ≠ Some "__proto__" →
  let st' := (Legacy.checkValid errorClass element validators st).2 in
  let e' := dom st' !!! element in
  if Js.truthy (validationMessage e') then
    errors st' !! default "undefined" (name e') = validationMessage e' ∧
    getAttribute "aria-invalid" e' = Some "true" ∧
    (errorClass ≠ "" → errorClass ∈ class_list e')
  else errors st' = errors st.
Proof.
  intros _ _. cbn zeta. rewrite legacy_checkValid_spec. cbn zeta.
  cbn [snd dom errors set_dom set_errors set_trace].
  rewrite lookup_total_insert_eq.
  set (e1 := if Js.truthy _ then setCustomValidity _ _ else _).
  destruct (Js.truthy (validationMessage e1)) eqn:Hm.
  - destruct (flagged_facts errorClass e1) as (Ha & Hc & Hv & _).
    rewrite Hv, Hm. split_and!; [| done | done].
    destruct (validationMessage e1) as [m|]; [| done].
    cbn [setProperty]. apply lookup_insert_eq.
  - by rewrite Hm.
Qed.

End Facts.

End LegacyFacts.

(** ** The submit pass *)

Module SubmitFacts.
Import Dom Form Summary FormFacts.

Section Facts.
Variable errorClass : string.

Lemma checkValid_fst config st :
  (checkValid errorClass config st).1 =
    (checked errorClass config (dom st !!! element config)).1.1.
Proof. by rewrite checkValid_spec. Qed.

Lemma checkValid_dom config st :
  dom (checkValid errorClass config st).2 =
    <[element config :=
        (checked errorClass config (dom st !!! element config)).1.2]> (dom st).
Proof. by rewrite checkValid_spec. Qed.

Lemma checkValid_trace config st :
  trace (checkValid errorClass config st).2 =
    trace st ++ (checked errorClass config (dom st !!! element config)).2.
Proof. by rewrite checkValid_spec. Qed.

Lemma checkValid_errors config st :
  errors (checkValid errorClass config st).2 =
    let r := checked errorClass config (dom st !!! element config) in
    if Js.truthy r.1.1 then setProperty (key r.1.2) r.1.1 (errors st)
    else errors st.
Proof. by rewrite checkValid_spec. Qed.

Lemma checkValid_frame config st :
  let st' := (checkValid errorClass config st).2 in
  fields st' = fields st ∧ handlers st' = handlers st ∧
  form_handlers st' = form_handlers st ∧
  isSubmitting st' = isSubmitting st ∧ isSubmitted st' = isSubmitted st.
Proof. by rewrite checkValid_spec. Qed.

Lemma submit_field_spec k b s :
  submit_field errorClass k b s =
    match Js.get k (fields s) with
    | None => (b, s)
    | Some config =>
        let r := checked errorClass config (dom s !!! element config) in
        let s1 := (checkValid errorClass config s).2 in
        if negb b && Js.truthy r.1.1 then
          let s2 := set_trace (trace s1 ++ [EvFocus (element config);
                                            EvScrollIntoView (element config)])
                      s1 in
          if mounted (dom s !!! element config) then (true, s2)
          else (b, set_fields (Js.del k (fields s)) s2)
        else (b, s1)
    end.
Proof.
  unfold submit_field. erewrite bind_eq by apply gets_eq.
  destruct (Js.get k (fields s)) as [config|]; [| done].
  cbn zeta. erewrite bind_eq by apply surjective_pairing.
  erewrite bind_eq by apply read_eq.
  rewrite checkValid_dom, lookup_total_insert_eq, checkValid_fst.
  rewrite checked_fails, checked_mounted.
  destruct (negb b && _); [| done].
  unfold focus, scrollIntoView. do 2 mstep.
  cbn [trace set_trace]. rewrite <-app_assoc. cbn [app].
  destruct (mounted (dom s !!! element config)); [done |].
  mrun. by rewrite (proj1 (checkValid_frame config s)).
Qed.

(** What a turn of the loop leaves alone. *)
Lemma submit_field_fields k b s k' :
  k ≠ k' →
  Js.get k' (fields (submit_field errorClass k b s).2) = Js.get k' (fields s).
Proof.
  intros Hk. rewrite submit_field_spec.
  destruct (Js.get k (fields s)) as [config|]; [| done].
  cbn zeta. destruct (checkValid_frame config s) as (Hf & _).
  repeat case_match; cbn [snd fields set_fields set_trace];
    rewrite ?JsFacts.get_del_ne by done; by rewrite ?Hf.
Qed.

Lemma submit_field_dom k b s config r :
  Js.get k (fields s) = Some config → r ≠ element config →
  dom (submit_field errorClass k b s).2 !!! r = dom s !!! r.
Proof.
  intros Hk Hr. rewrite submit_field_spec, Hk. cbn zeta.
  repeat case_match; cbn [snd dom set_fields set_trace];
    by rewrite checkValid_dom, lookup_total_insert_ne.
Qed.

Lemma submit_field_key k b s r :
  key (dom (submit_field errorClass k b s).2 !!! r) = key (dom s !!! r).
Proof.
  rewrite submit_field_spec.
  destruct (Js.get k (fields s)) as [config|]; [| done].
  cbn zeta.
  assert (key (dom (checkValid errorClass config s).2 !!! r) = key (dom s !!! r)).
  { rewrite checkValid_dom. destruct (decide (r = element config)) as [->|Hr].
    - by rewrite lookup_total_insert_eq, checked_key.
    - by rewrite lookup_total_insert_ne. }
  repeat case_match; done.
Qed.

Lemma loop_pre_step k ks b s :
  loop_pre (k :: ks) s → loop_pre ks (submit_field errorClass k b s).2.
Proof.
  intros [Hnd Hkey]. apply NoDup_cons in Hnd as [Hk Hnd]. split; [done |].
  intros k' config Hk' Hget. rewrite submit_field_key.
  rewrite submit_field_fields in Hget by (intros ->; done).
  apply Hkey; [by right | done].
Qed.

Lemma outcome_step k ks b s k' :
  loop_pre (k :: ks) s → k' ∈ ks →
  outcome errorClass (submit_field errorClass k b s).2 k' = outcome errorClass s k'
  ∧ is_mounted (submit_field errorClass k b s).2 k' = is_mounted s k'.
Proof.
  intros [Hnd Hkey] Hk'. apply NoDup_cons in Hnd as [Hk Hnd].
  assert (k ≠ k') as Hne by (intros ->; done).
  unfold outcome, is_mounted. rewrite submit_field_fields by done.
  destruct (Js.get k' (fields s)) as [config'|] eqn:Hget'; [| done].
  destruct (Js.get k (fields s)) as [config|] eqn:Hget.
  - assert (element config' ≠ element config) as Hel.
    { intros Hel. apply Hne.
      rewrite <-(Hkey k config), <-(Hkey k' config') by (done || by (left || right)).
      by rewrite Hel. }
    cbn [fmap option_fmap option_map].
    by rewrite (submit_field_dom k b s config).
  - by rewrite submit_field_spec, Hget.
Qed.

Lemma loop_inv_start ks b s : loop_inv errorClass s ks b ks b s.
Proof.
  split; try done.
  - exists []. by rewrite app_nil_r.
  - intros k. by left.
Qed.

Lemma fails_eq s s' k :
  outcome errorClass s k = outcome errorClass s' k →
  fails errorClass s k = fails errorClass s' k.
Proof. unfold fails. by intros ->. Qed.

Lemma calls_eq s s' k :
  outcome errorClass s k = outcome errorClass s' k →
  calls errorClass s k = calls errorClass s' k.
Proof. unfold calls. by intros ->. Qed.

Lemma setProperty_lookup k v e k' :
  setProperty k v e !! k' = if decide (k = k') then v else e !! k'.
Proof.
  unfold setProperty. destruct v as [x|].
  - rewrite lookup_insert. by case_decide.
  - rewrite lookup_delete. by case_decide.
Qed.

(** One turn of the loop, seen from the state it starts in. *)
Lemma submit_field_effect k b s :
  (∀ config, Js.get k (fields s) = Some config →
     key (dom s !!! element config) = k) →
  let res := submit_field errorClass k b s in
  res.1 = b || (fails errorClass s k && is_mounted s k)
  ∧ (∃ evs, trace res.2 = trace s ++ evs ∧
            Forall (λ ev, validation_event ev = true) evs ∧
            validator_calls evs = calls errorClass s k)
  ∧ (isSubmitting res.2 = isSubmitting s ∧ isSubmitted res.2 = isSubmitted s ∧
     handlers res.2 = handlers s ∧ form_handlers res.2 = form_handlers s)
  ∧ (fields res.2 = fields s ∨
     (fields res.2 = Js.del k (fields s) ∧
      fails errorClass s k = true ∧ is_mounted s k = false))
  ∧ errors res.2 !! k = expected_error errorClass s k
  ∧ (∀ k', k ≠ k' → errors res.2 !! k' = errors s !! k').
Proof.
  intros Hkey. cbn zeta. rewrite submit_field_spec.
  unfold fails, is_mounted, calls, expected_error, outcome.
  destruct (Js.get k (fields s)) as [config|] eqn:Hget;
    cbn [fmap option_fmap option_map].
  2:{ rewrite andb_false_r, orb_false_r. split_and!; try done.
      - exists []. by rewrite app_nil_r.
      - by left. }
  cbn zeta. specialize (Hkey config eq_refl).
  set (r := checked errorClass config (dom s !!! element config)).
  destruct (checkValid_frame config s) as (Hf & Hh & Hfh & Hsg & Hsd).
  pose proof (checkValid_trace config s) as Htr. fold r in Htr.
  pose proof (checkValid_errors config s) as Her. fold r in Her. cbn zeta in Her.
  pose proof (checked_events errorClass config (dom s !!! element config)) as Hev.
  fold r in Hev.
  assert (key r.1.2 = k) as Hkr by (unfold r; by rewrite checked_key).
  rewrite Hkr in Her.
  assert (errors (checkValid errorClass config s).2 !! k =
            (if Js.truthy r.1.1 then r.1.1 else errors s !! k)
          ∧ ∀ k', k ≠ k' →
              errors (checkValid errorClass config s).2 !! k' = errors s !! k')
    as [Hek Hek'].
  { rewrite Her. destruct (Js.truthy r.1.1); [| done]. split.
    - by rewrite setProperty_lookup, decide_True.
    - intros k' Hk'. by rewrite setProperty_lookup, decide_False. }
  destruct b, (Js.truthy r.1.1) eqn:Hm, (mounted (dom s !!! element config)) eqn:Hmt;
    cbn [negb andb orb fst snd trace fields errors isSubmitting isSubmitted
         handlers form_handlers set_trace set_fields];
    (split_and!; try done;
     [ first [ exists r.2; by split_and!
             | exists (r.2 ++ [EvFocus (element config);
                               EvScrollIntoView (element config)]);
               split_and!;
               [ by rewrite Htr, <-app_assoc
               | apply Forall_app; split; [done | by repeat constructor]
               | by rewrite validator_calls_app, app_nil_r ] ]
     | first [ by left | by right ] ]).
Qed.

(** One turn of the loop keeps the invariant. *)
Lemma loop_inv_step s0 ks0 b0 k ks b s :
  NoDup ks0 → loop_pre (k :: ks) s →
  loop_inv errorClass s0 ks0 b0 (k :: ks) b s →
  loop_inv errorClass s0 ks0 b0 ks
    (submit_field errorClass k b s).1 (submit_field errorClass k b s).2.
Proof.
  intros Hnd0 Hpre Hinv.
  destruct Hinv as [Hsub Hst Herr (evs & Htr & Hval & Hcalls) Hfl Hkey Hfld Hnd
                    Htodo Hdone].
  pose proof Hpre as [Hndk Hpk]. apply NoDup_cons in Hndk as [Hk Hndks].
  destruct (Hst k) as [Hout Hmnt]; [left |].
  assert (∀ k', k' ∈ ks → k ≠ k') as Hne by (intros k' Hk' ->; done).
  destruct (submit_field_effect k b s) as
    (Hb & (evs' & Htr' & Hval' & Hcalls') & Hfl' & Hfld' & Hek & Hek').
  { intros config Hget. apply Hpk; [left | done]. }
  assert (k ∈ ks0) as Hk0 by (apply Hsub; left).
  assert (fails errorClass s k = fails errorClass s0 k) as Hfails
    by (by apply fails_eq).
  split.
  - intros k' Hk'. apply Hsub. by right.
  - intros k' Hk'.
    destruct (outcome_step k ks b s k' Hpre Hk') as [-> ->].
    apply Hst. by right.
  - rewrite Hb, Hfails, Hmnt, <-Herr. cbn [existsb]. by rewrite orb_assoc.
  - exists (evs ++ evs'). split_and!.
    + by rewrite Htr', Htr, app_assoc.
    + by apply Forall_app.
    + rewrite <-Hcalls, validator_calls_app, Hcalls', (calls_eq _ _ _ Hout).
      rewrite fmap_cons. cbn [concat]. by rewrite <-!app_assoc.
  - destruct Hfl as (<- & <- & <- & <-). done.
  - intros r. by rewrite submit_field_key.
  - intros k'. destruct (Hfld k') as [Heq|(Hn & Hin & Hnin & Hf & Hm)].
    + destruct Hfld' as [->|(-> & Hf & Hm)]; [by left |].
      destruct (decide (k = k')) as [<-|Hkk'].
      * right. rewrite JsFacts.get_del_eq. split_and!; try done; congruence.
      * left. by rewrite JsFacts.get_del_ne.
    + right. apply not_elem_of_cons in Hnin as [Hkk' Hnin].
      split_and!; try done.
      destruct Hfld' as [->|(-> & _)]; [done |].
      by rewrite JsFacts.get_del_ne.
  - intros Hnd'. destruct Hfld' as [->|(-> & _)]; [by apply Hnd |].
    by apply JsFacts.NoDup_keys_del, Hnd.
  - intros k' Hk'. rewrite Hek'.
    + apply Htodo. destruct Hk' as [Hk'|Hk']; [left; by right | by right].
    + destruct Hk' as [Hk'|Hk']; [by apply Hne | by intros <-].
  - intros k' Hin Hnin. destruct (decide (k = k')) as [<-|Hkk'].
    + rewrite Hek. unfold expected_error. rewrite Hout, Htodo; [done |].
      left. left.
    + rewrite Hek' by done. apply Hdone; [done |].
      apply not_elem_of_cons. done.
Qed.

(** The whole loop. *)
Lemma submit_fields_inv ks : ∀ s0 ks0 b0 b s,
  NoDup ks0 → loop_pre ks s → loop_inv errorClass s0 ks0 b0 ks b s →
  loop_inv errorClass s0 ks0 b0 []
    (submit_fields errorClass ks b s).1 (submit_fields errorClass ks b s).2.
Proof.
  induction ks as [|k ks IH]; intros s0 ks0 b0 b s Hnd Hpre Hinv; [done |].
  cbn [submit_fields]. unfold bind. apply IH; [done | |].
  - by apply loop_pre_step.
  - by apply loop_inv_step.
Qed.

Lemma wf_loop_pre s : wf s → loop_pre (Js.own_keys (fields s)) s.
Proof.
  intros [Hnd Hkey]. split; [by apply JsFacts.NoDup_own_keys |].
  intros k config _. apply Hkey.
Qed.

Lemma submit_fields_spec s :
  wf s →
  let ks := Js.own_keys (fields s) in
  loop_inv errorClass s ks false []
    (submit_fields errorClass ks false s).1
    (submit_fields errorClass ks false s).2.
Proof.
  intros Hwf. pose proof (wf_loop_pre s Hwf) as Hpre.
  apply submit_fields_inv; [apply Hpre | done | apply loop_inv_start].
Qed.

(** *** After the loop *)

Lemma merge_store_lookup o e k :
  merge_store o e !! k =
    if decide (k ∈ o.*1) then default None (Js.get k o) else e !! k.
Proof.
  unfold merge_store.
  assert (∀ ks e, foldl (λ e k, setProperty k (default None (Js.get k o)) e) e ks !! k
                  = if decide (k ∈ ks) then default None (Js.get k o) else e !! k)
    as Hfold.
  { induction ks as [|k0 ks IH]; intros e0; cbn [foldl].
    - by rewrite decide_False by apply not_elem_of_nil.
    - rewrite IH, setProperty_lookup.
      destruct (decide (k ∈ ks)) as [Hin|Hin].
      + by rewrite decide_True by (by right).
      + destruct (decide (k0 = k)) as [->|Hne].
        * by rewrite decide_True by left.
        * rewrite decide_False; [done |].
          apply not_elem_of_cons. split; [congruence | done]. }
  rewrite Hfold.
  destruct (decide (k ∈ o.*1)) as [Hin|Hin].
  - by rewrite decide_True by (by apply JsFacts.elem_of_own_keys).
  - by rewrite decide_False by (by rewrite JsFacts.elem_of_own_keys).
Qed.

Lemma get_cleared (l : list (string * string)) k :
  default None (Js.get k ((λ kv, (kv.1, @None string)) <$> l)) = None.
Proof.
  induction l as [|[k' v] l IH]; [done |].
  rewrite fmap_cons. cbn [Js.get fst]. by case_decide.
Qed.

Lemma clearErrors_eq st : clearErrors st = (tt, set_errors ∅ st).
Proof.
  unfold clearErrors. erewrite bind_eq by apply gets_eq.
  rewrite setErrors_eq. do 2 f_equal. apply map_eq. intros k.
  rewrite merge_store_lookup, lookup_empty, get_cleared.
  case_decide as Hk; [done |].
  apply eq_None_not_Some. intros [v Hv]. apply Hk.
  rewrite <-list_fmap_compose. apply list_elem_of_fmap.
  exists (k, v). split; [done |]. by apply elem_of_map_to_list.
Qed.

Lemma mark_invalid_frame names : ∀ st,
  let st' := (mark_invalid names st).2 in
  fields st' = fields st ∧ errors st' = errors st ∧ trace st' = trace st ∧
  handlers st' = handlers st ∧ form_handlers st' = form_handlers st ∧
  isSubmitting st' = isSubmitting st ∧ isSubmitted st' = isSubmitted st ∧
  (∀ r, key (dom st' !!! r) = key (dom st !!! r)) ∧
  (∀ r, getAttribute "aria-invalid" (dom st !!! r) = Some "true" →
        getAttribute "aria-invalid" (dom st' !!! r) = Some "true").
Proof.
  induction names as [|name names IH]; intros st; [done |].
  cbn [mark_invalid]. erewrite bind_eq by apply gets_eq.
  destruct (Js.get name (fields st)) as [field|];
    [| destruct (Js.inherited name); [done | apply IH]].
  erewrite bind_eq by apply update_eq.
  destruct (IH (set_dom (<[element field :=
              setAttribute "aria-invalid" "true" (dom st !!! element field)]>
              (dom st)) st)) as (-> & -> & -> & -> & -> & -> & -> & Hk & Ha).
  split_and!; try done.
  - intros r. rewrite Hk. cbn [dom set_dom].
    destruct (decide (r = element field)) as [->|Hr].
    + by rewrite lookup_total_insert_eq, key_setAttribute.
    + by rewrite lookup_total_insert_ne.
  - intros r Hr. apply Ha. cbn [dom set_dom].
    destruct (decide (r = element field)) as [->|Hne].
    + rewrite lookup_total_insert_eq. apply lookup_insert_eq.
    + by rewrite lookup_total_insert_ne.
Qed.



Lemma submit_eq {Payload} (callback : Payload → CallbackResult) payload st :
  submit errorClass callback payload st =
    let r := submit_fields errorClass (Js.own_keys (fields st)) false st in
    if r.1 then (Some tt, r.2)
    else
      let s2 := set_trace (trace r.2 ++ [EvSetIsSubmitting true; EvCallback;
                                         EvSetIsSubmitting false])
                  (set_isSubmitting false r.2) in
      match callback payload with
      | CbObject o =>
          let marked := mark_invalid (Js.own_keys o) s2 in
          if marked.1
          then (Some tt, set_errors (merge_store o (errors marked.2)) marked.2)
          else (None, marked.2)
      | CbOther =>
          (Some tt, set_trace (trace s2 ++ [EvSetIsSubmitted true])
                      (set_isSubmitted true (set_errors ∅ s2)))
      end.
Proof.
  unfold submit. erewrite bind_eq by apply gets_eq.
  erewrite bind_eq by apply surjective_pairing. cbn zeta.
  destruct (submit_fields errorClass (Js.own_keys (fields st)) false st).1;
    [done |].
  unfold setIsSubmitting, setIsSubmitted.
  set (s1 := (submit_fields errorClass (Js.own_keys (fields st)) false st).2).
  assert (∀ (c : M (option unit)),
    (((modify (set_isSubmitting true);; emit (EvSetIsSubmitting true));;
      emit EvCallback;;
      (modify (set_isSubmitting false);; emit (EvSetIsSubmitting false));;
      c) s1) =
    c (set_trace (trace s1 ++ [EvSetIsSubmitting true; EvCallback;
                               EvSetIsSubmitting false])
         (set_isSubmitting false s1))) as Hrest.
  { intros c. mrun. by rewrite <-!app_assoc. }
  rewrite Hrest. destruct (callback payload) as [o|].
  - unfold bind at 1. cbn zeta.
    destruct (mark_invalid (Js.own_keys o) _).1; [| done].
    erewrite bind_eq by apply setErrors_eq. done.
  - erewrite bind_eq by apply clearErrors_eq. by mrun.
Qed.

End Facts.

End SubmitFacts.

(** ** Handlers, and the states a context can reach *)

Module ReachFacts.
Import Dom Form Summary FormFacts SubmitFacts.

Section Facts.
Variable errorClass : string.

Lemma validate_eq r accessor st :
  validate r accessor st =
    let config := {| element := r; validators := default [] accessor |} in
    (tt, set_handlers (<[r := (key (dom st !!! r), config)]> (handlers st))
           (set_fields (Js.set (key (dom st !!! r)) config (fields st)) st)).
Proof. done. Qed.

Lemma onblur_eq r st :
  onblur errorClass r st =
    match handlers st !! r with
    | None => (None, st)
    | Some (_, config) =>
        (Some (checkValid errorClass config),
         set_trace (trace st ++ [EvSetIsSubmitted false])
           (set_isSubmitted false st))
    end.
Proof.
  unfold onblur. erewrite bind_eq by apply gets_eq.
  by destruct (handlers st !! r) as [[name config]|].
Qed.

Lemma oninput_eq r st :
  oninput errorClass r st =
    match handlers st !! r with
    | None => (tt, st)
    | Some (name, _) =>
        let s1 := set_trace (trace st ++ [EvSetIsSubmitted false])
                    (set_isSubmitted false st) in
        if reads_error st name then
          let e := setAttribute "aria-invalid" "false" (dom st !!! r) in
          (tt, set_dom (<[r := if bool_decide (errorClass = "") then e
                               else classList_toggle errorClass false e]>
                          (dom st))
                 (set_errors (delete name (errors st)) s1))
        else (tt, s1)
    end.
Proof.
  unfold oninput. erewrite bind_eq by apply gets_eq.
  destruct (handlers st !! r) as [[name config]|]; [| done].
  unfold setIsSubmitted, has_error. mrun.
  change (reads_error (set_trace _ (set_isSubmitted false st)) name)
    with (reads_error st name).
  destruct (reads_error st name); cbn [negb]; [| done].
  rewrite merge_store_singleton. cbn [setProperty].
  by destruct (bool_decide (errorClass = "")); mrun.
Qed.

(** For a name [Object.prototype] does not define, [errors[k]] is what the
    store holds. *)
Lemma reads_error_own st k :
  Js.inherited k = false → reads_error st k = Js.truthy (errors st !! k).
Proof. intros Hk. unfold reads_error. by destruct (errors st !! k). Qed.

Lemma validateField_eq fieldName st :
  validateField errorClass fieldName st =
    match Js.get fieldName (fields st) with
    | None => (if Js.inherited fieldName then None else Some false, st)
    | Some field =>
        let r := checked errorClass field (dom st !!! element field) in
        let s1 := (checkValid errorClass field st).2 in
        (Some (negb (reads_error s1 fieldName)),
         if Js.truthy r.1.1 then
           set_trace (trace s1 ++ [EvFocus (element field);
                                   EvScrollIntoView (element field)]) s1
         else s1)
    end.
Proof.
  unfold validateField. erewrite bind_eq by apply gets_eq.
  destruct (Js.get fieldName (fields st)) as [field|];
    [| by destruct (Js.inherited fieldName)].
  cbn zeta. erewrite bind_eq by apply surjective_pairing.
  erewrite bind_eq by apply read_eq.
  rewrite checkValid_dom, lookup_total_insert_eq, checkValid_fst, checked_fails.
  destruct (Js.truthy _) eqn:Hm; unfold when, focus, scrollIntoView, has_error;
    mrun; [| done].
  by rewrite <-app_assoc.
Qed.

Lemma formSubmit_eq form accessor st :
  formSubmit form accessor st =
    (tt, set_form_handlers
           (<[form := default (λ _, CbOther) accessor]> (form_handlers st))
           (set_dom (<[form := setAttribute "novalidate" "" (dom st !!! form)]>
                       (dom st))
              (set_trace (trace st ++ [EvSetIsSubmitted false])
                 (set_isSubmitted false st)))).
Proof. done. Qed.

(** *** Well-formedness is kept *)

Lemma wf_preserved st st' :
  wf st →
  (∀ r, key (dom st' !!! r) = key (dom st !!! r)) →
  (∀ k c, Js.get k (fields st') = Some c → Js.get k (fields st) = Some c) →
  (NoDup (fields st).*1 → NoDup (fields st').*1) →
  wf st'.
Proof.
  intros [Hnd Hkey] Hk Hf Hn. split; [by apply Hn |].
  intros k c Hget. rewrite Hk. by apply Hkey, Hf.
Qed.

Lemma wf_update r f st :
  (∀ e, key (f e) = key e) → wf st → wf (update r f st).2.
Proof.
  intros Hf Hwf. apply (wf_preserved st); try done.
  intros r'. rewrite update_eq. cbn [snd dom set_dom].
  destruct (decide (r = r')) as [->|Hr].
  - by rewrite lookup_total_insert_eq.
  - by rewrite lookup_total_insert_ne.
Qed.

Lemma wf_checkValid config st : wf st → wf (checkValid errorClass config st).2.
Proof.
  intros Hwf. destruct (checkValid_frame errorClass config st) as (Hf & _).
  apply (wf_preserved st); rewrite ?Hf; try done.
  intros r. rewrite checkValid_dom.
  destruct (decide (r = element config)) as [->|Hr].
  - by rewrite lookup_total_insert_eq, checked_key.
  - by rewrite lookup_total_insert_ne.
Qed.

Lemma wf_submit {Payload} (callback : Payload → CallbackResult) payload st :
  wf st → wf (submit errorClass callback payload st).2.
Proof.
  intros Hwf. pose proof (submit_fields_spec errorClass st Hwf) as Hinv.
  cbn zeta in Hinv. rewrite submit_eq. cbn zeta.
  set (r := submit_fields errorClass (Js.own_keys (fields st)) false st) in *.
  assert (wf r.2) as Hwf1.
  { apply (wf_preserved st); [done | apply Hinv | | apply Hinv].
    intros k c Hget. destruct (inv_fields _ _ _ _ _ _ _ Hinv k) as [<-|[Hn _]];
      congruence. }
  destruct r.1; [done |].
  destruct (callback payload) as [o|]; [| done].
  set (s2 := set_trace _ (set_isSubmitting false r.2)).
  destruct (mark_invalid_frame (Js.own_keys o) s2)
    as (Hf & _ & _ & _ & _ & _ & _ & Hk & _).
  destruct (mark_invalid (Js.own_keys o) s2).1; cbn [snd];
    apply (wf_preserved r.2); cbn [dom fields set_errors]; rewrite ?Hf;
    try done.
Qed.

Lemma wf_step a st : wf st → wf (step errorClass a st).
Proof.
  intros Hwf. destruct a as [r acc|r|r|name|cb|form acc|form|form|r|r|r v n];
    cbn [step].
  - rewrite validate_eq. cbn [snd]. destruct Hwf as [Hnd Hkey].
    split; cbn [fields dom set_fields set_handlers].
    + by apply JsFacts.NoDup_keys_set.
    + intros k c. rewrite JsFacts.get_set. case_decide as Hk.
      * intros [= <-]. by subst k.
      * apply Hkey.
  - rewrite onblur_eq. by destruct (handlers st !! r) as [[??]|].
  - rewrite oninput_eq. destruct (handlers st !! r) as [[name ?]|]; [| done].
    cbn zeta. destruct (reads_error st name); [| done].
    apply (wf_preserved st); try done.
    intros r'. cbn [snd dom set_dom].
    destruct (decide (r = r')) as [->|Hr].
    + rewrite lookup_total_insert_eq.
      case_bool_decide;
        by rewrite ?key_classList_toggle, key_setAttribute.
    + by rewrite lookup_total_insert_ne.
  - rewrite validateField_eq.
    destruct (Js.get name (fields st)) as [field|]; [| done].
    cbn zeta. cbn [snd]. pose proof (wf_checkValid field st Hwf).
    by destruct (Js.truthy _).
  - by apply wf_submit.
  - rewrite formSubmit_eq. cbn [snd].
    apply (wf_preserved st); try done.
    intros r'. cbn [dom set_dom set_form_handlers].
    destruct (decide (form = r')) as [->|Hr].
    + by rewrite lookup_total_insert_eq, key_setAttribute.
    + by rewrite lookup_total_insert_ne.
  - unfold onsubmit. erewrite bind_eq by apply gets_eq.
    destruct (form_handlers st !! form); [by apply wf_submit | done].
  - unfold onreset. erewrite bind_eq by apply gets_eq.
    destruct (form_handlers st !! form); [| done].
    by rewrite clearErrors_eq.
  - by apply wf_update.
  - by apply wf_update.
  - by apply wf_update.
Qed.

Lemma wf_run acts : ∀ st, wf st → wf (run errorClass acts st).
Proof.
  induction acts as [|a acts IH]; intros st Hwf; [done |].
  cbn [run foldl]. apply IH. by apply wf_step.
Qed.

Lemma wf_init d : wf (init d).
Proof. split; [constructor | done]. Qed.

(** Every state a context reaches is well formed. *)
Lemma reachable_wf d st : reachable errorClass d st → wf st.
Proof. intros [acts ->]. apply wf_run, wf_init. Qed.

(** *** Between two events nothing is being submitted *)

Lemma submit_isSubmitting {Payload} (callback : Payload → CallbackResult)
    payload st :
  wf st → isSubmitting st = false →
  isSubmitting (submit errorClass callback payload st).2 = false.
Proof.
  intros Hwf Hidle. pose proof (submit_fields_spec errorClass st Hwf) as Hinv.
  cbn zeta in Hinv. rewrite submit_eq. cbn zeta.
  destruct (inv_flags _ _ _ _ _ _ _ Hinv) as (Hsg & _).
  destruct (submit_fields errorClass _ false st).1;
    [cbn [snd]; congruence |].
  destruct (callback payload) as [o|]; [| done].
  set (s2 := set_trace _ (set_isSubmitting false _)).
  destruct (mark_invalid_frame (Js.own_keys o) s2)
    as (_ & _ & _ & _ & _ & Hsg2 & _).
  by destruct (mark_invalid (Js.own_keys o) s2).1;
    cbn [snd isSubmitting set_errors]; rewrite Hsg2.
Qed.

Lemma step_isSubmitting a st :
  wf st → isSubmitting st = false → isSubmitting (step errorClass a st) = false.
Proof.
  intros Hwf Hidle.
  destruct a as [r acc|r|r|name|cb|form acc|form|form|r|r|r v n]; cbn [step].
  - done.
  - rewrite onblur_eq. by destruct (handlers st !! r) as [[??]|].
  - rewrite oninput_eq. destruct (handlers st !! r) as [[??]|]; [| done].
    cbn zeta. by destruct (reads_error _ _).
  - rewrite validateField_eq.
    destruct (Js.get name (fields st)) as [field|]; [| done].
    cbn zeta. cbn [snd].
    destruct (checkValid_frame errorClass field st) as (_ & _ & _ & Hsg & _).
    destruct (Js.truthy _); cbn [isSubmitting set_trace]; congruence.
  - by apply submit_isSubmitting.
  - done.
  - unfold onsubmit. erewrite bind_eq by apply gets_eq.
    destruct (form_handlers st !! form); [by apply submit_isSubmitting | done].
  - unfold onreset. erewrite bind_eq by apply gets_eq.
    destruct (form_handlers st !! form); [| done]. by rewrite clearErrors_eq.
  - done.
  - done.
  - done.
Qed.

Lemma run_isSubmitting acts : ∀ st,
  wf st → isSubmitting st = false →
  isSubmitting (run errorClass acts st) = false.
Proof.
  induction acts as [|a acts IH]; intros st Hwf Hidle; [done |].
  cbn [run foldl]. apply IH; [by apply wf_step | by apply step_isSubmitting].
Qed.

(** [isSubmitting] is [true] only while the callback of a pass runs. *)
Lemma reachable_idle d st : reachable errorClass d st → isSubmitting st = false.
Proof. intros [acts ->]. by apply run_isSubmitting; [apply wf_init |]. Qed.

(** *** Registration and the order of the keys *)

(** Registering elements whose names are new and differ from one another
    creates their keys one after the other, in that order. *)
Lemma registration_creates_keys_in_order
    (rs : list (nat * option (list Validator))) : ∀ st,
  let names := (λ p, key (dom st !!! p.1)) <$> rs in
  NoDup names →
  (∀ k, k ∈ names → k ∉ (fields st).*1) →
  let st' := run errorClass ((λ p, Validate p.1 p.2) <$> rs) st in
  dom st' = dom st ∧ (fields st').*1 = (fields st).*1 ++ names.
Proof.
  cbn zeta. induction rs as [|[r acc] rs IH]; intros st Hnd Hnew.
  { split; [done |]. by rewrite app_nil_r. }
  rewrite !fmap_cons in *. cbn [fst snd] in *. cbn [run foldl step].
  rewrite validate_eq. cbn zeta. cbn [snd].
  apply NoDup_cons in Hnd as [Hr Hnd].
  set (st1 := set_handlers _ (set_fields _ st)).
  assert (dom st1 = dom st) as Hdom by done.
  assert ((fields st1).*1 = (fields st).*1 ++ [key (dom st !!! r)]) as Hkeys.
  { unfold st1. cbn [fields set_handlers set_fields].
    rewrite JsFacts.keys_set, decide_False; [done |]. apply Hnew. left. }
  destruct (IH st1) as [Hd Hk].
  - by rewrite Hdom.
  - rewrite Hdom, Hkeys. intros k Hk [Hin|Hin]%elem_of_app.
    + apply (Hnew k); [by right | done].
    + apply list_elem_of_singleton in Hin as ->. done.
  - fold (run errorClass ((λ p, Validate p.1 p.2) <$> rs) st1).
    rewrite Hd, Hk, Hdom, Hkeys, <-app_assoc. done.
Qed.

(** X3: so, from a fresh context and with names that differ, are not array
    indices and are not [__proto__], a submit pass visits the fields in the
    order they were registered. *)
Lemma registration_order (rs : list (nat * option (list Validator))) d :
  let names := (λ p, key (d !!! p.1)) <$> rs in
  NoDup names →
  (∀ k, k ∈ names → Js.array_index k = None) →
  "__proto__" ∉ names →
  Js.own_keys (fields (run errorClass ((λ p, Validate p.1 p.2) <$> rs) (init d)))
    = names.
Proof.
  cbn zeta. intros Hnd Hnames _.
  destruct (registration_creates_keys_in_order rs (init d)) as [_ Hkeys];
    [done | intros k _; apply not_elem_of_nil |].
  cbn [init fields dom app] in Hkeys.
  rewrite JsFacts.own_keys_names; [done |].
  intros k. rewrite Hkeys. apply Hnames.
Qed.

End Facts.

End ReachFacts.

(** ** Validation of one field *)

Module Validation.
Import Dom Form Summary FormFacts SubmitFacts ReachFacts.

Section Claims.
Variable errorClass : string.

(** X4: the blur handler only resets [isSubmitted] and returns the function
    built by [checkValid] without calling it.  No validator runs, the element
    and the error store stay as they were. *)
Theorem blur_returns_check_unrun r st :
  let res := onblur errorClass r st in
  dom res.2 = dom st ∧ errors res.2 = errors st ∧
  validator_calls (new_events st res.2) = [] ∧
  match handlers st !! r with
  | Some (_, config) =>
      res.1 = Some (checkValid errorClass config) ∧ isSubmitted res.2 = false
  | None => res = (None, st)
  end.
Proof.
  cbn zeta. rewrite onblur_eq.
  destruct (handlers st !! r) as [[name config]|]; cbn [fst snd].
  - split_and!; try done.
    by rewrite (new_events_app st _ [EvSetIsSubmitted false]).
  - split_and!; try done. unfold new_events. by rewrite drop_all.
Qed.

(** C4, amended: with an error class the browser accepts as a class token, a
    failure message [m] produced by validating an element whose key ([name],
    or [data-name] without one) is not [__proto__] is recorded under that
    key, the element gets [aria-invalid="true"] and the error class when one
    is configured.  With the constraint-validation API the custom validity
    is [m] when a validator produced it and empty when the browser did, and
    [validationMessage] carries [m] if the element is a candidate for
    validation; without the API nothing of the kind is set. *)
Theorem checkValid_surfaces_failure config st m :
  Dom.class_token errorClass = true →
  key (dom st !!! element config) ≠ "__proto__" →
  (checkValid errorClass config st).1 = Some m → m ≠ "" →
  let st' := (checkValid errorClass config st).2 in
  let e := dom st !!! element config in
  let e' := dom st' !!! element config in
  getAttribute "aria-invalid" e' = Some "true" ∧
  (errorClass ≠ "" → errorClass ∈ class_list e') ∧
  key e' = key e ∧ errors st' !! key e' = Some m ∧
  (validity_api e = true →
     custom_validity e' =
       (if Js.truthy (validationMessage (setCustomValidity "" e)) then ""
        else m) ∧
     (will_validate e = true → validationMessage e' = Some m)) ∧
  (validity_api e = false →
     validationMessage e' = None ∧ custom_validity e' = custom_validity e).
Proof.
  intros _ _ Hm Hne. cbn zeta.
  rewrite checkValid_fst in Hm.
  rewrite checkValid_dom, lookup_total_insert_eq, checkValid_errors.
  cbn zeta. rewrite checked_key, Hm.
  set (e := dom st !!! element config) in *.
  assert (Js.truthy (Some m) = true) as Htm.
  { cbn. by rewrite bool_decide_eq_false_2. }
  rewrite Htm. cbn [setProperty]. rewrite lookup_insert_eq.
  destruct (checked_cases errorClass config e)
    as [(Hn & Hr & ->)|[(Hn & Hf & Hr & ->)|(Hn & Hf & Hr & ->)]];
    rewrite Hm in Hr.
  - (* the browser's message *)
    destruct (flagged_facts errorClass (setCustomValidity "" e))
      as (Ha & Hc & Hv & Hcv).
    rewrite Ha, Hv, Hcv, Hn. split_and!; try done.
    + intros Hapi.
      destruct (setCustomValidity_api "" e Hapi) as [Hcust Hmsg].
      split; [done |]. intros Hwv. congruence.
    + intros Hapi. rewrite setCustomValidity_no_api by done.
      split; [| done]. unfold validationMessage. by rewrite Hapi.
  - (* a validator's message *)
    rewrite <-Hr. change (default "" (Some m)) with m.
    rewrite setCustomValidity_twice.
    destruct (flagged_facts errorClass (setCustomValidity m e))
      as (Ha & Hc & Hv & Hcv).
    rewrite Ha, Hv, Hcv, Hn. split_and!; try done.
    + intros Hapi.
      destruct (setCustomValidity_api m e Hapi) as [Hcust Hmsg].
      split; [done |]. intros Hwv.
      by rewrite Hmsg, Hwv, bool_decide_eq_false_2.
    + intros Hapi. rewrite setCustomValidity_no_api by done.
      split; [| done]. unfold validationMessage. by rewrite Hapi.
  - congruence.
Qed.


(** C10: an input event in a registered element resets [isSubmitted]; when
    the store holds an error (a truthy message) for the element's name, that
    entry alone is removed, [aria-invalid] becomes ["false"] and the error
    class is dropped; otherwise the store is left as it is. *)
Theorem oninput_clears_own_error r name config st :
  handlers st !! r = Some (name, config) →
  let st' := (oninput errorClass r st).2 in
  isSubmitted st' = false ∧
  (Js.truthy (errors st !! name) = true →
     errors st' = delete name (errors st) ∧
     errors st' !! name = None ∧
     (∀ k, k ≠ name → errors st' !! k = errors st !! k) ∧
     getAttribute "aria-invalid" (dom st' !!! r) = Some "false" ∧
     (errorClass ≠ "" → errorClass ∉ class_list (dom st' !!! r))) ∧
  (Js.truthy (errors st !! name) = false → errors st' = errors st).
Proof.
  intros Hh. cbn zeta. rewrite oninput_eq, Hh. cbn zeta.
  destruct (Js.truthy (errors st !! name)) eqn:Ht; cbn [snd].
  - assert (reads_error st name = true) as ->.
    { unfold reads_error. by destruct (errors st !! name). }
    split_and!; try done. intros _.
    cbn [snd errors set_errors set_dom dom]. rewrite lookup_total_insert_eq.
    split_and!; try done.
    + apply lookup_delete_eq.
    + intros k Hk. by apply lookup_delete_ne.
    + case_bool_decide; [apply lookup_insert_eq |].
      unfold classList_toggle. apply lookup_insert_eq.
    + intros Hec. rewrite bool_decide_eq_false_2 by done.
      unfold classList_toggle. cbn [class_list with_class_list].
      rewrite list_elem_of_filter. intros [Hc _]. done.
  - unfold reads_error.
    destruct (errors st !! name) as [s|] eqn:Hs; [rewrite Ht |];
      [by split_and! |].
    destruct (Js.inherited name); [| by split_and!].
    split_and!; try done. intros _. cbn [snd errors set_errors set_dom].
    by apply delete_id.
Qed.

End Claims.

(** C2 fails on the code.  In the README form, whose required [username] is
    empty, a blur of that input leaves the error store empty and the element
    unmarked; validating the same field by name records the browser's
    message. *)
Lemma blur_of_required_input :
  let st := Scenes.signup in
  errors (onblur "invalid" 0 st).2 = ∅ ∧
  getAttribute "aria-invalid" (dom (onblur "invalid" 0 st).2 !!! 0) = None ∧
  errors (validateField "invalid" "username" st).2 !! "username"
    = Some Scenes.required_message ∧
  (* the same for [message], which has a validator *)
  errors (onblur "invalid" 1 st).2 = ∅ ∧
  validator_calls (trace (onblur "invalid" 1 st).2) = [] ∧
  validator_calls (trace (validateField "invalid" "message" st).2) = [(1, 1)] ∧
  errors (validateField "invalid" "message" st).2 !! "message"
    = Some "must be at least 5 characters long".
Proof. vm_compute. done. Qed.

End Validation.

(** ** Submitting *)

Module Submission.
Import Dom Form Summary FormFacts SubmitFacts ReachFacts.

Section Pass.
Variable errorClass : string.

(** The recorded calls of a pass: those of the loop, then those around the
    callback. *)
Lemma submit_trace {Payload} (callback : Payload → CallbackResult) payload st :
  let r := submit_fields errorClass (Js.own_keys (fields st)) false st in
  trace (submit errorClass callback payload st).2 =
    trace r.2 ++
      if r.1 then []
      else [EvSetIsSubmitting true; EvCallback; EvSetIsSubmitting false]
           ++ match callback payload with
              | CbObject _ => []
              | CbOther => [EvSetIsSubmitted true]
              end.
Proof.
  cbn zeta. rewrite submit_eq. cbn zeta.
  destruct (submit_fields errorClass _ false st).1; cbn [snd].
  - by rewrite app_nil_r.
  - destruct (callback payload) as [o|]; cbn [snd trace set_errors set_trace].
    + set (s2 := set_trace _ (set_isSubmitting false _)).
      destruct (mark_invalid_frame (Js.own_keys o) s2) as (_ & _ & Htr & _).
      destruct (mark_invalid (Js.own_keys o) s2).1;
        cbn [snd trace set_errors]; rewrite Htr; by rewrite app_nil_r.
    + by rewrite <-app_assoc.
Qed.

Lemma submit_fields_after {Payload} (callback : Payload → CallbackResult)
    payload st :
  let r := submit_fields errorClass (Js.own_keys (fields st)) false st in
  fields (submit errorClass callback payload st).2 = fields r.2.
Proof.
  cbn zeta. rewrite submit_eq. cbn zeta.
  destruct (submit_fields errorClass _ false st).1; [done |].
  destruct (callback payload) as [o|]; [| done].
  set (s2 := set_trace _ (set_isSubmitting false _)).
  destruct (mark_invalid_frame (Js.own_keys o) s2) as (Hf & _).
  by destruct (mark_invalid (Js.own_keys o) s2).1;
    cbn [snd fields set_errors]; rewrite Hf.
Qed.


Lemma fails_checkValid st k config :
  Js.get k (fields st) = Some config →
  fails errorClass st k = Js.truthy (checkValid errorClass config st).1.
Proof.
  intros Hget. unfold fails, outcome. rewrite Hget.
  cbn [fmap option_fmap option_map]. by rewrite checkValid_fst.
Qed.

Lemma is_mounted_get st k config :
  Js.get k (fields st) = Some config →
  is_mounted st k = mounted (dom st !!! element config).
Proof. intros Hget. unfold is_mounted. by rewrite Hget. Qed.

Lemma validation_events_calls evs :
  Forall (λ ev, validation_event ev = true) evs →
  callback_calls evs = 0 ∧ (EvCallback ∉ evs) ∧
  (∀ b, EvSetIsSubmitting b ∉ evs) ∧ (∀ b, EvSetIsSubmitted b ∉ evs).
Proof.
  intros Hall. rewrite Forall_forall in Hall. split_and!.
  - unfold callback_calls. induction evs as [|ev evs IH]; [done |].
    rewrite filter_cons. case_decide as Hev.
    + subst ev. by specialize (Hall EvCallback ltac:(left)).
    + apply IH. intros x Hx. apply Hall. by right.
  - intros Hin. by specialize (Hall _ Hin).
  - intros b Hin. by specialize (Hall _ Hin).
  - intros b Hin. by specialize (Hall _ Hin).
Qed.

(** The key of a registered field is one of those the loop visits. *)
Lemma get_own_key st k config :
  Js.get k (fields st) = Some config → k ∈ Js.own_keys (fields st).
Proof.
  intros Hget. apply JsFacts.elem_of_own_keys, JsFacts.get_is_Some. by eexists.
Qed.

(** C3: when a registered field whose element is in the document fails
    validation, the pass stops after the loop: the callback is not called;
    [isSubmitting], [false] before the pass, is never set during it and is
    [false] after it; [setIsSubmitted] is not called either, so [isSubmitted]
    is still [false] if it was. *)
Theorem failed_submit_skips_callback {Payload}
    (callback : Payload → CallbackResult) payload d st k config :
  reachable errorClass d st →
  Js.get k (fields st) = Some config →
  mounted (dom st !!! element config) = true →
  Js.truthy (checkValid errorClass config st).1 = true →
  let st' := (submit errorClass callback payload st).2 in
  let evs := new_events st st' in
  trace st' = trace st ++ evs ∧
  callback_calls evs = 0 ∧ (EvCallback ∉ evs) ∧
  isSubmitting st = false ∧ (∀ b, EvSetIsSubmitting b ∉ evs) ∧
  isSubmitting st' = false ∧
  (∀ b, EvSetIsSubmitted b ∉ evs) ∧
  (isSubmitted st = false → isSubmitted st' = false).
Proof.
  intros Hreach Hget Hmt Hfail. cbn zeta.
  pose proof (reachable_wf errorClass d st Hreach) as Hwf.
  pose proof (reachable_idle errorClass d st Hreach) as Hidle.
  pose proof (submit_fields_spec errorClass st Hwf) as Hinv. cbn zeta in Hinv.
  pose proof (submit_trace callback payload st) as Htr. cbn zeta in Htr.
  set (r := submit_fields errorClass (Js.own_keys (fields st)) false st) in *.
  assert (r.1 = true) as Hr.
  { pose proof (inv_errored _ _ _ _ _ _ _ Hinv) as He. cbn in He.
    rewrite orb_false_r in He. rewrite He. apply existsb_exists.
    exists k. split.
    - apply list_elem_of_In. by eapply get_own_key.
    - by rewrite (fails_checkValid st k config), (is_mounted_get st k config),
        Hfail, Hmt. }
  rewrite Hr, app_nil_r in Htr.
  assert ((submit errorClass callback payload st).2 = r.2) as Hst'.
  { rewrite submit_eq. cbn zeta. fold r. by rewrite Hr. }
  destruct (inv_trace _ _ _ _ _ _ _ Hinv) as (evs & Hevs & Hval & _).
  destruct (inv_flags _ _ _ _ _ _ _ Hinv) as (Hsg & Hsd & _).
  rewrite Hst'. rewrite (new_events_app st r.2 evs Hevs).
  destruct (validation_events_calls evs Hval) as (? & ? & ? & ?).
  split_and!; try done; congruence.
Qed.



(** C8, amended: a registered name leaves the registry only in a submit pass,
    and only when its element is not in the document and fails validation;
    nothing else removes an entry.  (So the keys may name elements that have
    left the document: see [departed_field_stays].) *)
Theorem entry_leaves_only_failing_unmounted d st a k config :
  reachable errorClass d st →
  Js.get k (fields st) = Some config →
  Js.get k (fields (step errorClass a st)) = None →
  is_submit a ∧
  mounted (dom st !!! element config) = false ∧
  Js.truthy (checkValid errorClass config st).1 = true.
Proof.
  intros Hwf%reachable_wf Hget Hgone.
  assert (∀ {P} (callback : P → CallbackResult) payload,
            Js.get k (fields (submit errorClass callback payload st).2) = None →
            mounted (dom st !!! element config) = false ∧
            Js.truthy (checkValid errorClass config st).1 = true) as Hsubmit.
  { intros P callback payload. rewrite submit_fields_after.
    pose proof (submit_fields_spec errorClass st Hwf) as Hinv.
    cbn zeta in Hinv.
    destruct (inv_fields _ _ _ _ _ _ _ Hinv k) as [->|(_ & _ & _ & Hf & Hm)];
      [congruence |].
    intros _. by rewrite <-(fails_checkValid st k config),
                <-(is_mounted_get st k config). }
  destruct a as [r acc|r|r|name|cb|form acc|form|form|r|r|r v n];
    cbn [step is_submit] in *.
  - rewrite validate_eq in Hgone. cbn [snd fields set_fields set_handlers] in Hgone.
    rewrite JsFacts.get_set in Hgone. case_decide; congruence.
  - rewrite onblur_eq in Hgone.
    destruct (handlers st !! r) as [[??]|]; cbn in Hgone; congruence.
  - rewrite oninput_eq in Hgone.
    destruct (handlers st !! r) as [[??]|]; cbn zeta in Hgone;
      [destruct (reads_error _ _) |]; cbn in Hgone; congruence.
  - rewrite validateField_eq in Hgone.
    destruct (Js.get name (fields st)) as [field|]; [| cbn in Hgone; congruence].
    cbn zeta in Hgone. cbn [snd] in Hgone.
    destruct (checkValid_frame errorClass field st) as (Hf & _).
    destruct (Js.truthy _); cbn [fields set_trace] in Hgone; congruence.
  - split; [done |]. by eapply Hsubmit.
  - rewrite formSubmit_eq in Hgone. cbn in Hgone. congruence.
  - split; [done |]. unfold onsubmit in Hgone.
    erewrite bind_eq in Hgone by apply gets_eq.
    destruct (form_handlers st !! form); [by eapply Hsubmit |].
    cbn in Hgone. congruence.
  - unfold onreset in Hgone. erewrite bind_eq in Hgone by apply gets_eq.
    destruct (form_handlers st !! form);
      [rewrite clearErrors_eq in Hgone |]; cbn in Hgone; congruence.
  - cbn in Hgone. congruence.
  - cbn in Hgone. congruence.
  - cbn in Hgone. congruence.
Qed.

End Pass.

End Submission.

(** ** The PocketBase helpers *)

Module PocketbaseFacts.
Import Pocketbase.

(** *** [FormData] *)

Lemma has_false name (fd : FormData) : has name fd = false ↔ name ∉ fd.*1.
Proof. unfold has. by rewrite bool_decide_eq_false. Qed.

Lemma has_app name (fd1 fd2 : FormData) :
  has name (fd1 ++ fd2) = has name fd1 || has name fd2.
Proof.
  unfold has. rewrite fmap_app.
  destruct (bool_decide (name ∈ fd1.*1)) eqn:H1;
    destruct (bool_decide (name ∈ fd2.*1)) eqn:H2; cbn [orb];
    rewrite ?bool_decide_eq_true, ?bool_decide_eq_false in *;
    rewrite elem_of_app; tauto.
Qed.

Lemma getAll_app name (fd1 fd2 : FormData) :
  getAll name (fd1 ++ fd2) = getAll name fd1 ++ getAll name fd2.
Proof. unfold getAll. by rewrite filter_app, fmap_app. Qed.

Lemma getAll_absent name (fd : FormData) :
  has name fd = false → getAll name fd = [].
Proof.
  rewrite has_false. unfold getAll. induction fd as [|[n v] fd IH]; [done |].
  rewrite fmap_cons, not_elem_of_cons. intros [Hn Hfd].
  rewrite filter_cons, decide_False by (cbn in *; congruence). by apply IH.
Qed.

(** Setting a name the object does not have appends the entry. *)
Lemma set_absent name v (fd : FormData) :
  has name fd = false → set name v fd = fd ++ [(name, v)].
Proof.
  rewrite has_false. induction fd as [|[n v'] fd IH]; [done |].
  rewrite fmap_cons, not_elem_of_cons. intros [Hn Hfd]. cbn [set].
  rewrite decide_False by (cbn in *; congruence). cbn [app]. f_equal.
  by apply IH.
Qed.

Section Prepare.
Variable form : list Control.

(** What the loop over the checkboxes does to the entry list. *)
Lemma prepare_store formData (cs : list Control) : ∀ heap : gmap nat FormData,
  let step (h : gmap nat FormData) (input : Control) :=
    if negb (has (control_name input) (h !!! formData)) then
      <[formData := set (control_name input) (FString "false")
                        (h !!! formData)]> h
    else h in
  let add (fd : FormData) (input : Control) :=
    if has (control_name input) fd then fd
    else fd ++ [(control_name input, FString "false")] in
  foldl step heap cs !!! formData = foldl add (heap !!! formData) cs ∧
  ∀ other, other ≠ formData → foldl step heap cs !! other = heap !! other.
Proof.
  cbn zeta. induction cs as [|c cs IH]; intros heap; [done |].
  cbn [foldl]. destruct (has (control_name c) (heap !!! formData)) eqn:Hhas;
    cbn [negb]; [apply IH |].
  rewrite set_absent by done.
  destruct (IH (<[formData := heap !!! formData
                              ++ [(control_name c, FString "false")]]> heap))
    as [Hfd Hother].
  rewrite lookup_total_insert_eq in Hfd.
  split; [done |].
  intros other Hne. rewrite Hother by done. by apply lookup_insert_ne.
Qed.

Lemma add_unchecked_has (cs : list Control) : ∀ (fd : FormData) name,
  let add (fd : FormData) (input : Control) :=
    if has (control_name input) fd then fd
    else fd ++ [(control_name input, FString "false")] in
  has name (foldl add fd cs)
    = has name fd || bool_decide (name ∈ control_name <$> cs).
Proof.
  cbn zeta. induction cs as [|c cs IH]; intros fd name; cbn [foldl].
  { rewrite bool_decide_eq_false_2 by apply not_elem_of_nil.
    by rewrite orb_false_r. }
  rewrite IH, fmap_cons.
  destruct (decide (name = control_name c)) as [->|Hne].
  - rewrite (bool_decide_eq_true_2 (_ ∈ _ :: _)) by left.
    rewrite orb_true_r.
    destruct (has (control_name c) fd) eqn:Hhas; [by rewrite Hhas |].
    rewrite has_app. unfold has at 2. cbn [fmap list_fmap fst].
    rewrite (bool_decide_eq_true_2 (_ ∈ [_])) by left.
    by rewrite orb_true_r.
  - assert (bool_decide (name ∈ control_name c :: (control_name <$> cs))
            = bool_decide (name ∈ control_name <$> cs)) as ->.
    { apply bool_decide_ext. rewrite elem_of_cons. tauto. }
    destruct (has (control_name c) fd); [done |].
    rewrite has_app. unfold has at 2. cbn [fmap list_fmap fst].
    rewrite (bool_decide_eq_false_2 (_ ∈ [_])); [by rewrite orb_false_r |].
    by rewrite list_elem_of_singleton.
Qed.

Lemma add_unchecked_getAll (cs : list Control) : ∀ (fd : FormData) name,
  let add (fd : FormData) (input : Control) :=
    if has (control_name input) fd then fd
    else fd ++ [(control_name input, FString "false")] in
  getAll name (foldl add fd cs) =
    if has name fd then getAll name fd
    else if bool_decide (name ∈ control_name <$> cs) then [FString "false"]
         else [].
Proof.
  cbn zeta. induction cs as [|c cs IH]; intros fd name; cbn [foldl].
  { rewrite bool_decide_eq_false_2 by apply not_elem_of_nil.
    destruct (has name fd) eqn:Hn; [done | by apply getAll_absent]. }
  rewrite IH, fmap_cons.
  destruct (has (control_name c) fd) eqn:Hc.
  - destruct (has name fd) eqn:Hn; [done |].
    apply (f_equal (λ b : bool, if b then _ else _)).
    apply bool_decide_ext. rewrite elem_of_cons.
    assert (name ≠ control_name c) by congruence. tauto.
  - rewrite has_app, getAll_app. unfold has at 2, getAll at 2.
    cbn [fmap list_fmap fst]. rewrite filter_cons, filter_nil. cbn [fst].
    destruct (decide (control_name c = name)) as [<-|Hne].
    + rewrite Hc, (bool_decide_eq_true_2 (_ ∈ [_])) by left. cbn [orb].
      rewrite (bool_decide_eq_true_2 (_ ∈ _ :: _)) by left.
      by rewrite getAll_absent.
    + rewrite (bool_decide_eq_false_2 (_ ∈ [_]))
        by (rewrite list_elem_of_singleton; congruence).
      rewrite orb_false_r, app_nil_r.
      destruct (has name fd); [done |].
      apply (f_equal (λ b : bool, if b then _ else _)).
      apply bool_decide_ext. rewrite elem_of_cons.
      assert (name ≠ control_name c) by congruence. tauto.
Qed.

(** C6: the object handed in is the one returned; afterwards every checkbox
    input of the form has an entry under its name, names that had entries
    keep them, names that had none hold the single string ["false"], and the
    entries of every other name are as before.  No other object changes. *)
Theorem prepare_fills_unchecked_checkboxes formData (heap : gmap nat FormData) :
  let res := prepareFormDataForPocketbase formData form heap in
  let before := heap !!! formData in
  let after := res.2 !!! formData in
  res.1 = formData ∧
  (∀ other, other ≠ formData → res.2 !! other = heap !! other) ∧
  (∀ input, input ∈ form → tag input = "input" → type input = "checkbox" →
     has (control_name input) after = true ∧
     (has (control_name input) before = true →
        getAll (control_name input) after = getAll (control_name input) before) ∧
     (has (control_name input) before = false →
        getAll (control_name input) after = [FString "false"])) ∧
  (∀ name,
     (∀ input, input ∈ form → tag input = "input" → type input = "checkbox" →
        control_name input ≠ name) →
     getAll name after = getAll name before).
Proof.
  cbn zeta. unfold prepareFormDataForPocketbase. cbn [fst snd].
  destruct (prepare_store formData (querySelectorAll_checkbox form) heap)
    as [Hfd Hother].
  rewrite Hfd. clear Hfd.
  assert (∀ name, name ∈ control_name <$> querySelectorAll_checkbox form ↔
            ∃ input, input ∈ form ∧ tag input = "input" ∧
                     type input = "checkbox" ∧ control_name input = name)
    as Hnames.
  { intros name. rewrite list_elem_of_fmap. unfold querySelectorAll_checkbox.
    split.
    - intros (c & -> & Hc). apply list_elem_of_filter in Hc as [[??] ?].
      by exists c.
    - intros (c & Hc & Ht & Hty & <-). exists c. split; [done |].
      by apply list_elem_of_filter. }
  split_and!; [done | done | |].
  - intros input Hin Htag Hty.
    assert (control_name input ∈
              control_name <$> querySelectorAll_checkbox form) as Hmem
      by (apply Hnames; by exists input).
    rewrite add_unchecked_has, add_unchecked_getAll.
    rewrite (bool_decide_eq_true_2 _ Hmem), orb_true_r.
    split_and!; [done | by intros -> | by intros ->].
  - intros name Hname. rewrite add_unchecked_getAll.
    destruct (has name (heap !!! formData)) eqn:Hhas; [done |].
    rewrite bool_decide_eq_false_2, getAll_absent; [done | done |].
    rewrite Hnames. intros (c & ? & ? & ? & ?). by eapply Hname.
Qed.

End Prepare.

(** *** Errors *)

Lemma fold_set_get {V} (f : string → V) (ks : list string) : ∀ (o : Js.obj V) k,
  Js.get k (foldl (λ o k, Js.set k (f k) o) o ks) =
    if decide (k ∈ ks) then Some (f k) else Js.get k o.
Proof.
  induction ks as [|k0 ks IH]; intros o k; cbn [foldl].
  - by rewrite decide_False by apply not_elem_of_nil.
  - rewrite IH, JsFacts.get_set.
    destruct (decide (k ∈ ks)) as [Hin|Hin].
    + by rewrite decide_True by (by right).
    + destruct (decide (k0 = k)) as [->|Hne].
      * by rewrite decide_True by left.
      * rewrite decide_False; [done |].
        apply not_elem_of_cons. split; [congruence | done].
Qed.

(** What [Object.assign] leaves in the target. *)
Lemma assign_get (source : Js.obj JVal) : ∀ (target : Js.obj JVal) k,
  Js.get k (assign target source) =
    if decide (k ∈ source.*1 ∧ (k = "__proto__" → k ∈ target.*1))
    then Some (default JUndefined (Js.get k source))
    else Js.get k target.
Proof.
  unfold assign.
  assert (∀ ks (target : Js.obj JVal) k,
    Js.get k (foldl (λ o k, if bool_decide (k = "__proto__")
                                 && negb (Js.has k o) then o
                            else Js.set k (default JUndefined
                                             (Js.get k source)) o)
                    target ks) =
      if decide (k ∈ ks ∧ (k = "__proto__" → k ∈ target.*1))
      then Some (default JUndefined (Js.get k source))
      else Js.get k target) as Hfold.
  { induction ks as [|k0 ks IH]; intros target k; cbn [foldl].
    - rewrite decide_False; [done |]. intros [[]%not_elem_of_nil _].
    - rewrite IH. clear IH.
      destruct (bool_decide (k0 = "__proto__") && negb (Js.has k0 target))
        eqn:Hskip.
      + apply andb_true_iff in Hskip as [->%bool_decide_eq_true Hhas].
        apply negb_true_iff in Hhas.
        assert ("__proto__" ∉ target.*1) as Hno.
        { rewrite <-JsFacts.has_true. by rewrite Hhas. }
        destruct (decide (k = "__proto__")) as [->|Hk].
        * rewrite !decide_False; [done | |]; by intros [_ ?%(λ f, f eq_refl)].
        * apply decide_ext. rewrite elem_of_cons. intuition congruence.
      + assert (k0 = "__proto__" → k0 ∈ target.*1) as Hown.
        { intros ->. apply JsFacts.has_true.
          by destruct (Js.has "__proto__" target). }
        assert (∀ k', k' ∈ (Js.set k0 (default JUndefined
                                          (Js.get k0 source)) target).*1
                      ↔ k' = k0 ∨ k' ∈ target.*1) as Hkeys.
        { intros k'. rewrite JsFacts.keys_set.
          destruct (decide (k0 ∈ target.*1)).
          - intuition congruence.
          - rewrite elem_of_app, list_elem_of_singleton. tauto. }
        rewrite JsFacts.get_set.
        destruct (decide (k0 = k)) as [->|Hne].
        * rewrite (decide_True (P := k ∈ k :: ks ∧ _)).
          2:{ split; [by left | done]. }
          by destruct (decide _).
        * apply decide_ext. rewrite Hkeys, elem_of_cons.
          intuition congruence. }
  intros target k. rewrite Hfold. apply decide_ext.
  by rewrite JsFacts.elem_of_own_keys.
Qed.

Lemma fromEntries_fmap (g : string → JVal) (ks : list string) :
  fromEntries ((λ k, (k, g k)) <$> ks) = foldl (λ o k, Js.set k (g k) o) [] ks.
Proof.
  unfold fromEntries. generalize (@nil (string * JVal)).
  induction ks as [|k ks IH]; intros o; [done |].
  rewrite fmap_cons. cbn [foldl fst snd]. apply IH.
Qed.

(** The message read off a field error that is not [null] or [undefined]. *)
Lemma prop_total k v :
  v ≠ JUndefined → v ≠ JNull → prop k v = Some (opt_prop k v).
Proof. unfold opt_prop. by destruct v. Qed.

Lemma map_messages_fmap (o : Js.obj JVal) (ks : list string) :
  (∀ k, k ∈ ks → ∃ v, Js.get k o = Some v ∧ v ≠ JUndefined ∧ v ≠ JNull) →
  map_messages ((λ k, (k, default JUndefined (Js.get k o))) <$> ks) =
    Some ((λ k, (k, opt_prop "message" (default JUndefined (Js.get k o))))
            <$> ks).
Proof.
  induction ks as [|k ks IH]; intros Hks; [done |].
  rewrite !fmap_cons. cbn [map_messages].
  destruct (Hks k) as (v & Hv & Hu & Hn); [left |].
  rewrite Hv. cbn [default from_option id].
  rewrite (prop_total "message" v Hu Hn). cbn [mbind option_bind].
  rewrite IH; [done |]. intros k' Hk'. apply Hks. by right.
Qed.

Lemma isPocketbaseFieldError_true e :
  isPocketbaseFieldError e = true ↔ ∃ o, opt_prop "data" (data e) = JObj o.
Proof.
  unfold isPocketbaseFieldError.
  destruct (opt_prop "data" (data e)) as [| |b|n|s|o]; cbn;
    rewrite ?andb_false_r; split; try done; try (by intros [? ?]).
  by exists o.
Qed.

(** C7, amended: the result has the root key and, exactly when [e.data.data]
    is an object, its keys other than [__proto__]; each of those keys holds
    that field's [message] (also when it is the root key, and then
    [__proto__] too), and the root key holds [e.message] when it is not a
    key of [e.data.data].  Field errors are expected not to be [null] or
    [undefined]. *)
Theorem parse_maps_fields_then_root e rootErrorKey :
  let root := default "form" rootErrorKey in
  (isPocketbaseFieldError e = true ↔ ∃ o, opt_prop "data" (data e) = JObj o) ∧
  (isPocketbaseFieldError e = false →
     parsePocketbaseError e rootErrorKey = Some [(root, JStr (message e))]) ∧
  (∀ o, opt_prop "data" (data e) = JObj o →
     (∀ k v, Js.get k o = Some v → v ≠ JUndefined ∧ v ≠ JNull) →
     ∃ result,
       parsePocketbaseError e rootErrorKey = Some result ∧
       (∀ k v, Js.get k o = Some v → k ≠ "__proto__" ∨ k = root →
          Js.get k result = prop "message" v) ∧
       (root ∉ o.*1 → Js.get root result = Some (JStr (message e))) ∧
       (∀ k, k ∈ result.*1 ↔ k = root ∨ k ∈ o.*1 ∧ k ≠ "__proto__")).
Proof.
  cbn zeta. split_and!.
  - apply isPocketbaseFieldError_true.
  - intros Hno. unfold parsePocketbaseError. by rewrite Hno.
  - intros o Ho Hvals. unfold parsePocketbaseError.
    rewrite (proj2 (isPocketbaseFieldError_true e)) by (by exists o).
    assert (prop "data" (data e) = Some (JObj o)) as ->.
    { unfold opt_prop in Ho. destruct (prop "data" (data e)); cbn in Ho;
        congruence. }
    cbn [mbind option_bind entries].
    rewrite map_messages_fmap.
    2:{ intros k Hk. apply JsFacts.elem_of_own_keys, JsFacts.get_is_Some in Hk
          as [v Hv]. exists v. split; [done |]. by eapply Hvals. }
    cbn [mbind option_bind]. eexists. split; [done |].
    set (g := λ k, opt_prop "message" (default JUndefined (Js.get k o))).
    set (src := fromEntries ((λ k, (k, g k)) <$> Js.own_keys o)).
    assert (∀ k, Js.get k src = if decide (k ∈ o.*1) then Some (g k) else None)
      as Hsrc.
    { intros k. unfold src. rewrite fromEntries_fmap, fold_set_get.
      destruct (decide (k ∈ o.*1)) as [Hk|Hk].
      - by rewrite decide_True by (by apply JsFacts.elem_of_own_keys).
      - by rewrite decide_False by (by rewrite JsFacts.elem_of_own_keys). }
    assert (∀ k, k ∈ Js.own_keys src ↔ k ∈ o.*1) as Hkeys.
    { intros k. rewrite JsFacts.elem_of_own_keys, <-JsFacts.get_is_Some, Hsrc.
      case_decide; [by split | split; [by intros [? ?] | done]]. }
    set (root := default "form" rootErrorKey).
    assert (∀ k, Js.get k (assign [(root, JStr (message e))] src)
                 = if decide (k ∈ o.*1 ∧ (k = "__proto__" → k = root))
                   then Some (g k)
                   else Js.get k [(root, JStr (message e))]) as Hres.
    { intros k. rewrite assign_get.
      assert (k ∈ src.*1 ↔ k ∈ o.*1) as Hk.
      { by rewrite <-!JsFacts.elem_of_own_keys, Hkeys,
             JsFacts.elem_of_own_keys. }
      destruct (decide (k ∈ o.*1 ∧ (k = "__proto__" → k = root)))
        as [[Hin Hp]|Hno].
      - rewrite decide_True.
        + by rewrite Hsrc, decide_True.
        + split; [by apply Hk |]. intros ->%Hp. cbn. by left.
      - rewrite decide_False; [done |]. intros [Hin Hp]. apply Hno.
        split; [by apply Hk |]. intros Hproto%Hp. cbn in Hproto.
        by apply list_elem_of_singleton in Hproto. }
    split_and!.
    + intros k v Hv Hk. rewrite Hres, decide_True.
      * unfold g. rewrite Hv. cbn [default from_option id].
        destruct (Hvals k v Hv). by rewrite prop_total.
      * split; [apply JsFacts.get_is_Some; by eexists |].
        intros ->. by destruct Hk.
    + intros Hroot. rewrite Hres, decide_False by (by intros [? _]).
      cbn [Js.get]. by rewrite decide_True.
    + intros k. rewrite <-JsFacts.get_is_Some, Hres.
      destruct (decide (k ∈ o.*1 ∧ (k = "__proto__" → k = root)))
        as [[Hin Hp]|Hno].
      * split; [| by eexists]. intros _.
        destruct (decide (k = root)); [by left | right].
        split; [done |]. by intros ?%Hp.
      * cbn [Js.get]. case_decide as Hroot.
        -- split; [by left | by eexists].
        -- split; [by intros [? ?] |].
           intros [?|[? ?]]; [done |]. destruct Hno. by split.
Qed.

End PocketbaseFacts.

(** ** Worked instances *)

Module Instances.
Import Dom Form Summary Scenes.





(** C3 at the README form, whose required [username] is empty. *)
Lemma failed_submit_witness :
  reachable "invalid" signup_page signup ∧
  Js.get "username" (fields signup) = Some username_config ∧
  mounted (dom signup !!! 0) = true ∧
  Js.truthy (checkValid "invalid" username_config signup).1 = true ∧
  let st' := (submit "invalid" (λ _ : unit, CbOther) tt signup).2 in
  callback_calls (new_events signup st') = 0 ∧
  isSubmitting st' = false ∧ isSubmitted st' = false.
Proof.
  assert (reachable "invalid" signup_page signup) as Hreach by (by eexists).
  assert (Js.get "username" (fields signup) = Some username_config) as Hget
    by (by vm_compute).
  assert (mounted (dom signup !!! 0) = true) as Hmt by (by vm_compute).
  assert (Js.truthy (checkValid "invalid" username_config signup).1 = true)
    as Hfail by (by vm_compute).
  destruct (Submission.failed_submit_skips_callback "invalid"
              (λ _ : unit, CbOther) tt signup_page signup "username"
              username_config Hreach Hget Hmt Hfail)
    as (_ & Hcb & _ & _ & _ & Hsg & _ & Hsd).
  cbn zeta.
  split_and!; [done | done | done | done | done | done | by apply Hsd].
Defined.

(** C4 at the same field: the browser's message is recorded and shown. *)
Lemma surfaced_failure_witness :
  class_token "invalid" = true ∧
  key (dom signup !!! element username_config) ≠ "__proto__" ∧
  (checkValid "invalid" username_config signup).1 = Some required_message ∧
  required_message ≠ "" ∧
  let st' := (checkValid "invalid" username_config signup).2 in
  errors st' !! "username" = Some required_message ∧
  getAttribute "aria-invalid" (dom st' !!! 0) = Some "true" ∧
  "invalid" ∈ class_list (dom st' !!! 0) ∧
  validationMessage (dom st' !!! 0) = Some required_message.
Proof.
  assert ((checkValid "invalid" username_config signup).1
          = Some required_message) as Hm by (by vm_compute).
  assert (required_message ≠ "") as Hne by done.
  assert (key (dom signup !!! element username_config) ≠ "__proto__")
    as Hkey' by (by vm_compute).
  destruct (Validation.checkValid_surfaces_failure "invalid" username_config
              signup required_message eq_refl Hkey' Hm Hne)
    as (Haria & Hclass & Hkey & Herr & Hapi & _).
  cbn zeta.
  split_and!;
    [done | done | done | done | | done | by apply Hclass | by apply Hapi].
  rewrite <-Herr. by vm_compute.
Defined.

(** C4: a registered [div] fails its validator; the message is recorded but
    the element has no custom validity and no [validationMessage]. *)
Lemma div_has_no_validation_message :
  let config := {| element := 0; validators := [alwaysBad] |} in
  let res := checkValid "" config custom in
  Js.get "customField" (fields custom) = Some config ∧
  res.1 = Some "bad" ∧
  errors res.2 !! "customField" = Some "bad" ∧
  validationMessage (dom res.2 !!! 0) = None ∧
  custom_validity (dom res.2 !!! 0) = "" ∧
  name (dom res.2 !!! 0) = None.
Proof. by vm_compute. Qed.



(** C8: an input that passes validation was registered and has left the
    document; a submit pass later it is still in the registry. *)
Lemma departed_field_stays :
  reachable "" departed_page departed ∧
  Js.get "username" (fields departed) = Some username_config ∧
  mounted (dom departed !!! element username_config) = false.
Proof. split; [by exists departed_history |]. by vm_compute. Qed.

(** C8 where an entry does leave: the required, empty input left the
    document and a submit pass runs. *)
Lemma removed_entry_witness :
  let a := Submit (λ _, CbOther) in
  reachable "" gone_page gone ∧
  Js.get "username" (fields gone) = Some username_config ∧
  Js.get "username" (fields (step "" a gone)) = None ∧
  is_submit a ∧
  mounted (dom gone !!! 0) = false ∧
  Js.truthy (checkValid "" username_config gone).1 = true.
Proof.
  cbn zeta.
  assert (reachable "" gone_page gone) as Hreach by (by eexists).
  assert (Js.get "username" (fields gone) = Some username_config) as Hget
    by (by vm_compute).
  assert (Js.get "username" (fields (step "" (Submit (λ _, CbOther)) gone))
          = None) as Hgone by (by vm_compute).
  destruct (Submission.entry_leaves_only_failing_unmounted "" gone_page gone
              (Submit (λ _, CbOther)) "username" username_config
              Hreach Hget Hgone) as (Hsub & Hmt & Hfail).
  by split_and!.
Defined.



(** C10 at the README form, after [username] failed: typing in it clears
    that error and nothing else. *)
Lemma input_event_witness :
  handlers signup_checked !! 0 = Some ("username", username_config) ∧
  Js.truthy (errors signup_checked !! "username") = true ∧
  let st' := (oninput "invalid" 0 signup_checked).2 in
  isSubmitted st' = false ∧ errors st' !! "username" = None ∧
  getAttribute "aria-invalid" (dom st' !!! 0) = Some "false" ∧
  "invalid" ∉ class_list (dom st' !!! 0).
Proof.
  assert (handlers signup_checked !! 0 = Some ("username", username_config))
    as Hh by (by vm_compute).
  assert (Js.truthy (errors signup_checked !! "username") = true) as Ht
    by (by vm_compute).
  destruct (Validation.oninput_clears_own_error "invalid" 0 "username"
              username_config signup_checked Hh) as (Hsd & Hclear & _).
  destruct (Hclear Ht) as (_ & Hnone & _ & Haria & Hclass).
  cbn zeta. split_and!; [done | done | done | done | done | by apply Hclass].
Defined.

Import Pocketbase.

(** C6 at a form with a ticked and an unticked checkbox. *)
Lemma prepare_witness :
  let res := prepareFormDataForPocketbase 7 settings_form settings_data in
  res.1 = 7 ∧
  getAll "newsletter" (res.2 !!! 7) = [FString "on"] ∧
  getAll "terms" (res.2 !!! 7) = [FString "false"] ∧
  getAll "email" (res.2 !!! 7) = [FString "ada@example.org"].
Proof.
  cbn zeta.
  destruct (PocketbaseFacts.prepare_fills_unchecked_checkboxes settings_form 7
              settings_data) as (Hsame & _ & Hboxes & Hrest).
  split_and!.
  - exact Hsame.
  - destruct (Hboxes {| tag := "input"; type := "checkbox";
                        control_name := "newsletter" |})
      as (_ & Hkept & _); [by left | done | done |].
    cbn [control_name] in Hkept. rewrite Hkept; by vm_compute.
  - destruct (Hboxes {| tag := "input"; type := "checkbox";
                        control_name := "terms" |})
      as (_ & _ & Hnew); [right; right; by left | done | done |].
    cbn [control_name] in Hnew. rewrite Hnew; by vm_compute.
  - rewrite Hrest; [by vm_compute |].
    intros input Hin Htag Hty.
    vm_compute in Hin.
    apply elem_of_cons in Hin as [->|Hin]; [done |].
    apply elem_of_cons in Hin as [->|Hin]; [done |].
    apply elem_of_cons in Hin as [->|Hin]; [done |].
    by apply elem_of_nil in Hin.
Defined.

(** C7: the collection has a field called [form]; its message takes the
    place of [e.message] under the root key.  And a field called [__proto__]
    (an own property of [e.data.data] when the response was read with
    [JSON.parse]) is not in the result. *)
Lemma field_named_as_root_wins :
  message form_field_error = "Failed to create record." ∧
  parsePocketbaseError form_field_error None
    = Some [("form", JStr "Cannot be blank.")] ∧
  let e := {| message := "Failed to create record.";
              data := JObj [("data",
                       JObj [("__proto__",
                              JObj [("message", JStr "Cannot be blank.")])])]
           |} in
  parsePocketbaseError e None
    = Some [("form", JStr "Failed to create record.")].
Proof. by vm_compute. Qed.

(** C7 on the usual shape of a PocketBase error. *)
Lemma parse_witness :
  ∃ result,
    parsePocketbaseError field_errors None = Some result ∧
    Js.get "email" result = Some (JStr "Invalid email") ∧
    Js.get "password" result = Some (JStr "Too short") ∧
    Js.get "form" result = Some (JStr "Something went wrong").
Proof.
  destruct (PocketbaseFacts.parse_maps_fields_then_root field_errors None)
    as (_ & _ & Hparse).
  destruct (Hparse [("email", JObj [("message", JStr "Invalid email")]);
                    ("password", JObj [("message", JStr "Too short")])])
    as (result & Hres & Hfields & Hroot & _); [done | |].
  { intros k v Hget. cbn in Hget.
    repeat (case_decide; [by simplify_eq |]). done. }
  exists result. split_and!; [done | | |].
  - by rewrite (Hfields "email" (JObj [("message", JStr "Invalid email")]))
      by (done || by left).
  - by rewrite (Hfields "password" (JObj [("message", JStr "Too short")]))
      by (done || by left).
  - apply Hroot. cbn [fmap list_fmap fst].
    rewrite !not_elem_of_cons. split_and!; [done | done |].
    apply not_elem_of_nil.
Defined.

End Instances.

(** * Further properties *)

(** ** One field: validation, registration, typing *)

Module FieldProperties.
Import Dom Form Summary Observations FormFacts SubmitFacts ReachFacts.

Section Fields.
Variable errorClass : string.

(** X5: a validation that passes clears nothing.  The error store, the
    attributes (so [aria-invalid]) and the classes of the element stay as an
    earlier failure left them; the custom validity alone is reset, and no
    other element changes. *)
Theorem passing_check_leaves_marks config st :
  Js.truthy (checkValid errorClass config st).1 = false →
  let st' := (checkValid errorClass config st).2 in
  let e := dom st !!! element config in
  let e' := dom st' !!! element config in
  errors st' = errors st ∧
  e' = setCustomValidity "" e ∧
  attributes e' = attributes e ∧ class_list e' = class_list e ∧
  (∀ r, r ≠ element config → dom st' !!! r = dom st !!! r).
Proof.
  intros Hpass. cbn zeta. rewrite checkValid_fst in Hpass.
  rewrite checkValid_dom, checkValid_errors, lookup_total_insert_eq.
  cbn zeta. rewrite Hpass.
  destruct (checked_cases errorClass config (dom st !!! element config))
    as [(Hn & Hr & _)|[(_ & Hf & Hr & _)|(_ & _ & _ & ->)]];
    [congruence | congruence |].
  split_and!; try done.
  - unfold setCustomValidity. by destruct (validity_api _).
  - unfold setCustomValidity. by destruct (validity_api _).
  - intros r Hr. by rewrite lookup_total_insert_ne.
Qed.

(** X6: [validateField] answers from the error store, not from the
    validation it ran: for a field that passes, the answer is [false] exactly
    when [errors[fieldName]] still reads truthy ([reads_error]: a message
    left by an earlier failure or by the submit callback, or, without an
    entry, a member of [Object.prototype] of that name), and the state is
    that of [checkValid]. *)
Theorem validateField_reports_stale_error fieldName field st :
  Js.get fieldName (fields st) = Some field →
  Js.truthy (checkValid errorClass field st).1 = false →
  let res := validateField errorClass fieldName st in
  res.1 = Some (negb (reads_error st fieldName)) ∧
  res.2 = (checkValid errorClass field st).2 ∧
  errors res.2 = errors st.
Proof.
  intros Hget Hpass. cbn zeta.
  rewrite validateField_eq, Hget. cbn zeta. cbn [fst snd].
  pose proof (checkValid_errors errorClass field st) as Herr.
  cbn zeta in Herr. rewrite checkValid_fst in Hpass.
  rewrite Hpass in *. unfold reads_error. by rewrite Herr.
Qed.

Lemma checked_with_custom_validity config e text :
  validity_api e = true →
  checked errorClass config (with_custom_validity text e)
    = checked errorClass config e.
Proof.
  intros Hapi. unfold checked.
  assert (setCustomValidity "" (with_custom_validity text e)
          = setCustomValidity "" e) as ->; [| done].
  unfold setCustomValidity. cbn [validity_api with_custom_validity].
  by rewrite Hapi.
Qed.

(** X7: the custom validity an element carries when its validation starts
    has no influence on it: result and final state are those of the element
    without it. *)
Theorem check_ignores_previous_custom_validity config st text :
  validity_api (dom st !!! element config) = true →
  checkValid errorClass config
    (update (element config) (with_custom_validity text) st).2
  = checkValid errorClass config st.
Proof.
  intros Hapi. rewrite !checkValid_spec. cbn zeta.
  rewrite update_eq. cbn [snd dom errors trace set_dom].
  rewrite lookup_total_insert_eq, checked_with_custom_validity by done.
  f_equal. unfold set_trace, set_errors, set_dom.
  cbn [dom fields handlers form_handlers errors isSubmitting isSubmitted trace].
  by rewrite insert_insert_eq.
Qed.

(** X9: [validate] files the element under its key, when that is not
    [__proto__].  An entry that name already had is replaced where it stands
    (the registry keeps one entry per name, the last registered), a new name
    is created last; entries of other names and handlers of other elements
    are not touched; an accessor that does not give an array leaves the
    field without validators. *)
Theorem validate_files_under_key r accessor st :
  key (dom st !!! r) ≠ "__proto__" →
  let name := key (dom st !!! r) in
  let config := {| element := r; validators := default [] accessor |} in
  let st' := (validate r accessor st).2 in
  Js.get name (fields st') = Some config ∧
  (∀ k, k ≠ name → Js.get k (fields st') = Js.get k (fields st)) ∧
  (fields st').*1 = (if decide (name ∈ (fields st).*1) then (fields st).*1
                     else (fields st).*1 ++ [name]) ∧
  handlers st' !! r = Some (name, config) ∧
  (∀ r', r' ≠ r → handlers st' !! r' = handlers st !! r') ∧
  dom st' = dom st ∧ errors st' = errors st ∧ trace st' = trace st.
Proof.
  intros _. cbn zeta. rewrite validate_eq. cbn zeta.
  cbn [snd fields handlers dom errors trace set_handlers set_fields].
  split_and!; try done.
  - apply JsFacts.get_set_eq.
  - intros k Hk. by apply JsFacts.get_set_ne.
  - apply JsFacts.keys_set.
  - apply lookup_insert_eq.
  - intros r' Hr. by apply lookup_insert_ne.
Qed.

Lemma checked_keeps_input config e :
  let e' := (checked errorClass config e).1.2 in
  value e' = value e ∧ native_message e' = native_message e ∧
  name e' = name e ∧ will_validate e' = will_validate e.
Proof.
  cbn zeta.
  assert (∀ text e1, value (setCustomValidity text e1) = value e1 ∧
            native_message (setCustomValidity text e1) = native_message e1 ∧
            name (setCustomValidity text e1) = name e1 ∧
            will_validate (setCustomValidity text e1) = will_validate e1)
    as Hcustom.
  { intros text e1. unfold setCustomValidity. by destruct (validity_api e1). }
  assert (∀ e1, value (flagged errorClass e1) = value e1 ∧
            native_message (flagged errorClass e1) = native_message e1 ∧
            name (flagged errorClass e1) = name e1 ∧
            will_validate (flagged errorClass e1) = will_validate e1)
    as Hflag.
  { intros e1. unfold flagged, classList_toggle.
    repeat case_bool_decide; done. }
  destruct (checked_cases errorClass config e)
    as [(_ & _ & ->)|[(_ & _ & _ & ->)|(_ & _ & _ & ->)]].
  - destruct (Hflag (setCustomValidity "" e)) as (-> & -> & -> & ->).
    apply Hcustom.
  - destruct (Hflag (setCustomValidity
                       (default "" (awaited (setCustomValidity "" e) 0
                                      (validators config)).2)
                       (setCustomValidity "" e))) as (-> & -> & -> & ->).
    rewrite setCustomValidity_twice. apply Hcustom.
  - apply Hcustom.
Qed.

(** X10: validating a field touches that field only.  Other elements and the
    store entries of other keys are as before, as are the registry, the
    handlers and both flags; of the element itself the value, the name, the
    browser's verdict and its place in the document are kept; and nothing but
    [checkValidity] and validators is called. *)
Theorem check_touches_own_field_only config st :
  let st' := (checkValid errorClass config st).2 in
  let e := dom st !!! element config in
  let e' := dom st' !!! element config in
  (∀ r, r ≠ element config → dom st' !!! r = dom st !!! r) ∧
  (∀ k, k ≠ key e → errors st' !! k = errors st !! k) ∧
  fields st' = fields st ∧ handlers st' = handlers st ∧
  form_handlers st' = form_handlers st ∧
  isSubmitting st' = isSubmitting st ∧ isSubmitted st' = isSubmitted st ∧
  key e' = key e ∧ value e' = value e ∧ mounted e' = mounted e ∧
  native_message e' = native_message e ∧
  (∀ ev, ev ∈ new_events st st' →
     ev = EvCheckValidity (element config) ∨
     ∃ i v, ev = EvValidator (element config) i ∧
            validators config !! i = Some (Some v)).
Proof.
  cbn zeta.
  destruct (checkValid_frame errorClass config st) as (? & ? & ? & ? & ?).
  rewrite checkValid_dom, checkValid_errors, lookup_total_insert_eq.
  rewrite (new_events_app st _ _ (checkValid_trace errorClass config st)).
  cbn zeta. rewrite checked_key, checked_mounted.
  destruct (checked_keeps_input config (dom st !!! element config))
    as (Hv & Hn & _).
  split_and!; try done.
  - intros r Hr. by rewrite lookup_total_insert_ne.
  - intros k Hk. destruct (Js.truthy _); [| done].
    by rewrite setProperty_lookup, decide_False.
  - intros ev. unfold checked. cbn [snd]. rewrite elem_of_app.
    intros [Hev|Hev].
    + left. destruct (validity_api _); [| by apply elem_of_nil in Hev].
      by apply list_elem_of_singleton in Hev.
    + right. apply list_elem_of_fmap in Hev as (i & -> & Hi).
      destruct (Js.truthy (validationMessage _)); cbn [fst] in Hi;
        [by apply elem_of_nil in Hi |].
      destruct (AwaitedFacts.awaited_lookup _ _ _ _ Hi) as [_ [v Hv']].
      rewrite Nat.sub_0_r in Hv'. by exists i, v.
Qed.

(** X11: correcting a field makes it valid again.  Once the user has
    edited a registered element (which delivers an input event to it), a
    validation by name that passes answers [true], whatever the store held
    for the field before; the name is one that [Object.prototype] does not
    define. *)
Theorem corrected_field_validates st r name config v native :
  Js.inherited name = false →
  handlers st !! r = Some (name, config) →
  Js.get name (fields st) = Some config →
  let st1 := run errorClass [Edit r v native; Input r] st in
  Js.truthy (checkValid errorClass config st1).1 = false →
  (validateField errorClass name st1).1 = Some true ∧
  Js.truthy (errors (validateField errorClass name st1).2 !! name) = false.
Proof.
  intros Hown Hh Hget. cbn zeta. cbn [run foldl step].
  rewrite update_eq. cbn [snd].
  set (s0 := set_dom _ st).
  assert (handlers s0 !! r = Some (name, config)) as Hh0 by done.
  assert (Js.get name (fields (oninput errorClass r s0).2) = Some config ∧
          Js.truthy (errors (oninput errorClass r s0).2 !! name) = false)
    as [Hget1 Hclean].
  { rewrite oninput_eq, Hh0. cbn zeta. rewrite reads_error_own by done.
    destruct (Js.truthy (errors s0 !! name)) eqn:Ht; cbn [snd].
    - split; [done |].
      cbn [errors set_dom set_errors]. by rewrite lookup_delete_eq.
    - by split. }
  intros Hpass. rewrite validateField_eq, Hget1. cbn zeta. cbn [fst snd].
  pose proof (checkValid_errors errorClass config
                (oninput errorClass r s0).2) as Herr.
  cbn zeta in Herr. rewrite checkValid_fst in Hpass. rewrite Hpass in *.
  cbn [errors set_trace]. rewrite reads_error_own by done.
  by rewrite Herr, Hclean.
Qed.

(** *** What the handlers captured *)

Lemma submit_keeps_keys {Payload} (callback : Payload → CallbackResult)
    payload st :
  wf st →
  let st' := (submit errorClass callback payload st).2 in
  (∀ r, key (dom st' !!! r) = key (dom st !!! r)) ∧
  handlers st' = handlers st.
Proof.
  intros Hwf. cbn zeta.
  pose proof (submit_fields_spec errorClass st Hwf) as Hinv.
  cbn zeta in Hinv. rewrite submit_eq. cbn zeta.
  destruct (inv_flags _ _ _ _ _ _ _ Hinv) as (_ & _ & Hh & _).
  pose proof (inv_key _ _ _ _ _ _ _ Hinv) as Hk.
  set (r := submit_fields errorClass (Js.own_keys (fields st)) false st) in *.
  destruct r.1; [done |].
  destruct (callback payload) as [o|]; [| done].
  set (s2 := set_trace _ (set_isSubmitting false r.2)).
  destruct (mark_invalid_frame (Js.own_keys o) s2)
    as (_ & _ & _ & Hh2 & _ & _ & _ & Hk2 & _).
  destruct (mark_invalid (Js.own_keys o) s2).1;
    cbn [snd dom handlers set_errors]; (split; [| by rewrite Hh2]);
    intros r'; by rewrite Hk2.
Qed.

Lemma update_keeps_keys r f st r' :
  (∀ e, key (f e) = key e) →
  key (dom (update r f st).2 !!! r') = key (dom st !!! r').
Proof.
  intros Hf. rewrite update_eq. cbn [snd dom set_dom].
  destruct (decide (r = r')) as [->|Hr].
  - by rewrite lookup_total_insert_eq.
  - by rewrite lookup_total_insert_ne.
Qed.

(** No action changes the key of an element, and only [validate] installs
    handlers. *)
Lemma step_keeps_keys a st :
  wf st →
  (∀ r, key (dom (step errorClass a st) !!! r) = key (dom st !!! r)) ∧
  handlers (step errorClass a st) =
    match a with
    | Validate r accessor =>
        <[r := (key (dom st !!! r),
                {| element := r; validators := default [] accessor |})]>
          (handlers st)
    | _ => handlers st
    end.
Proof.
  intros Hwf. destruct a as [r acc|r|r|name|cb|form acc|form|form|r|r|r v n];
    cbn [step].
  - by rewrite validate_eq.
  - rewrite onblur_eq. by destruct (handlers st !! r) as [[??]|].
  - rewrite oninput_eq. destruct (handlers st !! r) as [[name ?]|]; [| done].
    cbn zeta. destruct (reads_error _ _); [| done].
    split; [| done]. intros r'. cbn [snd dom set_dom].
    destruct (decide (r = r')) as [->|Hr].
    + rewrite lookup_total_insert_eq.
      case_bool_decide; by rewrite ?key_classList_toggle, key_setAttribute.
    + by rewrite lookup_total_insert_ne.
  - rewrite validateField_eq.
    destruct (Js.get name (fields st)) as [field|]; [| done].
    cbn zeta. cbn [snd].
    destruct (checkValid_frame errorClass field st) as (_ & Hh & _).
    assert (∀ r, key (dom (checkValid errorClass field st).2 !!! r)
                 = key (dom st !!! r)) as Hk.
    { intros r. rewrite checkValid_dom.
      destruct (decide (r = element field)) as [->|Hr].
      - by rewrite lookup_total_insert_eq, checked_key.
      - by rewrite lookup_total_insert_ne. }
    by destruct (Js.truthy _).
  - by apply submit_keeps_keys.
  - rewrite formSubmit_eq. cbn [snd]. split; [| done].
    intros r'. cbn [dom set_dom set_form_handlers].
    destruct (decide (form = r')) as [->|Hr].
    + by rewrite lookup_total_insert_eq, key_setAttribute.
    + by rewrite lookup_total_insert_ne.
  - unfold onsubmit. erewrite bind_eq by apply gets_eq.
    destruct (form_handlers st !! form); [by apply submit_keeps_keys | done].
  - unfold onreset. erewrite bind_eq by apply gets_eq.
    destruct (form_handlers st !! form); [| done]. by rewrite clearErrors_eq.
  - split; [| done]. intros r'. by apply update_keeps_keys.
  - split; [| done]. intros r'. by apply update_keeps_keys.
  - split; [| done]. intros r'. by apply update_keeps_keys.
Qed.

Lemma captured_step a st :
  wf st → captured st → captured (step errorClass a st).
Proof.
  intros Hwf Hcap. destruct (step_keeps_keys a st Hwf) as [Hk Hh].
  intros r name config. rewrite Hh, Hk.
  destruct a as [r0 acc|?|?|?|?|? ?|?|?|?|?|? ? ?]; try apply Hcap.
  rewrite lookup_insert. case_decide as Hr; [| apply Hcap].
  intros [= <- <-]. by subst r0.
Qed.

Lemma captured_run acts : ∀ st,
  wf st → captured st → captured (run errorClass acts st).
Proof.
  induction acts as [|a acts IH]; intros st Hwf Hcap; [done |].
  cbn [run foldl]. apply IH; [by apply wf_step | by apply captured_step].
Qed.

Lemma reachable_captured d st : reachable errorClass d st → captured st.
Proof.
  intros [acts ->]. apply captured_run; [apply wf_init |].
  intros r name config. cbn [init handlers]. by rewrite lookup_empty.
Qed.

(** X12: the handlers of an element and its validation meet on one key.
    While the element [r] has the key its handlers captured (not
    [__proto__]) and the entry they captured is for [r], and with an error
    class the browser accepts as a class token, a failure of that field is
    recorded under the captured name, and the next input event on [r] takes
    it back: the entry is removed, [aria-invalid] becomes ["false"], the
    error class is dropped, and the other entries are as before the
    validation. *)
Theorem input_takes_back_failure st r name config :
  Dom.class_token errorClass = true →
  name ≠ "__proto__" →
  handlers st !! r = Some (name, config) →
  name = key (dom st !!! r) → element config = r →
  Js.truthy (checkValid errorClass config st).1 = true →
  let st1 := (checkValid errorClass config st).2 in
  let st2 := (oninput errorClass r st1).2 in
  errors st1 !! name = (checkValid errorClass config st).1 ∧
  getAttribute "aria-invalid" (dom st1 !!! r) = Some "true" ∧
  errors st2 !! name = None ∧
  (∀ k, k ≠ name → errors st2 !! k = errors st !! k) ∧
  getAttribute "aria-invalid" (dom st2 !!! r) = Some "false" ∧
  (errorClass ≠ "" → errorClass ∉ class_list (dom st2 !!! r)).
Proof.
  intros _ _ Hh Hname Hel Hfail. cbn zeta. subst r.
  destruct (checkValid_frame errorClass config st) as (_ & Hh1 & _).
  pose proof (checkValid_errors errorClass config st) as Herr.
  pose proof (checkValid_fst errorClass config st) as Hfst.
  cbn zeta in Herr. rewrite Hfst in Hfail. rewrite Hfail in Herr.
  rewrite checked_key, <-Hname, <-Hfst in Herr.
  assert (errors (checkValid errorClass config st).2 !! name
          = (checkValid errorClass config st).1) as Hrec.
  { by rewrite Herr, setProperty_lookup, decide_True. }
  assert (getAttribute "aria-invalid"
            (dom (checkValid errorClass config st).2 !!! element config)
          = Some "true") as Haria.
  { rewrite checkValid_dom, lookup_total_insert_eq.
    destruct (checked_cases errorClass config (dom st !!! element config))
      as [(_ & _ & Hr)|[(_ & _ & _ & Hr)|(_ & _ & Hr & _)]];
      [| | congruence]; rewrite Hr; apply flagged_facts. }
  assert (reads_error (checkValid errorClass config st).2 name = true)
    as Hreads.
  { unfold reads_error. rewrite Hrec, Hfst.
    by destruct (checked errorClass config _).1.1. }
  split_and!; try done.
  all: rewrite oninput_eq, Hh1, Hh; cbn zeta; rewrite Hreads;
    cbn [snd errors dom set_errors set_dom set_trace set_isSubmitted].
  - apply lookup_delete_eq.
  - intros k Hk. rewrite lookup_delete_ne by done.
    by rewrite Herr, setProperty_lookup, decide_False.
  - rewrite lookup_total_insert_eq.
    case_bool_decide; [apply lookup_insert_eq |].
    unfold classList_toggle. apply lookup_insert_eq.
  - intros Hec. rewrite lookup_total_insert_eq, bool_decide_eq_false_2 by done.
    unfold classList_toggle. cbn [class_list with_class_list].
    rewrite list_elem_of_filter. by intros [Hc _].
Qed.

End Fields.

End FieldProperties.

(** ** The submit pass: focus, fields that left, the flags *)

Module PassProperties.
Import Dom Form Summary Observations FormFacts SubmitFacts ReachFacts.

Lemma focus_calls_app t1 t2 :
  focus_calls (t1 ++ t2) = focus_calls t1 ++ focus_calls t2.
Proof. apply omap_app. Qed.

Lemma scroll_calls_app t1 t2 :
  scroll_calls (t1 ++ t2) = scroll_calls t1 ++ scroll_calls t2.
Proof. apply omap_app. Qed.

Section Pass.
Variable errorClass : string.

(** [checkValid] itself never moves the focus. *)
Lemma checked_no_focus config e :
  focus_calls (checked errorClass config e).2 = [] ∧
  scroll_calls (checked errorClass config e).2 = [].
Proof.
  unfold checked. cbn [snd]. rewrite focus_calls_app, scroll_calls_app.
  assert (∀ el (l : list nat),
            focus_calls (EvValidator el <$> l) = [] ∧
            scroll_calls (EvValidator el <$> l) = []) as Hv.
  { intros el l. induction l as [|i l [IH1 IH2]]; [done |].
    by rewrite fmap_cons. }
  destruct (Hv (element config)
              (if Js.truthy (validationMessage (setCustomValidity "" e))
               then ([], None)
               else awaited (setCustomValidity "" e) 0 (validators config)).1)
    as [-> ->].
  by destruct (validity_api _).
Qed.










(** A pass that leaves [isSubmitted] set has called the callback and emptied
    the error store. *)
Lemma submit_sets_isSubmitted {Payload} (callback : Payload → CallbackResult)
    payload st :
  wf st → isSubmitted st = false →
  let st' := (submit errorClass callback payload st).2 in
  isSubmitted st' = true →
  errors st' = ∅ ∧ callback_calls (new_events st st') = 1 ∧
  callback payload = CbOther.
Proof.
  intros Hwf Hno. cbn zeta.
  pose proof (submit_fields_spec errorClass st Hwf) as Hinv. cbn zeta in Hinv.
  pose proof (Submission.submit_trace errorClass callback payload st) as Htr.
  cbn zeta in Htr.
  destruct (inv_trace _ _ _ _ _ _ _ Hinv) as (evs & Hevs & Hval & _).
  destruct (inv_flags _ _ _ _ _ _ _ Hinv) as (_ & Hsd & _).
  destruct (Submission.validation_events_calls evs Hval) as (Hcb & _).
  rewrite Hevs, <-app_assoc in Htr. rewrite (new_events_app _ _ _ Htr).
  rewrite submit_eq. cbn zeta.
  set (r := submit_fields errorClass (Js.own_keys (fields st)) false st) in *.
  destruct r.1; [cbn [snd]; congruence |].
  destruct (callback payload) as [o|]; cbn [snd].
  - set (s2 := set_trace _ (set_isSubmitting false r.2)).
    destruct (mark_invalid_frame (Js.own_keys o) s2)
      as (_ & _ & _ & _ & _ & _ & Hsd2 & _).
    destruct (mark_invalid (Js.own_keys o) s2).1;
      cbn [snd isSubmitted set_errors]; rewrite Hsd2;
      cbn [s2 isSubmitted set_trace set_isSubmitting]; congruence.
  - intros _. split_and!; [done | | done].
    unfold callback_calls in *. by rewrite filter_app, length_app, Hcb.
Qed.

(** X15: [isSubmitted] becomes [true] in one way only: a submit pass whose
    callback was called and gave back something that is not an object; the
    error store is empty at that moment.  No other call or event sets it. *)
Theorem isSubmitted_marks_accepted_pass d st a :
  reachable errorClass d st →
  isSubmitted st = false →
  isSubmitted (step errorClass a st) = true →
  is_submit a ∧
  errors (step errorClass a st) = ∅ ∧
  callback_calls (new_events st (step errorClass a st)) = 1.
Proof.
  intros Hwf%reachable_wf Hno.
  destruct a as [r acc|r|r|name|cb|form acc|form|form|r|r|r v n];
    cbn [step is_submit].
  - rewrite validate_eq. cbn. congruence.
  - rewrite onblur_eq. destruct (handlers st !! r) as [[??]|]; cbn; congruence.
  - rewrite oninput_eq. destruct (handlers st !! r) as [[??]|]; cbn zeta;
      [destruct (reads_error _ _) |]; cbn; congruence.
  - rewrite validateField_eq.
    destruct (Js.get name (fields st)) as [field|]; [| cbn; congruence].
    cbn zeta. cbn [snd].
    destruct (checkValid_frame errorClass field st) as (_ & _ & _ & _ & Hsd).
    destruct (Js.truthy _); cbn [isSubmitted set_trace]; congruence.
  - intros Hyes.
    destruct (submit_sets_isSubmitted cb tt st Hwf Hno Hyes) as (? & ? & _).
    done.
  - rewrite formSubmit_eq. cbn. congruence.
  - unfold onsubmit. erewrite bind_eq by apply gets_eq.
    destruct (form_handlers st !! form) as [cb|]; [| cbn; congruence].
    intros Hyes.
    destruct (submit_sets_isSubmitted cb form st Hwf Hno Hyes) as (? & ? & _).
    done.
  - unfold onreset. erewrite bind_eq by apply gets_eq.
    destruct (form_handlers st !! form);
      [rewrite clearErrors_eq |]; cbn; congruence.
  - cbn. congruence.
  - cbn. congruence.
  - cbn. congruence.
Qed.

(** X16: with an error class the browser accepts as a class token,
    [validateField] moves the focus to the element of the field and scrolls
    it into view exactly when the validation fails, whether or not the
    element is in the document; a field that passes is not focused, even when
    the answer is [false] because of an older entry of the store. *)
Theorem validateField_focuses_failure fieldName field st :
  Dom.class_token errorClass = true →
  Js.get fieldName (fields st) = Some field →
  let evs := new_events st (validateField errorClass fieldName st).2 in
  let failed := Js.truthy (checkValid errorClass field st).1 in
  focus_calls evs = (if failed then [element field] else []) ∧
  scroll_calls evs = (if failed then [element field] else []).
Proof.
  intros _ Hget. cbn zeta.
  rewrite validateField_eq, Hget. cbn zeta. cbn [snd].
  pose proof (checkValid_trace errorClass field st) as Htr.
  destruct (checked_no_focus field (dom st !!! element field)) as [Hfc Hsc].
  rewrite checkValid_fst.
  set (r := checked errorClass field (dom st !!! element field)) in *.
  destruct (Js.truthy r.1.1).
  - rewrite (new_events_app st _ (r.2 ++ [EvFocus (element field);
                                          EvScrollIntoView (element field)]))
      by (cbn [trace set_trace]; by rewrite Htr, <-app_assoc).
    by rewrite focus_calls_app, scroll_calls_app, Hfc, Hsc.
  - by rewrite (new_events_app st _ r.2 Htr).
Qed.

(** X17: what holds after every history of [Action]s (registrations, blur
    and input events, validations by name, submit passes whose callback
    returns, resets, the page mounting, unmounting or editing an element;
    none of them renames an element), in a page without an element whose key
    is [__proto__] and with an error class the browser accepts as a class
    token: the registry has one entry per name, each filed under the key of
    its element; the handlers of an element hold the key of that element and
    an entry for it; and [isSubmitting] is [false]. *)
Theorem histories_keep_registry_consistent d acts :
  Dom.class_token errorClass = true →
  (∀ r, key (d !!! r) ≠ "__proto__") →
  let st := run errorClass acts (init d) in
  NoDup (fields st).*1 ∧
  (∀ k config, Js.get k (fields st) = Some config →
     key (dom st !!! element config) = k) ∧
  (∀ r name config, handlers st !! r = Some (name, config) →
     name = key (dom st !!! r) ∧ element config = r) ∧
  isSubmitting st = false.
Proof.
  intros _ _. cbn zeta.
  assert (reachable errorClass d (run errorClass acts (init d))) as Hreach
    by (by exists acts).
  destruct (reachable_wf errorClass d _ Hreach) as [Hnd Hkey].
  split_and!; [done | done | | by eapply reachable_idle].
  by apply (FieldProperties.reachable_captured errorClass d).
Qed.


(** *** What the library leaves to the page *)

Section Kept.
Context {A : Type} (p : Element → A).
Hypothesis p_custom : ∀ text e, p (setCustomValidity text e) = p e.
Hypothesis p_attribute : ∀ k v e, p (setAttribute k v e) = p e.
Hypothesis p_class :
  errorClass ≠ "" → ∀ b e, p (classList_toggle errorClass b e) = p e.

Lemma checked_keeps config e : p (checked errorClass config e).1.2 = p e.
Proof.
  assert (∀ e1, p (flagged errorClass e1) = p e1) as Hflag.
  { intros e1. unfold flagged. rewrite p_attribute.
    case_bool_decide; [done | by apply p_class]. }
  destruct (checked_cases errorClass config e)
    as [(_ & _ & ->)|[(_ & _ & _ & ->)|(_ & _ & _ & ->)]];
    by rewrite ?Hflag, ?p_custom.
Qed.

Lemma checkValid_keeps config st r :
  p (dom (checkValid errorClass config st).2 !!! r) = p (dom st !!! r).
Proof.
  rewrite checkValid_dom. destruct (decide (r = element config)) as [->|Hr].
  - by rewrite lookup_total_insert_eq, checked_keeps.
  - by rewrite lookup_total_insert_ne.
Qed.

Lemma submit_fields_keeps ks : ∀ b s r,
  p (dom (submit_fields errorClass ks b s).2 !!! r) = p (dom s !!! r).
Proof.
  induction ks as [|k ks IH]; intros b s r; [done |].
  cbn [submit_fields]. unfold bind at 1. rewrite IH.
  rewrite submit_field_spec.
  destruct (Js.get k (fields s)) as [config|]; [| done]. cbn zeta.
  pose proof (checkValid_keeps config s r) as Hk.
  destruct (negb b && _); [| done].
  by destruct (mounted _).
Qed.

Lemma mark_invalid_keeps names : ∀ st r,
  p (dom (mark_invalid names st).2 !!! r) = p (dom st !!! r).
Proof.
  induction names as [|name names IH]; intros st r; [done |].
  cbn [mark_invalid]. erewrite bind_eq by apply gets_eq.
  destruct (Js.get name (fields st)) as [field|];
    [| destruct (Js.inherited name); [done | apply IH]].
  erewrite bind_eq by apply update_eq. rewrite IH. cbn [dom set_dom].
  destruct (decide (r = element field)) as [->|Hr].
  - by rewrite lookup_total_insert_eq, p_attribute.
  - by rewrite lookup_total_insert_ne.
Qed.

Lemma submit_keeps {Payload} (callback : Payload → CallbackResult) payload
    st r :
  p (dom (submit errorClass callback payload st).2 !!! r) = p (dom st !!! r).
Proof.
  rewrite submit_eq. cbn zeta.
  pose proof (submit_fields_keeps (Js.own_keys (fields st)) false st r) as Hk.
  destruct (submit_fields errorClass _ false st).1; [done |].
  destruct (callback payload) as [o|]; [| done].
  destruct (mark_invalid (Js.own_keys o) _).1 eqn:Hm;
    cbn [snd dom set_errors]; by rewrite mark_invalid_keeps.
Qed.

Lemma step_keeps a st r :
  ¬ is_page_change a →
  p (dom (step errorClass a st) !!! r) = p (dom st !!! r).
Proof.
  intros Hlib.
  destruct a as [r0 acc|r0|r0|name|cb|form acc|form|form|r0|r0|r0 v n];
    cbn [step is_page_change] in *; try done.
  - rewrite onblur_eq. by destruct (handlers st !! r0) as [[??]|].
  - rewrite oninput_eq. destruct (handlers st !! r0) as [[name ?]|]; [| done].
    cbn zeta. destruct (reads_error _ _); [| done].
    cbn [snd dom set_dom]. destruct (decide (r = r0)) as [->|Hr].
    + rewrite lookup_total_insert_eq.
      case_bool_decide; by rewrite ?p_class, p_attribute.
    + by rewrite lookup_total_insert_ne.
  - rewrite validateField_eq.
    destruct (Js.get name (fields st)) as [field|]; [| done].
    cbn zeta. cbn [snd]. pose proof (checkValid_keeps field st r).
    by destruct (Js.truthy _).
  - apply submit_keeps.
  - rewrite formSubmit_eq. cbn [snd dom set_dom set_form_handlers].
    destruct (decide (r = form)) as [->|Hr].
    + by rewrite lookup_total_insert_eq, p_attribute.
    + by rewrite lookup_total_insert_ne.
  - unfold onsubmit. erewrite bind_eq by apply gets_eq.
    destruct (form_handlers st !! form); [apply submit_keeps | done].
  - unfold onreset. erewrite bind_eq by apply gets_eq.
    destruct (form_handlers st !! form); [| done]. by rewrite clearErrors_eq.
Qed.

End Kept.

(** X19: what the library never changes.  No call of its functions and no
    event it handles changes the value of an element, its name, the browser's
    verdict on it, whether it takes part in constraint validation or whether
    it is in the document; and a context made without an error class never
    changes the classes of an element. *)
Theorem library_leaves_values_alone a st r :
  ¬ is_page_change a →
  let e := dom st !!! r in
  let e' := dom (step errorClass a st) !!! r in
  value e' = value e ∧ name e' = name e ∧ mounted e' = mounted e ∧
  native_message e' = native_message e ∧
  will_validate e' = will_validate e ∧ validity_api e' = validity_api e ∧
  (errorClass = "" → class_list e' = class_list e).
Proof.
  intros Hlib. cbn zeta.
  pose proof (step_keeps
                (λ e, (value e, name e, mounted e, native_message e,
                       will_validate e, validity_api e))) as Hkept.
  cbn beta in Hkept.
  assert ((value (dom (step errorClass a st) !!! r),
           name (dom (step errorClass a st) !!! r),
           mounted (dom (step errorClass a st) !!! r),
           native_message (dom (step errorClass a st) !!! r),
           will_validate (dom (step errorClass a st) !!! r),
           validity_api (dom (step errorClass a st) !!! r))
          = (value (dom st !!! r), name (dom st !!! r),
             mounted (dom st !!! r), native_message (dom st !!! r),
             will_validate (dom st !!! r), validity_api (dom st !!! r)))
    as Heq.
  { apply Hkept; [| done | | done].
    - intros text e. unfold setCustomValidity.
      by destruct (validity_api e) eqn:Hapi; cbn; rewrite ?Hapi.
    - intros _ b e. unfold classList_toggle.
      destruct b; [case_bool_decide |]; done. }
  injection Heq as -> -> -> -> -> ->.
  split_and!; try done.
  intros Hec. apply (step_keeps class_list); [| done | | done].
  - intros text e. unfold setCustomValidity. by destruct (validity_api e).
  - done.
Qed.

(** The loop over the names of a callback result leaves the elements of
    other fields alone. *)
Lemma mark_invalid_others names : ∀ st r,
  (∀ k config, k ∈ names → Js.get k (fields st) = Some config →
     element config ≠ r) →
  dom (mark_invalid names st).2 !!! r = dom st !!! r.
Proof.
  induction names as [|name names IH]; intros st r Hnot; [done |].
  cbn [mark_invalid]. erewrite bind_eq by apply gets_eq.
  destruct (Js.get name (fields st)) as [field|] eqn:Hget.
  - erewrite bind_eq by apply update_eq. rewrite IH.
    + cbn [dom set_dom]. rewrite lookup_total_insert_ne; [done |].
      apply (Hnot name); [left | done].
    + intros k config Hk. cbn [fields set_dom]. apply Hnot. by right.
  - destruct (Js.inherited name); [done |].
    apply IH. intros k config Hk. apply Hnot. by right.
Qed.

(** X20: an object the callback gives back marks the elements of the
    registered fields it names and no other: every other element, and the
    registry, are as they are after a pass whose callback gave back nothing.
    That is so too when the loop over the names of the result throws, on a
    name [Object.prototype] defines. *)
Theorem callback_result_marks_named_fields_only {Payload}
    (callback : Payload → CallbackResult) payload st o r :
  callback payload = CbObject o →
  let st' := (submit errorClass callback payload st).2 in
  let plain := (submit errorClass (λ _ : Payload, CbOther) payload st).2 in
  (∀ k config, k ∈ o.*1 → Js.get k (fields plain) = Some config →
     element config ≠ r) →
  dom st' !!! r = dom plain !!! r ∧ fields st' = fields plain.
Proof.
  intros Hcb. cbn zeta. rewrite !submit_eq. cbn zeta. rewrite Hcb.
  destruct (submit_fields errorClass _ false st).1; [done |].
  cbn [snd dom fields set_errors set_trace set_isSubmitted].
  set (s2 := set_trace _ (set_isSubmitting false _)).
  intros Hnot.
  destruct (mark_invalid_frame (Js.own_keys o) s2) as (Hf & _).
  assert (dom (mark_invalid (Js.own_keys o) s2).2 !!! r = dom s2 !!! r)
    as Hdom.
  { apply mark_invalid_others.
    intros k config Hk. apply Hnot. by apply JsFacts.elem_of_own_keys. }
  by destruct (mark_invalid (Js.own_keys o) s2).1;
    cbn [snd dom fields set_errors].
Qed.

(** X21: a reset of a registered form empties the error store and does
    nothing else: the elements keep [aria-invalid] and the error class a
    failure gave them, [isSubmitted] keeps its value, the registry is as it
    was and nothing is called. *)
Theorem reset_clears_store_only form callback st :
  form_handlers st !! form = Some callback →
  let st' := (onreset form st).2 in
  errors st' = ∅ ∧ dom st' = dom st ∧ fields st' = fields st ∧
  isSubmitted st' = isSubmitted st ∧ new_events st st' = [].
Proof.
  intros Hh. cbn zeta. unfold onreset.
  erewrite bind_eq by apply gets_eq. rewrite Hh, clearErrors_eq.
  cbn [snd errors dom fields isSubmitted set_errors].
  split_and!; try done.
  unfold new_events. cbn [trace set_errors]. by rewrite drop_all.
Qed.

End Pass.

End PassProperties.

(** ** The PocketBase helpers, further *)

Module PocketbaseProperties.
Import Pocketbase PocketbaseFacts.

Section Prepare.
Variable form : list Control.

(** The entries the loop appends. *)
Lemma add_unchecked_appends (cs : list Control) : ∀ fd : FormData,
  let add (fd : FormData) (input : Control) :=
    if has (control_name input) fd then fd
    else fd ++ [(control_name input, FString "false")] in
  ∃ names : list string,
    foldl add fd cs = fd ++ ((λ n, (n, FString "false")) <$> names) ∧
    NoDup names ∧
    names `sublist_of` (control_name <$> cs) ∧
    ∀ n, n ∈ names ↔ n ∈ control_name <$> cs ∧ n ∉ fd.*1.
Proof.
  cbn zeta. induction cs as [|c cs IH]; intros fd; cbn [foldl].
  { exists []. rewrite app_nil_r. split_and!; [done | constructor | done |].
    intros n. split; [by intros ?%elem_of_nil | by intros [?%elem_of_nil _]]. }
  rewrite fmap_cons.
  destruct (has (control_name c) fd) eqn:Hc.
  - destruct (IH fd) as (names & Heq & Hnd & Hsub & Hin).
    exists names. split_and!; [done | done | by apply sublist_cons |].
    intros n. rewrite Hin, elem_of_cons.
    apply bool_decide_eq_true in Hc.
    split; [tauto |]. intros [[->|?] ?]; [done | tauto].
  - destruct (IH (fd ++ [(control_name c, FString "false")]))
      as (names & Heq & Hnd & Hsub & Hin).
    apply has_false in Hc.
    assert (∀ n, n ∈ (fd ++ [(control_name c, FString "false")]).*1
                 ↔ n ∈ fd.*1 ∨ n = control_name c) as Hkeys.
    { intros n. rewrite fmap_app, elem_of_app. cbn [fmap list_fmap fst].
      by rewrite list_elem_of_singleton. }
    exists (control_name c :: names). split_and!.
    + by rewrite Heq, <-app_assoc.
    + apply NoDup_cons. split; [| done].
      rewrite Hin, Hkeys. tauto.
    + by apply sublist_skip.
    + intros n. rewrite !elem_of_cons, Hin, Hkeys.
      destruct (decide (n = control_name c)) as [->|Hne]; tauto.
Qed.

(** X22: [prepareFormDataForPocketbase] only appends.  The entries the
    object had stay where they were, in their order; behind them comes one
    entry ["false"] for each name of a checkbox of the form that had no
    entry, once per name and in document order. *)
Theorem prepare_only_appends formData (heap : gmap nat FormData) :
  let before := heap !!! formData in
  let after := (prepareFormDataForPocketbase formData form heap).2
                 !!! formData in
  let boxes := control_name <$> querySelectorAll_checkbox form in
  ∃ names : list string,
    after = before ++ ((λ n, (n, FString "false")) <$> names) ∧
    NoDup names ∧
    names `sublist_of` boxes ∧
    ∀ n, n ∈ names ↔ n ∈ boxes ∧ n ∉ before.*1.
Proof.
  cbn zeta. unfold prepareFormDataForPocketbase. cbn [snd].
  destruct (prepare_store formData (querySelectorAll_checkbox form) heap)
    as [-> _].
  apply add_unchecked_appends.
Qed.

(** The loop over checkboxes whose names all have entries changes nothing. *)
Lemma prepare_store_filled formData (cs : list Control) :
  ∀ heap : gmap nat FormData,
  (∀ c, c ∈ cs → has (control_name c) (heap !!! formData) = true) →
  foldl (λ h input,
           if negb (has (control_name input) (h !!! formData)) then
             <[formData := set (control_name input) (FString "false")
                               (h !!! formData)]> h
           else h) heap cs = heap.
Proof.
  induction cs as [|c cs IH]; intros heap Hall; [done |].
  cbn [foldl]. rewrite (Hall c) by left. cbn [negb].
  apply IH. intros c' Hc'. apply Hall. by right.
Qed.

(** X23: preparing an object that was already prepared for the same form
    changes nothing: the second call returns the same reference and leaves
    every object as the first call left it. *)
Theorem prepare_twice_is_once formData (heap : gmap nat FormData) :
  let once := prepareFormDataForPocketbase formData form heap in
  prepareFormDataForPocketbase once.1 form once.2 = once.
Proof.
  cbn zeta. unfold prepareFormDataForPocketbase. cbn [fst snd].
  f_equal. apply prepare_store_filled. intros c Hc.
  destruct (prepare_store formData (querySelectorAll_checkbox form) heap)
    as [-> _].
  rewrite add_unchecked_has.
  rewrite (bool_decide_eq_true_2 (_ ∈ _)); [by rewrite orb_true_r |].
  apply list_elem_of_fmap. by exists c.
Qed.

End Prepare.

(** *** Errors *)

(** Reading [message] fails on exactly the field errors that are [null] or
    [undefined]. *)
Lemma map_messages_None (es : list (string * JVal)) :
  map_messages es = None ↔
  ∃ k v, (k, v) ∈ es ∧ (v = JNull ∨ v = JUndefined).
Proof.
  induction es as [|[k v] es IH].
  { split; [done |]. by intros (k & v & ?%elem_of_nil & _). }
  cbn [map_messages].
  destruct (prop "message" v) as [m|] eqn:Hm; cbn [mbind option_bind].
  - destruct (map_messages es) as [ms|]; cbn [mbind option_bind].
    + split; [done |]. intros (k' & v' & Hin & Hv).
      apply elem_of_cons in Hin as [[= -> ->]|Hin].
      * destruct Hv as [->| ->]; done.
      * assert (Some ms = None) as Hnone; [| done].
        apply IH. by exists k', v'.
    + split; [| done]. intros _.
      destruct (proj1 IH eq_refl) as (k' & v' & Hin & Hv).
      exists k', v'. split; [by right | done].
  - split; [| done]. intros _. exists k, v. split; [left |].
    destruct v; try done; [by right | by left].
Qed.

(** X24: [parsePocketbaseError] throws exactly when [e.data.data] is an
    object one of whose properties is [null] or [undefined] (its [message]
    cannot be read); on every other error it returns. *)
Theorem parse_throws_on_null_field e rootErrorKey :
  parsePocketbaseError e rootErrorKey = None ↔
  ∃ o k, opt_prop "data" (data e) = JObj o ∧
         (Js.get k o = Some JNull ∨ Js.get k o = Some JUndefined).
Proof.
  unfold parsePocketbaseError.
  destruct (isPocketbaseFieldError e) eqn:Hfe.
  - apply isPocketbaseFieldError_true in Hfe as [o Ho].
    assert (prop "data" (data e) = Some (JObj o)) as ->.
    { unfold opt_prop in Ho. destruct (prop "data" (data e)); cbn in Ho;
        congruence. }
    cbn [mbind option_bind entries].
    destruct (map_messages _) as [ms|] eqn:Hms; cbn [mbind option_bind].
    + split; [done |]. intros (o' & k & Ho' & Hk).
      assert (o' = o) as -> by congruence.
      assert (map_messages
                ((λ k, (k, default JUndefined (Js.get k o))) <$> Js.own_keys o)
              = None) as Hnone; [| congruence].
      apply map_messages_None.
      exists k, (default JUndefined (Js.get k o)). split.
      * apply list_elem_of_fmap. exists k. split; [done |].
        apply JsFacts.elem_of_own_keys, JsFacts.get_is_Some.
        destruct Hk as [->| ->]; by eexists.
      * destruct Hk as [->| ->]; cbn; [by left | by right].
    + split; [| done]. intros _.
      apply map_messages_None in Hms as (k & v & Hin & Hv).
      apply list_elem_of_fmap in Hin as (k' & [= -> ->] & Hk').
      apply JsFacts.elem_of_own_keys, JsFacts.get_is_Some in Hk' as [v Hv'].
      exists o, k'. split; [done |].
      rewrite Hv' in Hv. cbn in Hv. rewrite Hv'.
      destruct Hv as [->| ->]; [by left | by right].
  - split; [done |]. intros (o & k & Ho & _).
    assert (isPocketbaseFieldError e = true) as Hyes
      by (apply isPocketbaseFieldError_true; by exists o).
    congruence.
Qed.

End PocketbaseProperties.

(** ** The first versions *)

Module LegacyProperties.
Import Pocketbase PocketbaseFacts.

(** *** [parsePocketbaseError] *)

Lemma elem_of_entries (o : Js.obj JVal) k v :
  (k, v) ∈ entries (JObj o) ↔ Js.get k o = Some v.
Proof.
  cbn [entries]. rewrite list_elem_of_fmap. split.
  - intros (k' & [= -> ->] & Hk').
    apply JsFacts.elem_of_own_keys, JsFacts.get_is_Some in Hk' as [v ->].
    done.
  - intros Hget. exists k. rewrite Hget. split; [done |].
    apply JsFacts.elem_of_own_keys, JsFacts.get_is_Some. by eexists.
Qed.

(** [Object.fromEntries] of entries that hold one value per key. *)
Lemma get_fromEntries (h : string → option JVal) (es : list (string * JVal)) k :
  (∀ k v, (k, v) ∈ es → h k = Some v) →
  Js.get k (fromEntries es) = if decide (k ∈ es.*1) then h k else None.
Proof.
  unfold fromEntries.
  change (@None JVal) with (Js.get k (@nil (string * JVal))).
  generalize (@nil (string * JVal)).
  induction es as [|[k0 v0] es IH]; intros acc Hes; cbn [foldl].
  - by rewrite decide_False by apply not_elem_of_nil.
  - rewrite IH by (intros k' v' Hin; apply Hes; by right).
    rewrite fmap_cons. cbn [fst snd].
    destruct (decide (k ∈ es.*1)) as [Hin|Hin].
    + by rewrite decide_True by (by right).
    + rewrite JsFacts.get_set. destruct (decide (k0 = k)) as [->|Hne].
      * rewrite decide_True by left. symmetry. apply Hes. left.
      * rewrite decide_False; [done |].
        apply not_elem_of_cons. split; [congruence | done].
Qed.

(** Copying an object keeps what each key holds. *)
Lemma get_spread (o : Js.obj JVal) k :
  Js.get k (LegacyPocketbase.spread o) = Js.get k o.
Proof.
  unfold LegacyPocketbase.spread.
  rewrite (get_fromEntries (λ k, Js.get k o))
    by (intros k' v'; apply elem_of_entries).
  case_decide as Hk; [done |].
  destruct (Js.get k o) as [v|] eqn:Hget; [| done].
  exfalso. apply Hk. apply list_elem_of_fmap. exists (k, v).
  split; [done |]. by apply elem_of_entries.
Qed.

(** The messages, when all of them can be read. *)
Lemma map_messages_Some es ms :
  map_messages es = Some ms →
  ms = (λ kv, (kv.1, opt_prop "message" kv.2)) <$> es.
Proof.
  revert ms. induction es as [|[k v] es IH]; intros ms; cbn [map_messages].
  { by intros [= <-]. }
  unfold opt_prop.
  destruct (prop "message" v) as [m|] eqn:Hm; cbn [mbind option_bind];
    [| done].
  destruct (map_messages es) as [ms'|]; cbn [mbind option_bind]; [| done].
  intros [= <-]. rewrite fmap_cons. cbn [fst snd]. rewrite Hm.
  f_equal. by apply IH.
Qed.

Lemma get_messages (o : Js.obj JVal) ms k :
  map_messages (entries (JObj o)) = Some ms →
  Js.get k (fromEntries ms) = opt_prop "message" <$> Js.get k o.
Proof.
  intros ->%map_messages_Some.
  rewrite (get_fromEntries (λ k, opt_prop "message" <$> Js.get k o)).
  - case_decide as Hk; [done |].
    destruct (Js.get k o) as [v|] eqn:Hget; [| done].
    exfalso. apply Hk. rewrite <-list_fmap_compose.
    apply list_elem_of_fmap. exists (k, v).
    split; [done |]. by apply elem_of_entries.
  - intros k' v' ([k'' v''] & [= -> ->] & Hin)%list_elem_of_fmap.
    apply elem_of_entries in Hin. cbn [fst snd]. by rewrite Hin.
Qed.

Lemma opt_prop_obj k v o : opt_prop k v = JObj o → prop k v = Some (JObj o).
Proof. unfold opt_prop. destruct (prop k v); cbn; congruence. Qed.

(** X25: whenever the first [parsePocketbaseError] returns, [form] holds
    [e.message], whatever the fields are called; when [e.data.data] is an
    object, each other field's message is under the field's name and the
    result has no other key. *)
Theorem legacy_parse_keeps_root e result :
  LegacyPocketbase.parsePocketbaseError e = Some result →
  Js.get "form" result = Some (JStr (message e)) ∧
  ∀ o, opt_prop "data" (data e) = JObj o →
    (∀ k, k ≠ "form" → Js.get k result = opt_prop "message" <$> Js.get k o) ∧
    (∀ k, k ∈ result.*1 ↔ k = "form" ∨ k ∈ o.*1).
Proof.
  unfold LegacyPocketbase.parsePocketbaseError. intros Hres.
  destruct (prop "data" (data e)) as [dd|] eqn:Hdd;
    cbn [mbind option_bind] in Hres; [| done].
  destruct (LegacyPocketbase.entries dd) as [es|] eqn:Hes;
    cbn [mbind option_bind] in Hres; [| done].
  destruct (map_messages es) as [ms|] eqn:Hms;
    cbn [mbind option_bind] in Hres; [| done].
  injection Hres as <-.
  split; [apply JsFacts.get_set_eq |].
  intros o Ho. apply opt_prop_obj in Ho.
  assert (dd = JObj o) as -> by congruence.
  cbn [LegacyPocketbase.entries] in Hes. injection Hes as <-.
  assert (∀ k, k ≠ "form" →
            Js.get k (Js.set "form" (JStr (message e))
                        (LegacyPocketbase.spread (fromEntries ms)))
            = opt_prop "message" <$> Js.get k o) as Hother.
  { intros k Hk. rewrite JsFacts.get_set_ne by done.
    by rewrite get_spread, (get_messages o ms k Hms). }
  split; [done |].
  intros k. rewrite <-JsFacts.get_is_Some.
  destruct (decide (k = "form")) as [->|Hk].
  - rewrite JsFacts.get_set_eq. split; [by left | by eexists].
  - rewrite Hother by done. rewrite <-JsFacts.get_is_Some, fmap_is_Some.
    split; [by right | by intros [?|?]].
Qed.

(** Strings, numbers and booleans have a [message] to read (it is
    [undefined]). *)
Lemma map_messages_imap (l : list ascii) : ∀ n,
  is_Some (map_messages
             (imap (λ i a, (pretty (n + i), JStr (String a EmptyString))) l)).
Proof.
  induction l as [|a l IH]; intros n; [by eexists |].
  cbn [imap map_messages prop mbind option_bind].
  destruct (IH (S n)) as [ms Hms].
  erewrite imap_ext; [rewrite Hms |]; [by eexists |].
  intros i b _. cbn. by rewrite Nat.add_succ_r.
Qed.

(** X26: the first [parsePocketbaseError] throws exactly when [e.data.data]
    cannot be read or is [undefined] or [null], or is an object one of whose
    properties is [null] or [undefined].  So it throws on every error that
    carries no field data, where the current one returns the root entry. *)
Theorem legacy_parse_throws_without_data e :
  LegacyPocketbase.parsePocketbaseError e = None ↔
  opt_prop "data" (data e) = JUndefined ∨ opt_prop "data" (data e) = JNull ∨
  ∃ o k, opt_prop "data" (data e) = JObj o ∧
         (Js.get k o = Some JNull ∨ Js.get k o = Some JUndefined).
Proof.
  unfold LegacyPocketbase.parsePocketbaseError, opt_prop.
  destruct (prop "data" (data e)) as [dd|] eqn:Hdd;
    cbn [mbind option_bind default from_option id]; [| by split; [left |]].
  destruct dd as [| |b|n|s|o]; cbn [LegacyPocketbase.entries mbind option_bind].
  - split; [by left | done].
  - split; [by right; left | done].
  - cbn. split; [done |]. by intros [?|[?|(? & ? & ? & _)]].
  - cbn. split; [done |]. by intros [?|[?|(? & ? & ? & _)]].
  - destruct (map_messages_imap (String.list_ascii_of_string s) 0) as [ms Hms].
    cbn [Nat.add] in Hms. rewrite Hms. cbn [mbind option_bind].
    split; [done |]. by intros [?|[?|(? & ? & ? & _)]].
  - destruct (map_messages (entries (JObj o))) as [ms|] eqn:Hms;
      cbn [mbind option_bind].
    + split; [done |]. intros [?|[?|(o' & k & [= <-] & Hk)]]; [done | done |].
      assert (map_messages (entries (JObj o)) = None) as Hnone; [| congruence].
      apply PocketbaseProperties.map_messages_None.
      exists k, (default JUndefined (Js.get k o)). split.
      * apply elem_of_entries. destruct Hk as [->| ->]; done.
      * destruct Hk as [->| ->]; cbn; [by left | by right].
    + split; [| done]. intros _. right. right.
      apply PocketbaseProperties.map_messages_None in Hms
        as (k & v & Hin & Hv).
      apply elem_of_entries in Hin. exists o, k. split; [done |].
      rewrite Hin. destruct Hv as [->| ->]; [by left | by right].
Qed.

Lemma get_fmap {V W} (f : V → W) (o : Js.obj V) k :
  Js.get k ((λ kv, (kv.1, f kv.2)) <$> o) = f <$> Js.get k o.
Proof.
  induction o as [|[k0 v0] o IH]; [done |].
  rewrite fmap_cons. cbn [Js.get fst snd]. by case_decide.
Qed.

(** X27: the two versions of [parsePocketbaseError] on one well-typed
    error.  Both return; under every key but [form] and [__proto__] they
    hold the same, the field's message; under [form] the first holds
    [e.message], the current one (with the default root key) the message of
    a field called [form] when there is one and [e.message] otherwise; a
    field called [__proto__] is kept by the first, which defines its
    properties, and dropped by the current one, which assigns them. *)
Theorem parse_versions_differ_on_two_keys e :
  let records := LegacyPocketbase.data_data e in
  ∃ before now,
    LegacyPocketbase.parsePocketbaseError (LegacyPocketbase.to_error e)
      = Some before ∧
    parsePocketbaseError (LegacyPocketbase.to_error e) None = Some now ∧
    (∀ k, k ≠ "form" →
       Js.get k before =
         (λ fe, JStr (LegacyPocketbase.field_message fe))
           <$> Js.get k records ∧
       (k ≠ "__proto__" → Js.get k now = Js.get k before)) ∧
    Js.get "__proto__" now = None ∧
    Js.get "form" before = Some (JStr (LegacyPocketbase.error_message e)) ∧
    Js.get "form" now =
      Some (JStr (match Js.get "form" records with
                  | Some fe => LegacyPocketbase.field_message fe
                  | None => LegacyPocketbase.error_message e
                  end)).
Proof.
  cbn zeta.
  set (o := (λ kv, (kv.1, JObj [("message",
                                 JStr (LegacyPocketbase.field_message kv.2))]))
              <$> LegacyPocketbase.data_data e).
  assert (∀ k, Js.get k o =
               (λ fe, JObj [("message",
                             JStr (LegacyPocketbase.field_message fe))])
                 <$> Js.get k (LegacyPocketbase.data_data e)) as Ho.
  { intros k. unfold o.
    apply (get_fmap
             (λ fe, JObj [("message",
                           JStr (LegacyPocketbase.field_message fe))])). }
  assert (∀ k, k ∈ o.*1 ↔ k ∈ (LegacyPocketbase.data_data e).*1) as Hkeys.
  { intros k. by rewrite <-!JsFacts.get_is_Some, Ho, fmap_is_Some. }
  assert (opt_prop "data" (data (LegacyPocketbase.to_error e)) = JObj o)
    as Hdata by done.
  assert (∀ k, opt_prop "message" <$> Js.get k o =
               (λ fe, JStr (LegacyPocketbase.field_message fe))
                 <$> Js.get k (LegacyPocketbase.data_data e)) as Hmsg.
  { intros k. rewrite Ho.
    by destruct (Js.get k (LegacyPocketbase.data_data e)). }
  assert (∀ k, k ∈ Js.own_keys o →
            ∃ v, Js.get k o = Some v ∧ v ≠ JUndefined ∧ v ≠ JNull) as Hvals.
  { intros k Hk. apply JsFacts.elem_of_own_keys, JsFacts.get_is_Some in Hk
      as [v Hv]. exists v. split; [done |].
    rewrite Ho in Hv.
    destruct (Js.get k (LegacyPocketbase.data_data e)); [| done].
    injection Hv as <-. done. }
  pose proof (map_messages_fmap o (Js.own_keys o) Hvals) as Hms.
  (* the first version *)
  assert (∃ before,
            LegacyPocketbase.parsePocketbaseError (LegacyPocketbase.to_error e)
              = Some before ∧
            Js.get "form" before
              = Some (JStr (LegacyPocketbase.error_message e)) ∧
            ∀ k, k ≠ "form" →
              Js.get k before = opt_prop "message" <$> Js.get k o)
    as (before & Hbefore & Hroot & Hother).
  { unfold LegacyPocketbase.parsePocketbaseError.
    change (prop "data" (data (LegacyPocketbase.to_error e)))
      with (Some (JObj o)).
    cbn [mbind option_bind LegacyPocketbase.entries entries].
    rewrite Hms. cbn [mbind option_bind]. eexists. split; [done |].
    split; [apply JsFacts.get_set_eq |].
    intros k Hk. rewrite JsFacts.get_set_ne by done.
    by rewrite get_spread, (get_messages o _ k Hms). }
  (* the current one *)
  unfold parsePocketbaseError.
  assert (isPocketbaseFieldError (LegacyPocketbase.to_error e) = true) as ->
    by (apply isPocketbaseFieldError_true; by exists o).
  change (prop "data" (data (LegacyPocketbase.to_error e)))
    with (Some (JObj o)).
  cbn [mbind option_bind entries]. rewrite Hms.
  cbn [mbind option_bind]. exists before. eexists. split; [done |].
  split; [done |].
  set (g := λ k, opt_prop "message" (default JUndefined (Js.get k o))).
  set (src := fromEntries ((λ k, (k, g k)) <$> Js.own_keys o)).
  assert (∀ k, Js.get k src = if decide (k ∈ o.*1) then Some (g k) else None)
    as Hsrc.
  { intros k. unfold src. rewrite fromEntries_fmap, fold_set_get.
    destruct (decide (k ∈ o.*1)) as [Hk|Hk].
    - by rewrite decide_True by (by apply JsFacts.elem_of_own_keys).
    - by rewrite decide_False by (by rewrite JsFacts.elem_of_own_keys). }
  assert (∀ k, k ∈ Js.own_keys src ↔ k ∈ o.*1) as Hsrckeys.
  { intros k. rewrite JsFacts.elem_of_own_keys, <-JsFacts.get_is_Some, Hsrc.
    case_decide; [by split | split; [by intros [? ?] | done]]. }
  assert (∀ k, k ∈ src.*1 ↔ k ∈ o.*1) as Hsrcnames.
  { intros k. by rewrite <-!JsFacts.elem_of_own_keys, Hsrckeys,
                   JsFacts.elem_of_own_keys. }
  assert (∀ k, k ≠ "__proto__" →
            Js.get k (assign [(default "form" None,
                               JStr (message (LegacyPocketbase.to_error e)))]
                        src)
            = match Js.get k (LegacyPocketbase.data_data e) with
              | Some fe => Some (JStr (LegacyPocketbase.field_message fe))
              | None =>
                  Js.get k [("form",
                             JStr (LegacyPocketbase.error_message e))]
              end) as Hres.
  { intros k Hproto. rewrite assign_get.
    destruct (decide (k ∈ src.*1)) as [Hk|Hk].
    - rewrite decide_True by done.
      apply Hsrcnames in Hk as Hk'. rewrite Hsrc, decide_True by done.
      unfold g. rewrite Ho.
      apply Hkeys, JsFacts.get_is_Some in Hk' as [fe ->]. done.
    - rewrite decide_False by (by intros [? _]).
      destruct (Js.get k (LegacyPocketbase.data_data e)) as [fe|] eqn:Hget;
        [| done].
      exfalso. apply Hk, Hsrcnames, Hkeys, JsFacts.get_is_Some. by eexists. }
  split_and!.
  - intros k Hk. split; [by rewrite Hother, Hmsg |].
    intros Hproto. rewrite Hres, Hother, Hmsg by done.
    destruct (Js.get k (LegacyPocketbase.data_data e)); [done |].
    cbn [Js.get]. by rewrite decide_False.
  - rewrite assign_get, decide_False; [done |].
    intros [_ Hin%(λ f, f eq_refl)]. cbn in Hin.
    by apply list_elem_of_singleton in Hin.
  - done.
  - rewrite Hres by done.
    destruct (Js.get "form" (LegacyPocketbase.data_data e)); [done |].
    cbn [Js.get]. by rewrite decide_True.
Qed.

(** *** [checkValid] *)

Section Checks.
Import Dom Form Summary FormFacts SubmitFacts.
Variable errorClass : string.

Lemma setCustomValidity_keeps_marks text e :
  attributes (setCustomValidity text e) = attributes e ∧
  class_list (setCustomValidity text e) = class_list e.
Proof. unfold setCustomValidity. by destruct (validity_api e). Qed.

Lemma awaited_finds e vs : ∀ i v,
  v ∈ vs → Js.truthy (v e) = true →
  Js.truthy (awaited e i (Some <$> vs)).2 = true.
Proof.
  induction vs as [|w vs IH]; intros i v Hin Hv.
  { by apply elem_of_nil in Hin. }
  rewrite fmap_cons. cbn [awaited].
  destruct (Js.truthy (w e)) eqn:Hw; [done |]. cbn [snd].
  apply elem_of_cons in Hin as [->|Hin]; [congruence |].
  by apply (IH (S i) v).
Qed.

(** X28: on an input that is barred from constraint validation (disabled,
    read-only: [willValidate] is [false]) the first [checkValid] calls the
    validators and then drops what they report: the error store, the
    attributes and the classes stay as they were.  The current [checkValid]
    calls the same validators and reports the failure; for that, the error
    class is one the browser accepts as a class token and the input is not
    called [__proto__]. *)
Theorem legacy_drops_failure_of_barred_input element validators st :
  Dom.class_token errorClass = true →
  key (dom st !!! element) ≠ "__proto__" →
  let e := dom st !!! element in
  let config := {| Form.element := element;
                   Form.validators := Some <$> validators |} in
  validity_api e = true → will_validate e = false →
  let st' := (Legacy.checkValid errorClass element validators st).2 in
  let now := checkValid errorClass config st in
  errors st' = errors st ∧
  attributes (dom st' !!! element) = attributes e ∧
  class_list (dom st' !!! element) = class_list e ∧
  validator_calls (new_events st st') = validator_calls (new_events st now.2) ∧
  ((∃ v, v ∈ validators ∧ Js.truthy (v (setCustomValidity "" e)) = true) →
   Js.truthy now.1 = true ∧ errors now.2 !! key e = now.1).
Proof.
  cbn zeta. intros _ _ Hapi Hwv.
  rewrite LegacyFacts.legacy_checkValid_spec. cbn zeta. cbn [snd].
  pose proof (checkValid_trace errorClass
                {| Form.element := element;
                   Form.validators := Some <$> validators |} st) as Htr.
  pose proof (checkValid_errors errorClass
                {| Form.element := element;
                   Form.validators := Some <$> validators |} st) as Herr.
  rewrite checkValid_fst. cbn zeta in Herr. rewrite checked_key in Herr.
  unfold checked in *. cbn [fst snd Form.element Form.validators] in *.
  set (e := dom st !!! element) in *.
  set (e0 := setCustomValidity "" e) in *.
  assert (validity_api e0 = true) as Hapi0
    by (unfold e0; by rewrite validity_api_setCustomValidity).
  assert (will_validate e0 = false) as Hwv0.
  { unfold e0, setCustomValidity. by rewrite Hapi. }
  assert (∀ e1, validity_api e1 = true → will_validate e1 = false →
            validationMessage e1 = Some "") as Hbarred.
  { intros e1 H1 H2. unfold validationMessage. by rewrite H1, H2. }
  rewrite (Hbarred e0 Hapi0 Hwv0) in *.
  change (Js.truthy (Some "")) with false in *. cbn iota in *.
  set (loop := awaited e0 0 (Some <$> validators)) in *.
  assert (validationMessage
            (if Js.truthy loop.2
             then setCustomValidity (default "" loop.2) e0 else e0) = Some "")
    as Hmsg.
  { apply Hbarred.
    - destruct (Js.truthy loop.2);
        by rewrite ?validity_api_setCustomValidity.
    - destruct (Js.truthy loop.2); [| done].
      unfold setCustomValidity. by rewrite Hapi0. }
  rewrite Hmsg. change (Js.truthy (Some "")) with false. cbn iota.
  cbn [errors dom set_errors set_dom set_trace].
  rewrite lookup_total_insert_eq.
  split_and!.
  - done.
  - destruct (Js.truthy loop.2); unfold e0;
      by rewrite ?(proj1 (setCustomValidity_keeps_marks _ _)).
  - destruct (Js.truthy loop.2); unfold e0;
      by rewrite ?(proj2 (setCustomValidity_keeps_marks _ _)).
  - rewrite (new_events_app st _ _ Htr).
    erewrite new_events_app; [done |]. done.
  - intros (v & Hin & Hv).
    pose proof (awaited_finds e0 validators 0 v Hin Hv) as Hfound.
    fold loop in Hfound. rewrite Hfound in *. split; [done |].
    rewrite Herr. cbn [fst]. rewrite Hfound.
    by rewrite SubmitFacts.setProperty_lookup, decide_True.
Qed.

End Checks.

End LegacyProperties.

(** ** Further instances *)

Module Examples.
Import Dom Form Summary Observations Scenes Cases.



(** X5 where the server rejected a user name: validating the field, which
    passes, leaves the server's message and the mark in place. *)
Lemma passing_check_witness :
  Js.truthy (checkValid "" username_config rejected).1 = false ∧
  let st' := (checkValid "" username_config rejected).2 in
  errors st' !! "username" = Some "taken" ∧
  getAttribute "aria-invalid" (dom st' !!! 0) = Some "true".
Proof.
  assert (Js.truthy (checkValid "" username_config rejected).1 = false)
    as Hpass by (by vm_compute).
  destruct (FieldProperties.passing_check_leaves_marks "" username_config
              rejected Hpass) as (Herr & _ & Hattr & _).
  cbn zeta. split_and!; [done | |].
  - rewrite Herr. by vm_compute.
  - unfold getAttribute. cbn [element username_config] in Hattr.
    rewrite Hattr. by vm_compute.
Defined.

(** X6 at the same field. *)
Lemma stale_error_witness :
  Js.get "username" (fields rejected) = Some username_config ∧
  Js.truthy (checkValid "" username_config rejected).1 = false ∧
  (validateField "" "username" rejected).1 = Some false.
Proof.
  assert (Js.get "username" (fields rejected) = Some username_config) as Hget
    by (by vm_compute).
  assert (Js.truthy (checkValid "" username_config rejected).1 = false)
    as Hpass by (by vm_compute).
  destruct (FieldProperties.validateField_reports_stale_error "" "username"
              username_config rejected Hget Hpass) as (Hres & _).
  split_and!; [done | done |]. rewrite Hres. by vm_compute.
Defined.

(** X7 at an input that carries an old custom error. *)
Lemma previous_custom_validity_witness :
  validity_api (dom ready !!! element username_config) = true ∧
  (checkValid "" username_config
     (update 0 (with_custom_validity "too short") ready).2).1 = Some "".
Proof.
  assert (validity_api (dom ready !!! element username_config) = true) as Hapi
    by (by vm_compute).
  split; [done |].
  pose proof (FieldProperties.check_ignores_previous_custom_validity ""
                username_config ready "too short" Hapi) as Heq.
  cbn [element username_config] in Heq. rewrite Heq. by vm_compute.
Defined.

(** X12 at the README form: [username] fails, then the user types in it. *)
Lemma input_takes_back_witness :
  class_token "invalid" = true ∧
  handlers signup !! 0 = Some ("username", username_config) ∧
  "username" = key (dom signup !!! 0) ∧ element username_config = 0 ∧
  Js.truthy (checkValid "invalid" username_config signup).1 = true ∧
  let st1 := (checkValid "invalid" username_config signup).2 in
  let st2 := (oninput "invalid" 0 st1).2 in
  errors st1 !! "username" = Some required_message ∧
  errors st2 !! "username" = None ∧
  getAttribute "aria-invalid" (dom st2 !!! 0) = Some "false" ∧
  "invalid" ∉ class_list (dom st2 !!! 0).
Proof.
  assert ("username" ≠ "__proto__") as Hproto by done.
  assert (handlers signup !! 0 = Some ("username", username_config)) as Hh
    by (by vm_compute).
  assert ("username" = key (dom signup !!! 0)) as Hkey by (by vm_compute).
  assert (element username_config = 0) as Hel by done.
  assert (Js.truthy (checkValid "invalid" username_config signup).1 = true)
    as Hfail by (by vm_compute).
  destruct (FieldProperties.input_takes_back_failure "invalid"
              signup 0 "username" username_config eq_refl Hproto Hh Hkey Hel
              Hfail)
    as (Hrec & _ & Hnone & _ & Haria & Hclass).
  cbn zeta.
  split_and!;
    [done | done | done | done | done | | done | done | by apply Hclass].
  rewrite Hrec. by vm_compute.
Defined.



(** X15 at a form whose only field passes. *)
Lemma accepted_pass_witness :
  let a := Submit (λ _, CbOther) in
  reachable "" departed_page ready ∧
  isSubmitted ready = false ∧
  isSubmitted (step "" a ready) = true ∧
  is_submit a ∧
  errors (step "" a ready) = ∅ ∧
  callback_calls (new_events ready (step "" a ready)) = 1.
Proof.
  cbn zeta.
  assert (reachable "" departed_page ready) as Hreach by (by eexists).
  assert (isSubmitted ready = false) as Hno by (by vm_compute).
  assert (isSubmitted (step "" (Submit (λ _, CbOther)) ready) = true) as Hyes
    by (by vm_compute).
  destruct (PassProperties.isSubmitted_marks_accepted_pass "" departed_page
              ready (Submit (λ _, CbOther)) Hreach Hno Hyes)
    as (Hsub & Herr & Hcb).
  by split_and!.
Defined.


(** X21 at the README form after [username] failed: the reset empties the
    store, the input stays marked. *)
Lemma reset_witness :
  form_handlers signup_form !! 2 = Some (λ _, CbOther) ∧
  errors signup_form !! "username" = Some required_message ∧
  let st' := (onreset 2 signup_form).2 in
  errors st' = ∅ ∧
  getAttribute "aria-invalid" (dom st' !!! 0) = Some "true" ∧
  "invalid" ∈ class_list (dom st' !!! 0).
Proof.
  assert (form_handlers signup_form !! 2 = Some (λ _, CbOther)) as Hh
    by (by vm_compute).
  destruct (PassProperties.reset_clears_store_only 2 (λ _, CbOther)
              signup_form Hh) as (Herr & Hdom & _).
  cbn zeta. split_and!; [done | by vm_compute | done | |].
  - rewrite Hdom. by vm_compute.
  - rewrite Hdom. vm_compute. left.
Defined.

(** X16 at the README form. *)
Lemma validateField_focus_witness :
  class_token "invalid" = true ∧
  Js.get "username" (fields signup) = Some username_config ∧
  focus_calls (new_events signup (validateField "invalid" "username" signup).2)
    = [0] ∧
  scroll_calls (new_events signup (validateField "invalid" "username" signup).2)
    = [0].
Proof.
  assert (Js.get "username" (fields signup) = Some username_config) as Hget
    by (by vm_compute).
  destruct (PassProperties.validateField_focuses_failure "invalid" "username"
              username_config signup eq_refl Hget) as [Hf Hs].
  split_and!; [done | done | |].
  - rewrite Hf. by vm_compute.
  - rewrite Hs. by vm_compute.
Defined.

(** X17 at the README form after a failed validation. *)
Lemma consistent_state_witness :
  class_token "invalid" = true ∧
  (∀ r, key (form_page !!! r) ≠ "__proto__") ∧
  NoDup (fields signup_form).*1 ∧
  isSubmitting signup_form = false.
Proof.
  assert (∀ r, key (form_page !!! r) ≠ "__proto__") as Hkeys.
  { intros r. unfold form_page, signup_page.
    destruct (decide (r = 2)) as [->|H2];
      [by rewrite lookup_total_insert_eq |].
    rewrite lookup_total_insert_ne by done.
    destruct (decide (r = 0)) as [->|H0];
      [by rewrite lookup_total_insert_eq |].
    rewrite lookup_total_insert_ne by done.
    destruct (decide (r = 1)) as [->|H1];
      [by rewrite lookup_total_insert_eq |].
    rewrite lookup_total_insert_ne by done.
    by rewrite lookup_total_empty. }
  destruct (PassProperties.histories_keep_registry_consistent "invalid"
              form_page signup_form_history eq_refl Hkeys)
    as (Hnd & _ & _ & Hidle).
  by split_and!.
Defined.

(** X28 at a disabled input whose validator rejects everything. *)
Lemma barred_input_witness :
  let st := init disabled_page in
  class_token "" = true ∧ key (dom st !!! 0) ≠ "__proto__" ∧
  validity_api (dom st !!! 0) = true ∧ will_validate (dom st !!! 0) = false ∧
  rejects_all ∈ [rejects_all] ∧
  errors (Legacy.checkValid "" 0 [rejects_all] st).2 = ∅ ∧
  (checkValid "" {| element := 0; validators := [Some rejects_all] |} st).1
    = Some "bad".
Proof.
  cbn zeta.
  assert (validity_api (dom (init disabled_page) !!! 0) = true) as Hapi
    by (by vm_compute).
  assert (will_validate (dom (init disabled_page) !!! 0) = false) as Hwv
    by (by vm_compute).
  assert (key (dom (init disabled_page) !!! 0) ≠ "__proto__") as Hkey
    by (by vm_compute).
  destruct (LegacyProperties.legacy_drops_failure_of_barred_input "" 0
              [rejects_all] (init disabled_page) eq_refl Hkey Hapi Hwv)
    as (Herr & _ & _ & _ & Hnow).
  split_and!;
    [done | done | done | done | by left | by rewrite Herr | by vm_compute].
Defined.

(** X1 at the empty, required [username] of the README form. *)
Lemma legacy_agrees_witness :
  let st := init signup_page in
  validity_api (dom st !!! 0) = true ∧ will_validate (dom st !!! 0) = true ∧
  is_Some (name (dom st !!! 0)) ∧
  errors (Legacy.checkValid "invalid" 0 [] st).2 !! "username"
    = Some required_message.
Proof.
  cbn zeta.
  assert (validity_api (dom (init signup_page) !!! 0) = true) as Hapi
    by (by vm_compute).
  assert (will_validate (dom (init signup_page) !!! 0) = true) as Hwv
    by (by vm_compute).
  assert (is_Some (name (dom (init signup_page) !!! 0))) as Hname
    by (vm_compute; by eexists).
  split_and!; [done | done | done |].
  rewrite (LegacyFacts.legacy_checkValid_agrees "invalid" 0 []
             (init signup_page) Hapi Hwv Hname).
  by vm_compute.
Defined.

(** X3: the pass over the README form visits [username], then
    [message]. *)
Lemma registration_order_witness :
  let names := (λ p, key (signup_page !!! p.1)) <$> signup_fields in
  NoDup names ∧
  (∀ k, k ∈ names → Js.array_index k = None) ∧
  ("__proto__" ∉ names) ∧
  Js.own_keys
    (fields (run "invalid" ((λ p, Validate p.1 p.2) <$> signup_fields)
               (init signup_page)))
    = ["username"; "message"].
Proof.
  cbn zeta.
  assert ((λ p : nat * option (list Validator), key (signup_page !!! p.1))
            <$> signup_fields = ["username"; "message"]) as Hnames
    by (by vm_compute).
  assert (NoDup ((λ p : nat * option (list Validator),
                    key (signup_page !!! p.1)) <$> signup_fields)) as Hnd.
  { rewrite Hnames. apply NoDup_cons. split.
    - by intros ?%list_elem_of_singleton.
    - apply NoDup_singleton. }
  assert (∀ k, k ∈ (λ p : nat * option (list Validator),
                      key (signup_page !!! p.1)) <$> signup_fields →
               Js.array_index k = None) as Hidx.
  { intros k. rewrite Hnames. intros Hk.
    apply elem_of_cons in Hk as [->|Hk]; [done |].
    by apply list_elem_of_singleton in Hk as ->. }
  assert ("__proto__" ∉ (λ p : nat * option (list Validator),
                            key (signup_page !!! p.1)) <$> signup_fields)
    as Hproto.
  { rewrite Hnames. intros Hk.
    apply elem_of_cons in Hk as [?|Hk]; [done |].
    by apply list_elem_of_singleton in Hk. }
  split_and!; [done | done | done |].
  rewrite (ReachFacts.registration_order "invalid" signup_fields signup_page
             Hnd Hidx Hproto).
  done.
Defined.

(** X25 at an error with a field called [form]: the first version keeps
    [e.message] there. *)
Lemma legacy_root_witness :
  let e := LegacyPocketbase.to_error typed_form_error in
  ∃ result,
    LegacyPocketbase.parsePocketbaseError e = Some result ∧
    Js.get "form" result = Some (Pocketbase.JStr "Failed to create record.") ∧
    Js.get "email" result = Some (Pocketbase.JStr "Invalid email").
Proof.
  cbn zeta. eexists. split; [by vm_compute |].
  destruct (LegacyProperties.legacy_parse_keeps_root
              (LegacyPocketbase.to_error typed_form_error) _ eq_refl)
    as [Hroot _].
  split; [exact Hroot | by vm_compute].
Defined.

(** X26 at the error of a failed request, which has no [data]. *)
Lemma legacy_throws_witness :
  LegacyPocketbase.parsePocketbaseError network_error = None ∧
  Pocketbase.parsePocketbaseError network_error None
    = Some [("form", Pocketbase.JStr "Failed to fetch")].
Proof.
  split; [| by vm_compute].
  apply LegacyProperties.legacy_parse_throws_without_data. by left.
Defined.

(** X11 at the README form after [username] failed: the user types a
    name. *)
Lemma corrected_field_witness :
  let st1 := run "invalid" [Edit 0 "ada" ""; Input 0] signup_checked in
  Js.inherited "username" = false ∧
  handlers signup_checked !! 0 = Some ("username", username_config) ∧
  Js.get "username" (fields signup_checked) = Some username_config ∧
  (validateField "invalid" "username" signup_checked).1 = Some false ∧
  Js.truthy (checkValid "invalid" username_config st1).1 = false ∧
  (validateField "invalid" "username" st1).1 = Some true.
Proof.
  cbn zeta.
  assert (handlers signup_checked !! 0 = Some ("username", username_config))
    as Hh by (by vm_compute).
  assert (Js.get "username" (fields signup_checked) = Some username_config)
    as Hget by (by vm_compute).
  assert (Js.truthy
            (checkValid "invalid" username_config
               (run "invalid" [Edit 0 "ada" ""; Input 0] signup_checked)).1
          = false) as Hpass by (by vm_compute).
  destruct (FieldProperties.corrected_field_validates "invalid"
              signup_checked 0 "username" username_config "ada" ""
              eq_refl Hh Hget Hpass) as [Hres _].
  split_and!; [done | done | done | by vm_compute | done | done].
Defined.

(** X19 at the README form: validating [message] leaves its value. *)
Lemma values_alone_witness :
  let a := ValidateField "message" in
  ¬ is_page_change a ∧
  value (dom (step "invalid" a signup) !!! 1) = "hey" ∧
  mounted (dom (step "invalid" a signup) !!! 1) = true.
Proof.
  cbn zeta.
  assert (¬ is_page_change (ValidateField "message")) as Hlib by (by intros ?).
  destruct (PassProperties.library_leaves_values_alone "invalid"
              (ValidateField "message") signup 1 Hlib)
    as (Hv & _ & Hm & _).
  split_and!; [done | by rewrite Hv | by rewrite Hm].
Defined.

(** X20 where the callback reports an error of the whole form: the only
    field is not marked. *)
Lemma unnamed_field_witness :
  let callback (_ : unit) := CbObject [("form", Some "rejected")] in
  let st' := (submit "" callback tt ready).2 in
  callback tt = CbObject [("form", Some "rejected")] ∧
  errors st' !! "form" = Some "rejected" ∧
  getAttribute "aria-invalid" (dom st' !!! 0) = None.
Proof.
  cbn zeta. split_and!; [done | by vm_compute |].
  destruct (PassProperties.callback_result_marks_named_fields_only ""
              (λ _ : unit, CbObject [("form", Some "rejected")]) tt ready
              [("form", Some "rejected")] 0 eq_refl) as [Hdom _].
  { intros k config Hk. apply list_elem_of_singleton in Hk as ->.
    by vm_compute. }
  rewrite Hdom. by vm_compute.
Defined.

(** X2 at the empty, required [username] of the README form. *)
Lemma legacy_carried_witness :
  let st := init signup_page in
  let st' := (Legacy.checkValid "invalid" 0 [] st).2 in
  class_token "invalid" = true ∧ name (dom st !!! 0) ≠ Some "__proto__" ∧
  validationMessage (dom st' !!! 0) = Some required_message ∧
  errors st' !! default "undefined" (name (dom st' !!! 0))
    = validationMessage (dom st' !!! 0) ∧
  getAttribute "aria-invalid" (dom st' !!! 0) = Some "true".
Proof.
  cbn zeta.
  assert (name (dom (init signup_page) !!! 0) ≠ Some "__proto__") as Hname
    by (by vm_compute).
  pose proof (LegacyFacts.legacy_failure_is_carried "invalid" 0 []
                (init signup_page) eq_refl Hname) as Hthm.
  cbn zeta in Hthm.
  assert (validationMessage
            (dom (Legacy.checkValid "invalid" 0 [] (init signup_page)).2
               !!! 0) = Some required_message) as Hm by (by vm_compute).
  rewrite Hm in Hthm. change (Js.truthy (Some required_message)) with true
    in Hthm. cbn iota in Hthm.
  destruct Hthm as (Herr & Haria & _).
  rewrite Hm. by split_and!.
Defined.

(** X9 at the README page: its first input is registered. *)
Lemma validate_files_witness :
  let st' := (validate 0 None (init signup_page)).2 in
  key (dom (init signup_page) !!! 0) ≠ "__proto__" ∧
  Js.get "username" (fields st') = Some username_config ∧
  handlers st' !! 0 = Some ("username", username_config).
Proof.
  cbn zeta.
  assert (key (dom (init signup_page) !!! 0) ≠ "__proto__") as Hkey
    by (by vm_compute).
  destruct (FieldProperties.validate_files_under_key 0 None
              (init signup_page) Hkey) as (Hget & _ & _ & Hh & _).
  split_and!; [done | exact Hget | exact Hh].
Defined.

(** X24 at an error whose [email] record is [null]. *)
Lemma parse_throws_witness :
  Pocketbase.parsePocketbaseError null_field_error None = None.
Proof.
  apply PocketbaseProperties.parse_throws_on_null_field.
  exists [("email", Pocketbase.JNull)], "email". split; [done | by left].
Defined.

End Examples.
